(** * The document modality of UKV: a shallow embedding and its properties

    The development follows two translation units of the repository:
    - [src/deprecated/modality_nlohmann_docs.cpp]  (modules [Gather],
      [Deprecated] and [Tabular]),
    - [src/logic_docs.cpp]                          (modules [LogicDocs] and
      [LogicGist]);
    [update_fields] of [src/ukv_docs_nlohmann.cpp] is, statement by
    statement, the one of logic_docs.cpp.

    The JSON library (nlohmann/json), the C++ standard library and the
    key-value engine behind [ukv_read] / [ukv_write] are not part of these
    files; they enter as interfaces ([Nlohmann], [LibC], [KvEngine]). *)

From Stdlib Require Import ZArith String Ascii List Lia.
From stdpp Require Import base tactics option list gmap sorting strings pretty.

Local Open Scope Z_scope.

(** ** Bytes, values and keys *)

(** [byte_t] / [ukv_octet_t]: an 8-bit quantity, kept as a [Z] in [0, 256). *)
Definition byte_t : Type := Z.

(** [value_view_t]: a span of bytes. *)
Definition value_view_t : Type := list byte_t.

(** The object representation of a [width]-byte integer, least significant
    byte first; a negative [v] comes out in two's complement. *)
Fixpoint le_bytes (width : nat) (v : Z) : list byte_t :=
  match width with
  | O => []
  | S width' => v mod 256 :: le_bytes width' (v / 256)
  end.

(** The bytes of a [std::string]. *)
Definition bytes_of_string (s : string) : list byte_t :=
  (λ c, Z.of_nat (nat_of_ascii c)) <$> list_ascii_of_string s.

(** [collection_key_t]: a 64-bit collection handle and a signed 64-bit key. *)
Definition collection_key_t : Type := (Z * Z)%type.

(** [ukv_str_view_t]: a NUL-terminated C string, or [nullptr]. *)
Definition ukv_str_view_t : Type := option string.

(** Equality and order on [collection_key_t] are lexicographic. *)
Definition collection_key_lt (a b : collection_key_t) : Prop :=
  a.1 < b.1 ∨ (a.1 = b.1 ∧ a.2 < b.2).

Definition collection_key_le (a b : collection_key_t) : Prop :=
  a.1 < b.1 ∨ (a.1 = b.1 ∧ a.2 ≤ b.2).

#[global] Instance collection_key_lt_dec : RelDecision collection_key_lt.
Proof. intros a b. unfold collection_key_lt. apply _. Defined.

#[global] Instance collection_key_le_dec : RelDecision collection_key_le.
Proof. intros a b. unfold collection_key_le. apply _. Defined.

(** ** Helpers of [helpers.hpp] used by the batch read planner *)

(** Modelled from the spec: [all_ascending] of helpers.hpp is missing; the
    planner's fast path asks for a "strictly ascending (simple [<]
    comparison)" sequence.  The source applies it to [places.keys_begin],
    the keys alone. *)
Fixpoint all_ascending (keys : list Z) : bool :=
  match keys with
  | [] => true
  | k :: rest =>
      match rest with
      | [] => true
      | k' :: _ => bool_decide (k < k') && all_ascending rest
      end
  end.

(** [std::unique]: drops every element equal to its predecessor. *)
Fixpoint unique (l : list collection_key_t) : list collection_key_t :=
  match l with
  | [] => []
  | x :: rest =>
      match rest with
      | [] => [x]
      | y :: _ => if decide (x = y) then unique rest else x :: unique rest
      end
  end.

(** Modelled from the spec: [sort_and_deduplicate] of helpers.hpp is missing;
    the planner must "sort lexicographically, and dedupe in place". *)
Definition sort_and_deduplicate (l : list collection_key_t) : list collection_key_t :=
  unique (merge_sort collection_key_le l).

(** [std::lower_bound] over the index range [first, first + count). *)
Fixpoint lower_bound (fuel : nat) (l : list collection_key_t) (x : collection_key_t)
    (first count : nat) : nat :=
  match fuel with
  | O => first
  | S fuel' =>
      match count with
      | O => first
      | S _ =>
          let step := (count / 2)%nat in
          match l !! (first + step)%nat with
          | Some y =>
              if decide (collection_key_lt y x)
              then lower_bound fuel' l x (first + step + 1)%nat (count - (step + 1))%nat
              else lower_bound fuel' l x first step
          | None => first
          end
      end
  end.

(** Modelled from the spec: [offset_in_sorted] of helpers.hpp is missing; the
    planner must "binary-search the unique set to find the parsed
    document". *)
Definition offset_in_sorted (l : list collection_key_t) (x : collection_key_t) : nat :=
  lower_bound (length l) l x 0%nat (length l).

(** ** Documents *)

(** [json_t = nlohmann::basic_json<std::map, std::vector, std::string, bool,
    int64_t, uint64_t, double, ...>].  A [double] is kept as its 64-bit
    IEEE-754 pattern; an object is the sequence of its members. *)
#[warnings="-register-all"]
Inductive json_t : Type :=
  | JNull
  | JDiscarded
  | JBoolean (b : bool)
  | JNumberInteger (n : Z)
  | JNumberUnsigned (n : Z)
  | JNumberFloat (bits : Z)
  | JString (s : string)
  | JBinary (bytes : list byte_t)
  | JArray (items : list json_t)
  | JObject (members : list (string * json_t)).

Definition is_discarded (json : json_t) : bool :=
  match json with JDiscarded => true | _ => false end.

Fixpoint members_find (members : list (string * json_t)) (name : string) : option json_t :=
  match members with
  | [] => None
  | (k, v) :: rest => if decide (k = name) then Some v else members_find rest name
  end.

(** [json.find(name)]: an iterator to the member, [end()] for a missing member
    and for every value that is not an object. *)
Definition find (json : json_t) (name : string) : option json_t :=
  match json with
  | JObject members => members_find members name
  | _ => None
  end.

Fixpoint members_assign (members : list (string * json_t)) (name : string) (v : json_t)
    : list (string * json_t) :=
  match members with
  | [] => []
  | (k, old) :: rest =>
      if decide (k = name) then (k, v) :: rest else (k, old) :: members_assign rest name v
  end.

(** Assignment through the reference [json.find(name).value()]. *)
Definition find_assign (json : json_t) (name : string) (v : json_t) : json_t :=
  match json with
  | JObject members => JObject (members_assign members name v)
  | other => other
  end.

(** ** Formats and errors *)

(** The format tags the sources switch over.  modality_nlohmann_docs.cpp
    spells two of them [ukv_field_json_k] and [ukv_format_field_default_k]. *)
Inductive ukv_format_t : Type :=
  | ukv_format_binary_k
  | ukv_format_json_k
  | ukv_format_json_patch_k
  | ukv_format_json_merge_patch_k
  | ukv_format_msgpack_k
  | ukv_format_bson_k
  | ukv_format_cbor_k
  | ukv_format_ubjson_k
  | ukv_format_other (tag : Z).

#[global] Instance ukv_format_eq_dec : EqDecision ukv_format_t.
Proof. solve_decision. Defined.

Abbreviation ukv_field_json_k := ukv_format_json_k (only parsing).
Abbreviation ukv_format_field_default_k := ukv_format_binary_k (only parsing).

(** [constexpr ... internal_format_k = ukv_format_msgpack_k] *)
Definition internal_format_k : ukv_format_t := ukv_format_msgpack_k.

(** [ukv_error_t]: the message stored through [c_error]. *)
Inductive ukv_error_t : Type :=
  | error_msg (message : string)
  | error_exception (section_name : string)   (* set by [safe_section] *)
  | error_engine (code : Z).                  (* set inside the KV engine *)

#[global] Instance ukv_error_eq_dec : EqDecision ukv_error_t.
Proof. solve_decision. Defined.

(** ** The JSON library *)

(** The entry points of nlohmann/json the sources call.  A reader or writer
    yields [None] when the library throws. *)
Class Nlohmann : Type := {
  (** [json_t::parse(first, last, nullptr, allow_exceptions, ignore_comments)] *)
  parse : value_view_t → bool → bool → option json_t;
  (** [json_t::from_msgpack(first, last, strict, allow_exceptions)] and its siblings *)
  from_msgpack : value_view_t → bool → bool → option json_t;
  from_bson : value_view_t → bool → bool → option json_t;
  from_cbor : value_view_t → bool → bool → option json_t;
  from_ubjson : value_view_t → bool → bool → option json_t;
  (** [serializer(value, ' ').dump(json, false, false, 0, 0)] *)
  dump : json_t → option value_view_t;
  write_msgpack : json_t → option value_view_t;
  write_bson : json_t → option value_view_t;
  write_cbor : json_t → option value_view_t;
  (** [write_ubjson(json, use_size, use_type)] *)
  write_ubjson : json_t → bool → bool → option value_view_t;
  (** [json_ptr_t {field}] throws on a malformed pointer *)
  json_pointer_ok : string → bool;
  (** [json.contains(ptr)], [json.at(ptr)] and assignment through [json.at(ptr)] *)
  contains : json_t → string → bool;
  at_pointer : json_t → string → json_t;
  at_pointer_assign : json_t → string → json_t → json_t;
  (** [json.patch(ops)], [json.merge_patch(ops)] *)
  patch : json_t → json_t → option json_t;
  merge_patch : json_t → json_t → option json_t;
  flatten : json_t → option json_t;
  unflatten : json_t → option json_t;
  emplace : json_t → string → json_t → option json_t;
}.

(** ** The C and C++ standard library on floating-point numbers *)

(** What the sources ask of [<cstdlib>], [<cstdio>] and the compiler about
    [float] and [double]; a floating-point number is its IEEE-754 pattern. *)
Class LibC : Type := {
  (** [std::strtof(begin, &end)], [std::strtod(begin, &end)] on a
    NUL-terminated string: the characters consumed and the result *)
  strtof : string → nat * Z;
  strtod : string → nat * Z;
  (** the text [std::snprintf(..., "%f", scalar)] formats *)
  snprintf_f : Z → string;
  (** [static_cast<float>(n)], [static_cast<double>(n)] of an integer *)
  float_of_integer : Z → Z;
  double_of_integer : Z → Z;
  (** [static_cast<float>(d)], [static_cast<bool>(d)] of a [double], and
    [static_cast] of a [double] to an integer of [width] bytes *)
  float_of_double : Z → Z;
  bool_of_double : Z → bool;
  integer_of_double : bool → nat → Z → Z;
}.

(** ** The key-value engine *)

Definition ukv_database_t : Type := option Z.      (* a handle, or [nullptr] *)
Definition ukv_transaction_t : Type := option Z.
Definition ukv_options_t : Type := Z.

(** The arguments of one [ukv_read] call. *)
Record ukv_read_t : Type := {
  read_db : ukv_database_t;
  read_transaction : ukv_transaction_t;
  read_options : ukv_options_t;
  read_tasks : list collection_key_t;
}.

(** The arguments of one [ukv_write] call: the keys and, index by index, the
    entries of the value views ([None]: a cleared presence bit). *)
Record ukv_write_t : Type := {
  write_db : ukv_database_t;
  write_transaction : ukv_transaction_t;
  write_options : ukv_options_t;
  write_tasks : list collection_key_t;
  write_contents : list (option value_view_t);
}.

(** Modelled from the spec: the engine behind [ukv_read] and [ukv_write] is
    missing.  "kv_read ... batched, returns one entry per input";
    "kv_write ... -> status"; "any error returned by the KV engine is
    propagated verbatim".  A missing entry reads as an empty blob. *)
Class KvEngine : Type := {
  db_t : Type;
  kv_get : db_t → collection_key_t → value_view_t;
  kv_read_error : db_t → ukv_read_t → option ukv_error_t;
  kv_write : db_t → ukv_write_t → ukv_error_t + db_t;
}.

(** ** The state a call runs in, and the ways it can end *)

Section Effects.
Context `{KvEngine}.

(** What a call does to its surroundings, in the order it does it. *)
Inductive event : Type :=
  | ev_ukv_read (r : ukv_read_t)
  | ev_ukv_write (wr : ukv_write_t)
  | ev_parse_any (bytes : value_view_t) (format : ukv_format_t)
  | ev_dump_any (json : json_t) (format : ukv_format_t)
  | ev_callback (task_idx : nat) (field : ukv_str_view_t).

(** The database behind [c_db], the cell [*c_error] and the trace so far. *)
Record world : Type := {
  store : db_t;
  c_error : option ukv_error_t;
  trace : list event;
}.

(** A call that does not return to its caller. *)
Inductive abort : Type :=
  | uncaught_exception     (* an exception no handler of the call catches *)
  | undefined_behaviour.   (* a null or out-of-bounds access *)

Inductive result (A : Type) : Type :=
  | Done (a : A) (w : world)
  | Aborted (why : abort) (w : world).
Arguments Done {A} a w.
Arguments Aborted {A} why w.

Definition M (A : Type) : Type := world → result A.

Definition ret {A} (a : A) : M A := λ w, Done a w.

Definition bind {A B} (m : M A) (k : A → M B) : M B :=
  λ w, match m w with
       | Done a w' => k a w'
       | Aborted why w' => Aborted why w'
       end.

Definition raise {A} (why : abort) : M A := λ w, Aborted why w.

(** The value of [*c_error]. *)
Definition get_error : M (option ukv_error_t) := λ w, Done (c_error w) w.

(** [*c_error = message] and [log_error_m(c_error, code, message)]. *)
Definition log_error (e : ukv_error_t) : M unit :=
  λ w, Done tt {| store := store w; c_error := Some e; trace := trace w |}.

Definition emit (ev : event) : M unit :=
  λ w, Done tt {| store := store w; c_error := c_error w; trace := trace w ++ [ev] |}.

(** [return_if_error_m(c_error)]: leave with [early] when [*c_error] is set. *)
Definition return_if_error_m {A} (early : A) (k : M A) : M A :=
  λ w, match c_error w with
       | Some _ => Done early w
       | None => k w
       end.

(** An access that is undefined when the element is not there. *)
Definition checked {A} (o : option A) : M A :=
  match o with
  | Some a => ret a
  | None => raise undefined_behaviour
  end.

(** A library call outside every handler. *)
Definition unguarded {A} (o : option A) : M A :=
  match o with
  | Some a => ret a
  | None => raise uncaught_exception
  end.

(** [ukv_read(&read)]: on success one blob per task, in task order; on
    failure the error is stored and the output arrays stay [nullptr]. *)
Definition ukv_read (r : ukv_read_t) : M (option (list value_view_t)) :=
  bind (emit (ev_ukv_read r)) (λ _ w,
    match kv_read_error (store w) r with
    | Some e => bind (log_error e) (λ _, ret None) w
    | None => ret (Some (kv_get (store w) <$> read_tasks r)) w
    end).

(** [ukv_write(&write)] *)
Definition ukv_write (wr : ukv_write_t) : M unit :=
  bind (emit (ev_ukv_write wr)) (λ _ w,
    match kv_write (store w) wr with
    | inl e => log_error e w
    | inr db' => Done tt {| store := db'; c_error := c_error w; trace := trace w |}
    end).
End Effects.

Arguments Done {_ A} a w.
Arguments Aborted {_ A} why w.

Notation "'let*' x := m 'in' k" := (bind m (λ x, k))
  (at level 10, x binder, m at level 100, k at level 200, only parsing).
Notation "'let*' ' pat := m 'in' k" := (bind m (λ x, match x with pat => k end))
  (at level 10, pat pattern, m at level 100, k at level 200, only parsing).

(** ** Argument views *)

(** [strided_iterator_gt<A>]: a null pointer, a pointer with stride zero
    (every index reads the same element) or a pointer over consecutive
    elements. *)
Inductive strided_iterator_gt (A : Type) : Type :=
  | strided_null
  | strided_repeats (x : A)
  | strided_array (xs : list A).
Arguments strided_null {A}.
Arguments strided_repeats {A} x.
Arguments strided_array {A} xs.

(** [places_arg_t]: [count] tasks, their [(collection, key)] pairs as read
    through [collections_begin] and [keys_begin], and the field selectors. *)
Record places_arg_t : Type := {
  keys_begin : list collection_key_t;
  fields_begin : strided_iterator_gt ukv_str_view_t;
}.

Definition count (places : places_arg_t) : nat := length (keys_begin places).

(** [contents_arg_t]: the value of each task; [None] is an absent value. *)
Definition contents_arg_t : Type := list (option value_view_t).

(** The bytes [contents[i]] views: nothing for an absent value. *)
Definition content_view (content : option value_view_t) : value_view_t :=
  default [] content.

(** [fields && (!fields.repeats() || *fields)] *)
Definition has_fields (fields : strided_iterator_gt ukv_str_view_t) : bool :=
  match fields with
  | strided_null => false
  | strided_repeats f => bool_decide (f ≠ None)
  | strided_array _ => true
  end.

(** The element a strided iterator over field selectors reads at index [i]:
    [nullptr] through a null iterator, nothing past the end of an array. *)
Definition field_view (fields : strided_iterator_gt ukv_str_view_t) (i : nat)
    : option ukv_str_view_t :=
  match fields with
  | strided_null => Some None
  | strided_repeats f => Some f
  | strided_array fs => fs !! i
  end.

(** The arguments of [ukv_docs_write] and [ukv_docs_read]. *)
Record ukv_docs_write_t : Type := {
  dw_db : ukv_database_t;
  dw_transaction : ukv_transaction_t;
  dw_options : ukv_options_t;
  dw_tasks : list collection_key_t;
  dw_fields : strided_iterator_gt ukv_str_view_t;
  dw_format : ukv_format_t;
  dw_contents : contents_arg_t;
}.

Record ukv_docs_read_t : Type := {
  dr_db : ukv_database_t;
  dr_transaction : ukv_transaction_t;
  dr_options : ukv_options_t;
  dr_tasks : list collection_key_t;
  dr_fields : strided_iterator_gt ukv_str_view_t;
  dr_format : ukv_format_t;
}.

(** The condition under which [ukv_docs_read] of
    modality_nlohmann_docs.cpp hands the request to the engine as it is. *)
Definition forwards_read (c : ukv_docs_read_t) : bool :=
  negb (has_fields (dr_fields c)) && bool_decide (dr_format c = internal_format_k).

(** Where a [json_t&] returned by [lookup_field] points. *)
Inductive json_ref : Type :=
  | ref_json                       (* the document itself *)
  | ref_at (field : string)        (* [json.at(field_ptr)] *)
  | ref_member (name : string)     (* [json.find(field).value()] *)
  | ref_default.                   (* [default_json] *)

(** The first character of a C string; NUL for the empty one. *)
Definition first_char (s : string) : ascii :=
  match s with
  | EmptyString => "000"%char
  | String c _ => c
  end.

(** ** Columnar export (gather) *)

(** [ukv_length_missing_k] of ukv.h, the largest [ukv_length_t]. *)
Definition ukv_length_missing_k : Z := 4294967295.

(** [static_cast<ukv_length_t>(size)]: a [ukv_length_t] has 32 bits. *)
Definition as_ukv_length (size : nat) : Z := Z.of_nat size mod 2 ^ 32.

(** The element types [ukv_docs_gather] switches over. *)
Inductive ukv_doc_field_type_t : Type :=
  | ukv_doc_field_null_k
  | ukv_doc_field_bool_k
  | ukv_doc_field_uuid_k
  | ukv_doc_field_i8_k | ukv_doc_field_i16_k | ukv_doc_field_i32_k | ukv_doc_field_i64_k
  | ukv_doc_field_u8_k | ukv_doc_field_u16_k | ukv_doc_field_u32_k | ukv_doc_field_u64_k
  | ukv_doc_field_f16_k | ukv_doc_field_f32_k | ukv_doc_field_f64_k
  | ukv_doc_field_bin_k
  | ukv_doc_field_str_k.

(** The instances of [template <typename scalar_at>]. *)
Inductive scalar_at : Type :=
  | t_bool
  | t_int8 | t_int16 | t_int32 | t_int64
  | t_uint8 | t_uint16 | t_uint32 | t_uint64
  | t_float | t_double.

#[global] Instance scalar_at_eq_dec : EqDecision scalar_at.
Proof. solve_decision. Defined.

Definition sizeof (t : scalar_at) : nat :=
  match t with
  | t_bool | t_int8 | t_uint8 => 1
  | t_int16 | t_uint16 => 2
  | t_int32 | t_uint32 | t_float => 4
  | t_int64 | t_uint64 | t_double => 8
  end.

(** [std::is_integral_v<scalar_at> && std::is_signed_v<scalar_at>] *)
Definition is_signed_integral (t : scalar_at) : bool :=
  match t with
  | t_int8 | t_int16 | t_int32 | t_int64 => true
  | _ => false
  end.

(** [std::is_unsigned_v<scalar_at>], which holds of [bool] as well. *)
Definition is_unsigned (t : scalar_at) : bool :=
  match t with
  | t_bool | t_uint8 | t_uint16 | t_uint32 | t_uint64 => true
  | _ => false
  end.

Definition is_floating_point (t : scalar_at) : bool :=
  match t with
  | t_float | t_double => true
  | _ => false
  end.

(** [std::numeric_limits<scalar_at>::min()] and [max()] of the integer types. *)
Definition numeric_min (t : scalar_at) : Z :=
  if is_signed_integral t then - 2 ^ (8 * Z.of_nat (sizeof t) - 1) else 0.

Definition numeric_max (t : scalar_at) : Z :=
  if is_signed_integral t then 2 ^ (8 * Z.of_nat (sizeof t) - 1) - 1
  else 2 ^ (8 * Z.of_nat (sizeof t)) - 1.

(** [column_begin_t]: the addresses of the three bitmaps of a column.  The
    scalars, the string offsets and the string lengths of the column are the
    arrays of [column_memory] below. *)
Record column_begin_t : Type := {
  validities : Z;
  conversions : Z;
  collisions : Z;
}.

(** The memory one cell export works on: the octets of all bitmaps by
    address, the arrays of the column by cell index, and the joined string
    tape [output]. *)
Record column_memory : Type := {
  octets : gmap Z Z;
  scalars : gmap nat (list byte_t);
  str_offsets : gmap nat Z;
  str_lengths : gmap nat Z;
  output : list byte_t;
}.

(** One write of a cell export. *)
Inductive mem_op : Type :=
  | op_and_not (ref mask : Z)                      (* [ref &= ~mask] *)
  | op_or (ref mask : Z)                           (* [ref |= mask] *)
  | op_scalar (idx : nat) (repr : list byte_t)     (* [ref_scalar = ...], [memcpy] *)
  | op_off (idx : nat) (v : Z)                     (* [ref_off = ...] *)
  | op_len (idx : nat) (v : Z)                     (* [ref_len = ...] *)
  | op_output (bytes : list byte_t).               (* [output.insert(output.end(), ...)] *)

Definition octet_at (m : column_memory) (ref : Z) : Z := default 0 (octets m !! ref).

Definition set_octet (m : column_memory) (ref v : Z) : column_memory :=
  {| octets := <[ref := v]> (octets m); scalars := scalars m;
     str_offsets := str_offsets m; str_lengths := str_lengths m; output := output m |}.

Definition exec_op (m : column_memory) (op : mem_op) : column_memory :=
  match op with
  | op_and_not ref mask => set_octet m ref (Z.land (octet_at m ref) (Z.lnot mask) mod 256)
  | op_or ref mask => set_octet m ref (Z.lor (octet_at m ref) mask mod 256)
  | op_scalar idx repr =>
      {| octets := octets m; scalars := <[idx := repr]> (scalars m);
         str_offsets := str_offsets m; str_lengths := str_lengths m; output := output m |}
  | op_off idx v =>
      {| octets := octets m; scalars := scalars m;
         str_offsets := <[idx := v]> (str_offsets m); str_lengths := str_lengths m;
         output := output m |}
  | op_len idx v =>
      {| octets := octets m; scalars := scalars m;
         str_offsets := str_offsets m; str_lengths := <[idx := v]> (str_lengths m);
         output := output m |}
  | op_output bytes =>
      {| octets := octets m; scalars := scalars m;
         str_offsets := str_offsets m; str_lengths := str_lengths m;
         output := output m ++ bytes |}
  end.

Definition exec (ops : list mem_op) (m : column_memory) : column_memory :=
  foldl exec_op m ops.

(** The cell of [doc_idx] is valid, or collided, or neither. *)
Definition cell_state (m : column_memory) (column : column_begin_t) (doc_idx : nat) : Prop :=
  let valid := Z.testbit (octet_at m (validities column + Z.of_nat doc_idx / 8))
                 (Z.of_nat doc_idx mod 8) in
  let collided := Z.testbit (octet_at m (collisions column + Z.of_nat doc_idx / 8))
                    (Z.of_nat doc_idx mod 8) in
  (valid = true ∧ collided = false) ∨ (collided = true ∧ valid = false)
  ∨ (valid = false ∧ collided = false).

(** [static_cast<ukv_octet_t>(1 << (doc_idx % CHAR_BIT))] *)
Definition mask_bitmap (doc_idx : nat) : Z := Z.shiftl 1 (Z.of_nat doc_idx mod 8) mod 256.

(** The address behind [bitmap[doc_idx / CHAR_BIT]]. *)
Definition octet_ref (bitmap : Z) (doc_idx : nat) : Z := bitmap + Z.of_nat doc_idx / 8.

(** The bit of cell [doc_idx] in a bitmap. *)
Definition bit_at (m : column_memory) (bitmap : Z) (doc_idx : nat) : bool :=
  Z.testbit (octet_at m (octet_ref bitmap doc_idx)) (Z.of_nat doc_idx mod 8).

Inductive errc : Type := errc_ok | invalid_argument | result_out_of_range | value_too_large.

#[global] Instance errc_eq_dec : EqDecision errc.
Proof. solve_decision. Defined.

(** [std::from_chars_result] and [std::to_chars_result]; [ptr] counts from
    [begin]. *)
Record chars_result : Type := { ptr : Z; ec : errc }.

Definition digit_of (c : ascii) : option Z :=
  let n := Z.of_nat (nat_of_ascii c) in
  if bool_decide (48 ≤ n ≤ 57) then Some (n - 48) else None.

(** The longest run of decimal digits [s] starts with: its length and, on
    top of [acc], its value. *)
Fixpoint scan_digits (s : string) (acc : Z) : nat * Z :=
  match s with
  | EmptyString => (0%nat, acc)
  | String c rest =>
      match digit_of c with
      | Some d => let '(k, v) := scan_digits rest (acc * 10 + d) in (Datatypes.S k, v)
      | None => (0%nat, acc)
      end
  end.

(** [std::from_chars(begin, end, result)] of [<charconv>] in base ten for an
    integer type: an optional minus sign for a signed type, then digits; the
    value is stored only when it is representable. *)
Definition std_from_chars (t : scalar_at) (str : string) : chars_result * option Z :=
  let '(negative, digits) :=
    match str with
    | String "-"%char rest => if is_signed_integral t then (true, rest) else (false, str)
    | _ => (false, str)
    end in
  let '(k, magnitude) := scan_digits digits 0 in
  match k with
  | O => ({| ptr := 0; ec := invalid_argument |}, None)
  | Datatypes.S _ =>
      let value := if negative then - magnitude else magnitude in
      let consumed := Z.of_nat ((if negative then 1 else 0) + k) in
      if bool_decide (numeric_min t ≤ value ≤ numeric_max t)
      then ({| ptr := consumed; ec := errc_ok |}, Some value)
      else ({| ptr := consumed; ec := result_out_of_range |}, None)
  end.

(** The characters of a [std::string] a C function sees from [data()]: those
    before the first NUL. *)
Fixpoint c_str (s : string) : string :=
  match s with
  | EmptyString => EmptyString
  | String c rest => if decide (c = "000"%char) then EmptyString else String c (c_str rest)
  end.

Module Gather.
Section WithLibC.
Context `{LibC}.

(** The object representation of an integer value converted to [scalar_at]. *)
Definition cast_integer (t : scalar_at) (n : Z) : list byte_t :=
  match t with
  | t_bool => [if bool_decide (n = 0) then 0 else 1]
  | t_float => le_bytes 4 (float_of_integer n)
  | t_double => le_bytes 8 (double_of_integer n)
  | _ => le_bytes (sizeof t) n
  end.

(** The object representation of a [double] converted to [scalar_at]. *)
Definition cast_double (t : scalar_at) (bits : Z) : list byte_t :=
  match t with
  | t_bool => [if bool_of_double bits then 1 else 0]
  | t_float => le_bytes 4 (float_of_double bits)
  | t_double => le_bytes 8 bits
  | _ => le_bytes (sizeof t) (integer_of_double (is_signed_integral t) (sizeof t) bits)
  end.

(** [from_chars<at>(begin, end, result)]: the result and what it stores in
    [result], if anything. *)
Definition from_chars (t : scalar_at) (str : string) : chars_result * option (list byte_t) :=
  match t with
  | t_float =>
      let '(consumed, bits) := strtof (c_str str) in
      ({| ptr := Z.of_nat consumed;
          ec := if bool_decide (consumed = 0%nat) then invalid_argument else errc_ok |},
       Some (le_bytes 4 bits))
  | t_double =>
      let '(consumed, bits) := strtod (c_str str) in
      ({| ptr := Z.of_nat consumed;
          ec := if bool_decide (consumed = 0%nat) then invalid_argument else errc_ok |},
       Some (le_bytes 8 bits))
  | t_bool =>
      let is_true := bool_decide (String.length str = 4%nat) && bool_decide (str = "true") in
      let is_false := bool_decide (String.length str = 5%nat) && bool_decide (str = "false") in
      if is_true || is_false
      then ({| ptr := Z.of_nat (String.length str); ec := errc_ok |},
            Some [if is_true then 1 else 0])
      else ({| ptr := Z.of_nat (String.length str); ec := invalid_argument |}, None)
  | _ =>
      let '(result, value) := std_from_chars t str in
      (result, le_bytes (sizeof t) <$> value)
  end.

(** [export_scalar_column<scalar_at>(value, doc_idx, column)]: its writes in
    program order. *)
Definition export_scalar_column (t : scalar_at) (value : json_t) (doc_idx : nat)
    (column : column_begin_t) : list mem_op :=
  let mask_bitmap := mask_bitmap doc_idx in
  let ref_valid := octet_ref (validities column) doc_idx in
  let ref_convert := octet_ref (conversions column) doc_idx in
  let ref_collide := octet_ref (collisions column) doc_idx in
  match value with
  | JNull =>
      [op_and_not ref_convert mask_bitmap; op_and_not ref_collide mask_bitmap;
       op_and_not ref_valid mask_bitmap]
  | JDiscarded | JObject _ | JArray _ =>
      [op_and_not ref_convert mask_bitmap; op_or ref_collide mask_bitmap;
       op_and_not ref_valid mask_bitmap]
  | JBinary str =>
      if bool_decide (length str = sizeof t) then
        [op_or ref_convert mask_bitmap; op_and_not ref_collide mask_bitmap;
         op_or ref_valid mask_bitmap; op_scalar doc_idx str]
      else
        [op_and_not ref_convert mask_bitmap; op_or ref_collide mask_bitmap;
         op_and_not ref_valid mask_bitmap]
  | JString str =>
      let '(result, stored) := from_chars t str in
      let entire_string_is_number :=
        bool_decide (ec result = errc_ok)
        && bool_decide (ptr result = Z.of_nat (String.length str)) in
      match stored with Some repr => [op_scalar doc_idx repr] | None => [] end ++
      (if entire_string_is_number then
         [op_or ref_convert mask_bitmap; op_and_not ref_collide mask_bitmap;
          op_or ref_valid mask_bitmap]
       else
         [op_and_not ref_convert mask_bitmap; op_or ref_collide mask_bitmap;
          op_and_not ref_valid mask_bitmap])
  | JBoolean b =>
      [op_scalar doc_idx (cast_integer t (if b then 1 else 0));
       (if bool_decide (t = t_bool) then op_and_not ref_convert mask_bitmap
        else op_or ref_convert mask_bitmap);
       op_and_not ref_collide mask_bitmap; op_or ref_valid mask_bitmap]
  | JNumberInteger n =>
      [op_scalar doc_idx (cast_integer t n);
       (if is_signed_integral t then op_and_not ref_convert mask_bitmap
        else op_or ref_convert mask_bitmap);
       op_and_not ref_collide mask_bitmap; op_or ref_valid mask_bitmap]
  | JNumberUnsigned n =>
      [op_scalar doc_idx (cast_integer t n);
       (if is_unsigned t then op_and_not ref_convert mask_bitmap
        else op_or ref_convert mask_bitmap);
       op_and_not ref_collide mask_bitmap; op_or ref_valid mask_bitmap]
  | JNumberFloat bits =>
      [op_scalar doc_idx (cast_double t bits);
       (if is_floating_point t then op_and_not ref_convert mask_bitmap
        else op_or ref_convert mask_bitmap);
       op_and_not ref_collide mask_bitmap; op_or ref_valid mask_bitmap]
  end.

(** [constexpr std::size_t print_buf_len_k = 32] *)
Definition print_buf_len_k : Z := 32.

(** [to_chars(print_buf, print_buf + print_buf_len_k, scalar)] for an
    integer: [std::to_chars], with the characters it leaves in the buffer. *)
Definition to_chars_integer (scalar : Z) : chars_result * string :=
  let text := pretty scalar in
  if bool_decide (Z.of_nat (String.length text) ≤ print_buf_len_k)
  then ({| ptr := Z.of_nat (String.length text); ec := errc_ok |}, text)
  else ({| ptr := print_buf_len_k; ec := value_too_large |}, EmptyString).

(** [to_chars] for a [double]: [std::snprintf] with ["%f"], which reports
    the length of the whole text and never a negative one; the returned
    pointer is [begin + result - 1]. *)
Definition to_chars_double (bits : Z) : chars_result * string :=
  let text := snprintf_f bits in
  let result := Z.of_nat (String.length text) in
  ({| ptr := 0 + result - 1; ec := errc_ok |}, text).

(** [print_scalar(scalar, output)]: the bytes appended to [output], or
    nothing for [ukv_length_missing_k]. *)
Definition print_scalar (printed : chars_result * string) : option (list byte_t) :=
  let '(result, print_buf) := printed in
  let fits_null_terminated :=
    bool_decide (ec result = errc_ok) && bool_decide (ptr result + 1 < 0 + print_buf_len_k) in
  if fits_null_terminated
  then Some (take (Z.to_nat (ptr result)) (bytes_of_string print_buf) ++ [0])
  else None.

(** [export_string_column(value, doc_idx, column, output)]: its writes in
    program order; [output_size] is [output.size()] on entry.  The offset
    and the lengths of a string, of a binary and of a printed number are
    sizes cast to [ukv_length_t]. *)
Definition export_string_column (value : json_t) (doc_idx : nat)
    (column : column_begin_t) (output_size : nat) : list mem_op :=
  let mask_bitmap := mask_bitmap doc_idx in
  let ref_valid := octet_ref (validities column) doc_idx in
  let ref_convert := octet_ref (conversions column) doc_idx in
  let ref_collide := octet_ref (collisions column) doc_idx in
  let numeric printed :=
    match print_scalar printed with
    | Some view =>
        [op_output view; op_len doc_idx (as_ukv_length (length view));
         op_or ref_convert mask_bitmap; op_and_not ref_collide mask_bitmap;
         op_or ref_valid mask_bitmap]
    | None =>
        [op_len doc_idx ukv_length_missing_k;
         op_or ref_convert mask_bitmap; op_or ref_collide mask_bitmap;
         op_and_not ref_valid mask_bitmap]
    end in
  op_off doc_idx (as_ukv_length output_size) ::
  match value with
  | JNull =>
      [op_and_not ref_convert mask_bitmap; op_and_not ref_collide mask_bitmap;
       op_and_not ref_valid mask_bitmap;
       op_len doc_idx ukv_length_missing_k; op_off doc_idx ukv_length_missing_k]
  | JDiscarded | JObject _ | JArray _ =>
      [op_and_not ref_convert mask_bitmap; op_or ref_collide mask_bitmap;
       op_and_not ref_valid mask_bitmap;
       op_len doc_idx ukv_length_missing_k; op_off doc_idx ukv_length_missing_k]
  | JBinary str =>
      [op_len doc_idx (as_ukv_length (length str)); op_output str;
       op_and_not ref_convert mask_bitmap; op_and_not ref_collide mask_bitmap;
       op_or ref_valid mask_bitmap]
  | JString str =>
      [op_len doc_idx (as_ukv_length (String.length str));
       op_output (bytes_of_string str ++ [0]);
       op_and_not ref_convert mask_bitmap; op_and_not ref_collide mask_bitmap;
       op_or ref_valid mask_bitmap]
  | JBoolean b =>
      (if b
       then [op_len doc_idx 5; op_output (bytes_of_string "true" ++ [0])]
       else [op_len doc_idx 6; op_output (bytes_of_string "false" ++ [0])]) ++
      [op_or ref_convert mask_bitmap; op_and_not ref_collide mask_bitmap;
       op_or ref_valid mask_bitmap]
  | JNumberInteger n => numeric (to_chars_integer n)
  | JNumberUnsigned n => numeric (to_chars_integer n)
  | JNumberFloat bits => numeric (to_chars_double bits)
  end.

(** The [switch (type)] of [ukv_docs_gather] for one cell. *)
Definition export_cell (type : ukv_doc_field_type_t) (found_value : json_t)
    (doc_idx : nat) (column : column_begin_t) (string_tape_size : nat) : list mem_op :=
  match type with
  | ukv_doc_field_bool_k => export_scalar_column t_bool found_value doc_idx column
  | ukv_doc_field_i8_k => export_scalar_column t_int8 found_value doc_idx column
  | ukv_doc_field_i16_k => export_scalar_column t_int16 found_value doc_idx column
  | ukv_doc_field_i32_k => export_scalar_column t_int32 found_value doc_idx column
  | ukv_doc_field_i64_k => export_scalar_column t_int64 found_value doc_idx column
  | ukv_doc_field_u8_k => export_scalar_column t_uint8 found_value doc_idx column
  | ukv_doc_field_u16_k => export_scalar_column t_uint16 found_value doc_idx column
  | ukv_doc_field_u32_k => export_scalar_column t_uint32 found_value doc_idx column
  | ukv_doc_field_u64_k => export_scalar_column t_uint64 found_value doc_idx column
  | ukv_doc_field_f32_k => export_scalar_column t_float found_value doc_idx column
  | ukv_doc_field_f64_k => export_scalar_column t_double found_value doc_idx column
  | ukv_doc_field_str_k => export_string_column found_value doc_idx column string_tape_size
  | ukv_doc_field_bin_k => export_string_column found_value doc_idx column string_tape_size
  | _ => []
  end.

(** ** What a cell is expected to hold *)

(** The addresses the bit updates of a cell export write, in order. *)
Definition bitmap_writes (ops : list mem_op) : list Z :=
  omap (λ op, match op with
              | op_and_not ref _ | op_or ref _ => Some ref
              | _ => None
              end) ops.

(** The scalar a source value coerces to, in the object representation of
    the target: nothing for null and for a container, the bytes of a
    binary of the target's width, the number a string spells in full, the
    cast of a boolean or a number. *)
Definition coerced_scalar (t : scalar_at) (value : json_t) : option (list byte_t) :=
  match value with
  | JNull | JDiscarded | JObject _ | JArray _ => None
  | JBinary str => if bool_decide (length str = sizeof t) then Some str else None
  | JString str =>
      let '(result, stored) := from_chars t str in
      if bool_decide (ec result = errc_ok)
         && bool_decide (ptr result = Z.of_nat (String.length str))
      then stored else None
  | JBoolean b => Some (cast_integer t (if b then 1 else 0))
  | JNumberInteger n | JNumberUnsigned n => Some (cast_integer t n)
  | JNumberFloat bits => Some (cast_double t bits)
  end.

(** The bytes a source other than a float coerces to for a string column:
    those of a binary or a string, and the NUL-terminated text of a boolean
    or an integer that fits the print buffer. *)
Definition coerced_string (value : json_t) : option (list byte_t) :=
  match value with
  | JBinary str => Some str
  | JString str => Some (bytes_of_string str)
  | JBoolean b => Some (bytes_of_string (if b then "true" else "false") ++ [0])
  | JNumberInteger n | JNumberUnsigned n =>
      if bool_decide (Z.of_nat (String.length (pretty n)) + 1 < print_buf_len_k)
      then Some (bytes_of_string (pretty n) ++ [0]) else None
  | _ => None
  end.

(** The bytes of the joined tape a string cell points at. *)
Definition string_cell (m : column_memory) (doc_idx : nat) : option (list byte_t) :=
  off ← str_offsets m !! doc_idx;
  len ← str_lengths m !! doc_idx;
  Some (take (Z.to_nat len) (drop (Z.to_nat off) (output m))).

(** Every character is a decimal digit. *)
Definition all_digits (s : string) : Prop :=
  Forall (λ c, is_Some (digit_of c)) (list_ascii_of_string s).

(** The number a string of decimal digits spells. *)
Definition digits_value (s : string) : Z :=
  foldl (λ acc c, acc * 10 + default 0 (digit_of c)) 0 (list_ascii_of_string s).

(** The whole of [str] spells a value of the target: one of the two
    literals for [bool]; digits, after a minus sign for a signed target
    only, of a number in range for an integer; a text [strtof] or
    [strtod] consumes to its end for a floating-point target. *)
Definition lexically_parses (t : scalar_at) (str : string) : Prop :=
  match t with
  | t_bool => str = "true"%string ∨ str = "false"%string
  | t_float => (strtof (c_str str)).1 ≠ 0%nat ∧ (strtof (c_str str)).1 = String.length str
  | t_double => (strtod (c_str str)).1 ≠ 0%nat ∧ (strtod (c_str str)).1 = String.length str
  | _ =>
      ∃ (negative : bool) (digits : string),
        str = (if negative then String "-" digits else digits) ∧
        (negative = true → is_signed_integral t = true) ∧
        digits ≠ EmptyString ∧ all_digits digits ∧
        numeric_min t ≤ (if negative then - digits_value digits else digits_value digits)
          ≤ numeric_max t
  end.
End WithLibC.
End Gather.

(** * src/deprecated/modality_nlohmann_docs.cpp *)
Module Deprecated.
Section WithLibraries.
Context `{Nlohmann} `{KvEngine}.

(** [safe_section(name, c_error, ...)] around one library call: an
    exception becomes an error, the result stays default-constructed. *)
Definition safe_section {A} (name : string) (fallback : A) (call : option A) : M A :=
  match call with
  | Some a => ret a
  | None => let* _ := log_error (error_exception name) in ret fallback
  end.

(** [lookup_field(json, field, default_json)]: where the returned
    reference points; [None] when [json_ptr_t {field}] throws. *)
Definition lookup_field (json : json_t) (field : ukv_str_view_t) : option json_ref :=
  match field with
  | None => Some ref_json
  | Some f =>
      if decide (first_char f = "/"%char) then
        if json_pointer_ok f
        then Some (if contains json f then ref_at f else ref_default)
        else None
      else
        Some (match find json f with Some _ => ref_member f | None => ref_default end)
  end.

(** Reading and writing through a reference into [json] or [default_json]. *)
Definition deref (json default_json : json_t) (r : json_ref) : json_t :=
  match r with
  | ref_json => json
  | ref_at f => at_pointer json f
  | ref_member name => default JNull (find json name)
  | ref_default => default_json
  end.

Definition assign (json default_json : json_t) (r : json_ref) (v : json_t)
    : json_t * json_t :=
  match r with
  | ref_json => (v, default_json)
  | ref_at f => (at_pointer_assign json f v, default_json)
  | ref_member name => (find_assign json name v, default_json)
  | ref_default => (json, v)
  end.

Definition parse_any (bytes : value_view_t) (c_format : ukv_format_t) : M json_t :=
  let* _ := emit (ev_parse_any bytes c_format) in
  let section := safe_section "Parsing document" JNull in
  match c_format with
  | ukv_format_json_patch_k
  | ukv_format_json_merge_patch_k
  | ukv_field_json_k => section (parse bytes false true)
  | ukv_format_msgpack_k => section (from_msgpack bytes false false)
  | ukv_format_bson_k => section (from_bson bytes false false)
  | ukv_format_cbor_k => section (from_cbor bytes false false)
  | ukv_format_ubjson_k => section (from_ubjson bytes false false)
  | ukv_format_field_default_k => ret (JBinary bytes)
  | ukv_format_other _ =>
      let* _ := log_error (error_msg "Unsupported document format") in ret JNull
  end.

(** What [dump_any] hands to the exporter; an error is stored when the
    format has no writer, the writer throws, or a container is asked for in
    raw binary form. *)
Definition dump_any (json : json_t) (c_format : ukv_format_t) : M value_view_t :=
  let* _ := emit (ev_dump_any json c_format) in
  let section := safe_section "Dumping document" [] in
  match c_format with
  | ukv_format_json_patch_k
  | ukv_format_json_merge_patch_k
  | ukv_field_json_k => section (dump json)
  | ukv_format_msgpack_k => section (write_msgpack json)
  | ukv_format_bson_k => section (write_bson json)
  | ukv_format_cbor_k => section (write_cbor json)
  | ukv_format_ubjson_k => section (write_ubjson json true true)
  | ukv_format_field_default_k =>
      match json with
      | JNull => ret []
      | JDiscarded => ret []
      | JObject _ =>
          let* _ := log_error (error_msg "Can't export a nested dictionary in binary form!") in
          ret []
      | JArray _ =>
          let* _ := log_error (error_msg "Can't export a nested dictionary in binary form!") in
          ret []
      | JBinary str => ret str
      | JString str => ret (bytes_of_string str)
      | JBoolean b => ret [if b then 1 else 0]
      | JNumberInteger n => ret (le_bytes 8 n)
      | JNumberUnsigned n => ret (le_bytes 8 n)
      | JNumberFloat bits => ret (le_bytes 8 bits)
      end
  | ukv_format_other _ =>
      let* _ := log_error (error_msg "Unsupported output format") in ret []
  end.

(** [serializing_tape_ref_t::push_back] on the entries of [growing_tape]. *)
Definition push_back (growing_tape : list value_view_t) (doc : json_t)
    (c_format : ukv_format_t) : M (list value_view_t) :=
  let* single_doc_buffer := dump_any doc c_format in
  return_if_error_m growing_tape (
    let single_doc_buffer :=
      if bool_decide (c_format = ukv_field_json_k)
         || bool_decide (c_format = ukv_format_json_patch_k)
         || bool_decide (c_format = ukv_format_json_merge_patch_k)
      then single_doc_buffer ++ [0]
      else single_doc_buffer in
    ret (growing_tape ++ [single_doc_buffer])).

(** [places.fields_begin ? places.fields_begin[task_idx] : nullptr]; an
    index past the caller's array is not defined. *)
Definition field_at (fields : strided_iterator_gt ukv_str_view_t) (task_idx : nat)
    : M ukv_str_view_t :=
  checked (field_view fields task_idx).

Section Callbacks.
(** What a callback captures by reference, and the callback itself: it
    may change the parsed document it is handed. *)
Context {S : Type}.
Definition callback_at : Type := nat → ukv_str_view_t → json_t → S → M (json_t * S).
Context (callback : callback_at).

(** The loop of [read_unique_docs] from [task_idx] on. *)
Fixpoint read_unique_docs_loop (fields : strided_iterator_gt ukv_str_view_t)
    (task_idx : nat) (found_binaries : list value_view_t) (s : S) : M S :=
  match found_binaries with
  | [] => ret s
  | binary_doc :: rest =>
      let* parsed := parse_any binary_doc internal_format_k in
      return_if_error_m s (
        let* field := field_at fields task_idx in
        let* _ := emit (ev_callback task_idx field) in
        let* '(_, s') := callback task_idx field parsed s in
        read_unique_docs_loop fields (task_idx + 1)%nat rest s')
  end.

Definition read_unique_docs (c_db : ukv_database_t) (c_txn : ukv_transaction_t)
    (places : places_arg_t) (c_options : ukv_options_t) (s : S)
    : M (places_arg_t * S) :=
  let* found := ukv_read {| read_db := c_db; read_transaction := c_txn;
                            read_options := c_options;
                            read_tasks := keys_begin places |} in
  match found, keys_begin places with
  | _, [] => ret (places, s)
  | None, _ :: _ => raise undefined_behaviour
  | Some found_binaries, _ :: _ =>
      let* s' := read_unique_docs_loop (fields_begin places) 0%nat found_binaries s in
      ret (places, s')
  end.

(** "Parse all the unique documents"; [None] when the loop leaves the
    function. *)
Fixpoint parse_unique_docs (doc_idx : nat) (found_binaries : list value_view_t)
    (parsed_docs : list json_t) : M (option (list json_t)) :=
  match found_binaries with
  | [] => ret (Some parsed_docs)
  | binary_doc :: rest =>
      let* parsed := parse_any binary_doc internal_format_k in
      let parsed_docs := <[doc_idx := parsed]> parsed_docs in
      return_if_error_m None (parse_unique_docs (doc_idx + 1)%nat rest parsed_docs)
  end.

(** "Join docs and fields with binary search" from [task_idx] on. *)
Fixpoint join_docs_and_fields (unique_places : list collection_key_t)
    (fields : strided_iterator_gt ukv_str_view_t) (task_idx : nat)
    (places : list collection_key_t) (parsed_docs : list json_t) (s : S) : M S :=
  match places with
  | [] => ret s
  | place :: rest =>
      let* field := field_at fields task_idx in
      let parsed_idx := offset_in_sorted unique_places place in
      let* parsed := checked (parsed_docs !! parsed_idx) in
      let* _ := emit (ev_callback task_idx field) in
      let* '(parsed', s') := callback task_idx field parsed s in
      join_docs_and_fields unique_places fields (task_idx + 1)%nat rest
        (<[parsed_idx := parsed']> parsed_docs) s'
  end.

Definition read_docs (c_db : ukv_database_t) (c_txn : ukv_transaction_t)
    (places : places_arg_t) (c_options : ukv_options_t) (s : S)
    : M (places_arg_t * S) :=
  let empty := {| keys_begin := []; fields_begin := strided_null |} in
  if all_ascending (snd <$> keys_begin places)
  then read_unique_docs c_db c_txn places c_options s
  else
    return_if_error_m (empty, s) (
      let unique_places := sort_and_deduplicate (keys_begin places) in
      if bool_decide (length unique_places = count places)
      then read_unique_docs c_db c_txn places c_options s
      else
        let* found := ukv_read {| read_db := c_db; read_transaction := c_txn;
                                  read_options := c_options;
                                  read_tasks := unique_places |} in
        return_if_error_m (empty, s) (
          let* found_binaries := checked found in
          let* parsed_docs :=
            parse_unique_docs 0%nat found_binaries (replicate (count places) JNull) in
          match parsed_docs with
          | None => ret (places, s)
          | Some parsed_docs =>
              let* s' := join_docs_and_fields unique_places (fields_begin places)
                           0%nat (keys_begin places) parsed_docs s in
              ret ({| keys_begin := unique_places; fields_begin := strided_null |}, s')
          end)).
End Callbacks.

(** The loop of [replace_docs] from [doc_idx] on, over the tasks still to
    come; [None] when the loop leaves the function. *)
Fixpoint replace_docs_loop (contents : contents_arg_t) (c_format : ukv_format_t)
    (doc_idx : nat) (places : list collection_key_t) (growing_tape : list value_view_t)
    : M (option (list value_view_t)) :=
  match places with
  | [] => ret (Some growing_tape)
  | _ :: rest =>
      let* content := checked (contents !! doc_idx) in
      let* parsed := parse_any (content_view content) c_format in
      return_if_error_m None (
        if is_discarded parsed
        then let* _ := log_error (error_msg "Couldn't parse inputs") in ret None
        else
          let* growing_tape := push_back growing_tape parsed internal_format_k in
          return_if_error_m None
            (replace_docs_loop contents c_format (doc_idx + 1)%nat rest growing_tape))
  end.

Definition replace_docs (c_db : ukv_database_t) (c_txn : ukv_transaction_t)
    (places : places_arg_t) (contents : contents_arg_t) (c_options : ukv_options_t)
    (c_format : ukv_format_t) : M unit :=
  return_if_error_m tt (
    let* growing_tape := replace_docs_loop contents c_format 0%nat (keys_begin places) [] in
    match growing_tape with
    | None => ret tt
    | Some growing_tape =>
        ukv_write {| write_db := c_db; write_transaction := c_txn;
                     write_options := c_options;
                     write_tasks := keys_begin places;
                     write_contents := Some <$> growing_tape |}
    end).

(** The two objects the callback of [read_modify_write] takes addresses of. *)
Inductive object_t : Type := the_parsed | the_null_object.

#[global] Instance object_eq_dec : EqDecision object_t.
Proof. solve_decision. Defined.

(** The lambda [safe_callback] of [read_modify_write]; its state is the
    serializing tape. *)
Definition read_modify_write_callback (contents : contents_arg_t) (c_format : ukv_format_t)
    : callback_at (S := list value_view_t) :=
  λ task_idx field parsed growing_tape,
    let* content := checked (contents !! task_idx) in
    let* parsed_task := parse_any (content_view content) c_format in
    return_if_error_m (parsed, growing_tape) (
      let null_object := JNull in
      let* parsed_part := unguarded (lookup_field parsed field) in
      let* '(parsed, null_object) :=
        if bool_decide (the_parsed ≠ the_null_object) then
          match c_format with
          | ukv_format_json_patch_k =>
              let* patched := unguarded (patch (deref parsed null_object parsed_part) parsed_task) in
              ret (assign parsed null_object parsed_part patched)
          | ukv_format_json_merge_patch_k =>
              let* merged := unguarded (merge_patch (deref parsed null_object parsed_part) parsed_task) in
              ret (assign parsed null_object parsed_part merged)
          | _ => ret (assign parsed null_object parsed_part parsed_task)
          end
        else if bool_decide (c_format ≠ ukv_format_json_patch_k)
                && bool_decide (c_format ≠ ukv_format_json_merge_patch_k) then
          let* heapy_field := checked field in
          let* flat := unguarded (flatten parsed) in
          let* flat := unguarded (emplace flat heapy_field parsed_task) in
          let* parsed := unguarded (unflatten flat) in
          ret (parsed, null_object)
        else ret (parsed, null_object) in
      let* growing_tape :=
        push_back growing_tape (deref parsed null_object parsed_part) internal_format_k in
      ret (parsed, growing_tape)).

Definition read_modify_write (c_db : ukv_database_t) (c_txn : ukv_transaction_t)
    (places : places_arg_t) (contents : contents_arg_t) (c_options : ukv_options_t)
    (c_format : ukv_format_t) : M unit :=
  let* '(read_order, growing_tape) :=
    read_docs (read_modify_write_callback contents c_format) c_db c_txn places c_options [] in
  ukv_write {| write_db := c_db; write_transaction := c_txn;
               write_options := c_options;
               write_tasks := keys_begin read_order;
               write_contents := Some <$> growing_tape |}.

Definition ukv_docs_write (c : ukv_docs_write_t) : M unit :=
  return_if_error_m tt (
    let fields := dw_fields c in
    let has_fields := has_fields fields in
    if negb has_fields && bool_decide (dw_format c = internal_format_k) then
      ukv_write {| write_db := dw_db c; write_transaction := dw_transaction c;
                   write_options := dw_options c;
                   write_tasks := dw_tasks c;
                   write_contents := dw_contents c |}
    else
      match dw_db c with
      | None => log_error (error_msg "DataBase is uninitialized")
      | Some _ =>
          let places := {| keys_begin := dw_tasks c; fields_begin := fields |} in
          let contents := dw_contents c in
          let func :=
            if has_fields
               || bool_decide (dw_format c = ukv_format_json_patch_k)
               || bool_decide (dw_format c = ukv_format_json_merge_patch_k)
            then read_modify_write
            else replace_docs in
          func (dw_db c) (dw_transaction c) places contents (dw_options c) (dw_format c)
      end).

(** The lambda [safe_callback] of [ukv_docs_read]. *)
Definition docs_read_callback (c_format : ukv_format_t)
    : callback_at (S := list value_view_t) :=
  λ _ field parsed growing_tape,
    let null_object := JNull in
    let* parsed_part := unguarded (lookup_field parsed field) in
    let* growing_tape := push_back growing_tape (deref parsed null_object parsed_part) c_format in
    ret (parsed, growing_tape).

(** The entries the caller finds behind [c.values], [c.offsets] and
    [c.lengths]; [None] when the call leaves them untouched. *)
Definition ukv_docs_read (c : ukv_docs_read_t) : M (option (list value_view_t)) :=
  return_if_error_m None (
    let fields := dr_fields c in
    let has_fields := has_fields fields in
    if negb has_fields && bool_decide (dr_format c = internal_format_k) then
      ukv_read {| read_db := dr_db c; read_transaction := dr_transaction c;
                  read_options := dr_options c;
                  read_tasks := dr_tasks c |}
    else
      match dr_db c with
      | None => let* _ := log_error (error_msg "DataBase is uninitialized") in ret None
      | Some _ =>
          let places := {| keys_begin := dr_tasks c; fields_begin := fields |} in
          return_if_error_m None (
            let* '(_, growing_tape) :=
              read_docs (docs_read_callback (dr_format c))
                (dr_db c) (dr_transaction c) places (dr_options c) [] in
            ret (Some growing_tape))
      end).

(** ** What a call that stores no error has computed *)

(** The document [parse_any] returns when it stores no error. *)
Definition parse_result (bytes : value_view_t) (c_format : ukv_format_t) : option json_t :=
  match c_format with
  | ukv_format_json_patch_k
  | ukv_format_json_merge_patch_k
  | ukv_field_json_k => parse bytes false true
  | ukv_format_msgpack_k => from_msgpack bytes false false
  | ukv_format_bson_k => from_bson bytes false false
  | ukv_format_cbor_k => from_cbor bytes false false
  | ukv_format_ubjson_k => from_ubjson bytes false false
  | ukv_format_field_default_k => Some (JBinary bytes)
  | ukv_format_other _ => None
  end.

(** The bytes [dump_any] exports when it stores no error. *)
Definition dump_result (json : json_t) (c_format : ukv_format_t) : option value_view_t :=
  match c_format with
  | ukv_format_json_patch_k
  | ukv_format_json_merge_patch_k
  | ukv_field_json_k => dump json
  | ukv_format_msgpack_k => write_msgpack json
  | ukv_format_bson_k => write_bson json
  | ukv_format_cbor_k => write_cbor json
  | ukv_format_ubjson_k => write_ubjson json true true
  | ukv_format_field_default_k =>
      match json with
      | JNull | JDiscarded => Some []
      | JObject _ | JArray _ => None
      | JBinary str => Some str
      | JString str => Some (bytes_of_string str)
      | JBoolean b => Some [if b then 1 else 0]
      | JNumberInteger n | JNumberUnsigned n | JNumberFloat n => Some (le_bytes 8 n)
      end
  | ukv_format_other _ => None
  end.

(** The tape entry of a document: its dump, NUL-terminated for the textual
    formats. *)
Definition serialized (json : json_t) (c_format : ukv_format_t) : option value_view_t :=
  bytes ← dump_result json c_format;
  Some (if bool_decide (c_format = ukv_field_json_k)
           || bool_decide (c_format = ukv_format_json_patch_k)
           || bool_decide (c_format = ukv_format_json_merge_patch_k)
        then bytes ++ [0] else bytes).

(** The part of a document a field selector addresses; [null] for a part
    that is not there. *)
Definition selected (json : json_t) (field : ukv_str_view_t) : option json_t :=
  deref json JNull <$> lookup_field json field.

(** The tape entry that answers the request for [field] of the document
    stored as [binary_doc]. *)
Definition expected_entry (c_format : ukv_format_t) (binary_doc : value_view_t)
    (field : ukv_str_view_t) : option value_view_t :=
  parsed ← parse_result binary_doc internal_format_k;
  part ← selected parsed field;
  serialized part c_format.
End WithLibraries.
End Deprecated.

(** * src/logic_docs.cpp *)
Module LogicDocs.
Section WithLibraries.
Context `{Nlohmann} `{KvEngine}.

Definition parse_any (bytes : value_view_t) (c_format : ukv_format_t) : M json_t :=
  let* _ := emit (ev_parse_any bytes c_format) in
  match c_format with
  | ukv_format_json_k
  | ukv_format_json_patch_k => unguarded (parse bytes true false)
  | ukv_format_msgpack_k => unguarded (from_msgpack bytes true false)
  | ukv_format_bson_k => unguarded (from_bson bytes true false)
  | ukv_format_cbor_k => unguarded (from_cbor bytes true false)
  | ukv_format_ubjson_k => unguarded (from_ubjson bytes true false)
  | ukv_format_binary_k => ret (JBinary bytes)
  | _ => let* _ := log_error (error_msg "Unsupported unput format") in ret JNull
  end.

(** What [dump_any] appends to the buffer behind the exporter. *)
Definition dump_any (json : json_t) (c_format : ukv_format_t) : M value_view_t :=
  let* _ := emit (ev_dump_any json c_format) in
  match c_format with
  | ukv_format_json_k => unguarded (dump json)
  | ukv_format_msgpack_k => unguarded (write_msgpack json)
  | ukv_format_bson_k => unguarded (write_bson json)
  | ukv_format_cbor_k => unguarded (write_cbor json)
  | ukv_format_ubjson_k => unguarded (write_ubjson json true true)
  | _ => let* _ := log_error (error_msg "Unsupported unput format") in ret []
  end.

(** The loop of [update_docs] from task [i] on; [updated_vals] holds the
    entries of [arena.updated_vals] filled so far, which
    [prepare_memory] hands out empty.  [None] when the loop leaves the
    function. *)
Fixpoint update_docs_loop (contents : contents_arg_t) (c_format : ukv_format_t)
    (i : nat) (tasks : list collection_key_t) (updated_vals : list (option value_view_t))
    : M (option (list (option value_view_t))) :=
  match tasks with
  | [] => ret (Some updated_vals)
  | _ :: rest =>
      let* task := checked (contents !! i) in
      match task with
      | None => update_docs_loop contents c_format (i + 1)%nat rest (updated_vals ++ [None])
      | Some view =>
          let* parsed := parse_any view c_format in
          return_if_error_m None (
            if is_discarded parsed
            then let* _ := log_error (error_msg "Couldn't parse inputs") in ret None
            else
              let* serialized := dump_any parsed ukv_format_msgpack_k in
              return_if_error_m None
                (update_docs_loop contents c_format (i + 1)%nat rest
                   (updated_vals ++ [Some serialized])))
      end
  end.

Definition update_docs (c_db : ukv_database_t) (c_txn : ukv_transaction_t)
    (tasks : list collection_key_t) (contents : contents_arg_t)
    (fields : strided_iterator_gt ukv_str_view_t) (n : nat)
    (c_options : ukv_options_t) (c_format : ukv_format_t) : M unit :=
  return_if_error_m tt (
    let* updated_vals := update_docs_loop contents c_format 0%nat (take n tasks) [] in
    match updated_vals with
    | None => ret tt
    | Some updated_vals =>
        let* _ := checked (head updated_vals) in
        ukv_write {| write_db := c_db; write_transaction := c_txn;
                     write_options := c_options;
                     write_tasks := take n tasks;
                     write_contents := updated_vals |}
    end).

Definition update_fields (c_db : ukv_database_t) (c_txn : ukv_transaction_t)
    (tasks : list collection_key_t) (contents : contents_arg_t)
    (fields : strided_iterator_gt ukv_str_view_t) (n : nat)
    (c_options : ukv_options_t) (c_format : ukv_format_t) : M unit :=
  let parsed := replicate n JNull in
  let* first := checked (parsed !! 0%nat) in
  if is_discarded first
  then log_error (error_msg "Couldn't parse inputs")
  else ret tt.

(** [fields] as a condition: the pointer is not null. *)
Definition non_null {A} (it : strided_iterator_gt A) : bool :=
  match it with
  | strided_null => false
  | _ => true
  end.

Definition ukv_docs_write (c : ukv_docs_write_t) : M unit :=
  if negb (non_null (dw_fields c)) && bool_decide (dw_format c = internal_format_k) then
    ukv_write {| write_db := dw_db c; write_transaction := dw_transaction c;
                 write_options := dw_options c;
                 write_tasks := dw_tasks c;
                 write_contents := dw_contents c |}
  else
    match dw_db c with
    | None => log_error (error_msg "DataBase is NULL!")
    | Some _ =>
        return_if_error_m tt (
          let func := if non_null (dw_fields c) then update_fields else update_docs in
          func (dw_db c) (dw_transaction c) (dw_tasks c) (dw_contents c) (dw_fields c)
            (length (dw_tasks c)) (dw_options c) (dw_format c))
    end.

(** [fields && fields[i]]: the selector of task [i], if there is one. *)
Definition field_of (fields : strided_iterator_gt ukv_str_view_t) (i : nat)
    : M ukv_str_view_t :=
  checked (field_view fields i).

(** The first loop of [ukv_docs_read]: parse what the engine found. *)
Fixpoint parse_found (c_format : ukv_format_t) (i : nat) (found : list value_view_t)
    (parsed_values : list json_t) : M (option (list json_t)) :=
  match found with
  | [] => ret (Some parsed_values)
  | found_value :: rest =>
      let* parsed := parse_any found_value c_format in
      let parsed_values := <[i := parsed]> parsed_values in
      return_if_error_m None (parse_found c_format (i + 1)%nat rest parsed_values)
  end.

(** The second loop of [ukv_docs_read]: export every task. *)
Fixpoint export_tasks (updated_keys : list collection_key_t)
    (fields : strided_iterator_gt ukv_str_view_t) (c_format : ukv_format_t)
    (parsed_values : list json_t) (i : nat) (tasks : list collection_key_t)
    (growing_tape : list value_view_t) : M (option (list value_view_t)) :=
  match tasks with
  | [] => ret (Some growing_tape)
  | task :: rest =>
      let parsed_idx := offset_in_sorted updated_keys task in
      let* parsed := checked (parsed_values !! parsed_idx) in
      let null_object := JNull in
      let* field := field_of fields i in
      let* temporary_buffer :=
        match field with
        | Some f =>
            if decide (first_char f = "/"%char) then
              if json_pointer_ok f
              then if contains parsed f
                   then dump_any (at_pointer parsed f) c_format
                   else dump_any null_object c_format
              else raise uncaught_exception
            else
              match find parsed f with
              | Some member => dump_any member c_format
              | None => dump_any null_object c_format
              end
        | None => dump_any parsed c_format
        end in
      return_if_error_m None (
        let temporary_buffer :=
          if bool_decide (c_format = ukv_format_json_k)
          then temporary_buffer ++ [0]
          else temporary_buffer in
        export_tasks updated_keys fields c_format parsed_values (i + 1)%nat rest
          (growing_tape ++ [temporary_buffer]))
  end.

(** The entries behind [c_found_lengths] and [c_found_values]; [None]
    when the call leaves them untouched. *)
Definition ukv_docs_read (c : ukv_docs_read_t) : M (option (list value_view_t)) :=
  if negb (non_null (dr_fields c)) && bool_decide (dr_format c = internal_format_k) then
    ukv_read {| read_db := dr_db c; read_transaction := dr_transaction c;
                read_options := dr_options c;
                read_tasks := dr_tasks c |}
  else
    match dr_db c with
    | None => let* _ := log_error (error_msg "DataBase is NULL!") in ret None
    | Some _ =>
        return_if_error_m None (
          let n := length (dr_tasks c) in
          let updated_keys := sort_and_deduplicate (dr_tasks c) in
          let* found := ukv_read {| read_db := dr_db c; read_transaction := dr_transaction c;
                                    read_options := dr_options c;
                                    read_tasks := updated_keys |} in
          return_if_error_m None (
            let* found := checked found in
            let* parsed_values := parse_found (dr_format c) 0%nat found (replicate n JNull) in
            match parsed_values with
            | None => ret None
            | Some parsed_values =>
                export_tasks updated_keys (dr_fields c) (dr_format c) parsed_values
                  0%nat (dr_tasks c) []
            end))
    end.
(** ** What a call that stores no error has computed *)

(** The document [parse_any] returns. *)
Definition parse_result (bytes : value_view_t) (c_format : ukv_format_t) : option json_t :=
  match c_format with
  | ukv_format_json_k
  | ukv_format_json_patch_k => parse bytes true false
  | ukv_format_msgpack_k => from_msgpack bytes true false
  | ukv_format_bson_k => from_bson bytes true false
  | ukv_format_cbor_k => from_cbor bytes true false
  | ukv_format_ubjson_k => from_ubjson bytes true false
  | ukv_format_binary_k => Some (JBinary bytes)
  | _ => None
  end.

(** The bytes [dump_any] appends. *)
Definition dump_result (json : json_t) (c_format : ukv_format_t) : option value_view_t :=
  match c_format with
  | ukv_format_json_k => dump json
  | ukv_format_msgpack_k => write_msgpack json
  | ukv_format_bson_k => write_bson json
  | ukv_format_cbor_k => write_cbor json
  | ukv_format_ubjson_k => write_ubjson json true true
  | _ => None
  end.

(** The part of [parsed] the export loop of [ukv_docs_read] dumps for a
    selector. *)
Definition selected (parsed : json_t) (field : ukv_str_view_t) : option json_t :=
  match field with
  | Some f =>
      if decide (first_char f = "/"%char) then
        if json_pointer_ok f
        then Some (if contains parsed f then at_pointer parsed f else JNull)
        else None
      else Some (default JNull (find parsed f))
  | None => Some parsed
  end.

(** The tape entry of the export loop for [parsed] and a selector. *)
Definition exported (c_format : ukv_format_t) (parsed : json_t) (field : ukv_str_view_t)
    : option value_view_t :=
  part ← selected parsed field;
  bytes ← dump_result part c_format;
  Some (if bool_decide (c_format = ukv_format_json_k) then bytes ++ [0] else bytes).

(** The tape entry that answers the request for [field] of the document
    stored as [blob]: the blob is read in the caller's format. *)
Definition expected_entry (c_format : ukv_format_t) (blob : value_view_t)
    (field : ukv_str_view_t) : option value_view_t :=
  parsed ← parse_result blob c_format;
  exported c_format parsed field.
End WithLibraries.
End LogicDocs.

(** * What a call leaves behind *)

Section Observations.
Context `{Nlohmann} `{KvEngine}.

(** The projections of a trace on one kind of event. *)
Definition callbacks_of (tr : list event) : list (nat * ukv_str_view_t) :=
  omap (λ ev, match ev with ev_callback i f => Some (i, f) | _ => None end) tr.

Definition reads_of (tr : list event) : list ukv_read_t :=
  omap (λ ev, match ev with ev_ukv_read r => Some r | _ => None end) tr.

Definition writes_of (tr : list event) : list ukv_write_t :=
  omap (λ ev, match ev with ev_ukv_write wr => Some wr | _ => None end) tr.

Definition parses_of (tr : list event) : list (value_view_t * ukv_format_t) :=
  omap (λ ev, match ev with ev_parse_any b f => Some (b, f) | _ => None end) tr.

Definition dumps_of (tr : list event) : list (json_t * ukv_format_t) :=
  omap (λ ev, match ev with ev_dump_any j f => Some (j, f) | _ => None end) tr.

(** What the read planner under [docs_read_callback] has done when it
    returns without error: one read of [requested], one parse per
    requested document, one callback and one tape entry per task. *)
Definition planner_outcome (c_format : ukv_format_t) (c_db : ukv_database_t)
    (c_txn : ukv_transaction_t) (places : places_arg_t) (c_options : ukv_options_t)
    (requested : list collection_key_t) (tape : list value_view_t) (w : world)
    (read_order : places_arg_t) (tape' : list value_view_t) (w' : world) : Prop :=
  c_error w = None ∧ store w' = store w ∧
  reads_of (trace w') =
    reads_of (trace w) ++ [{| read_db := c_db; read_transaction := c_txn;
                              read_options := c_options; read_tasks := requested |}] ∧
  writes_of (trace w') = writes_of (trace w) ∧
  parses_of (trace w') =
    parses_of (trace w) ++ ((λ k, (kv_get (store w) k, internal_format_k)) <$> requested) ∧
  keys_begin read_order = requested ∧
  ∃ fs es,
    length fs = count places ∧ length es = count places ∧
    (∀ j f, fs !! j = Some f → field_view (fields_begin places) j = Some f) ∧
    callbacks_of (trace w') = callbacks_of (trace w) ++ imap (λ j f, (j, f)) fs ∧
    tape' = tape ++ es ∧
    (∀ j place f, keys_begin places !! j = Some place → fs !! j = Some f →
                  es !! j = Deprecated.expected_entry c_format (kv_get (store w) place) f).

(** The entries before [i] parse to documents and dump to MessagePack. *)
Definition parse_until (contents : contents_arg_t) (c_format : ukv_format_t) (i : nat)
    : Prop :=
  ∀ j content, (j < i)%nat → contents !! j = Some content →
    ∃ doc entry,
      Deprecated.parse_result (content_view content) c_format = Some doc ∧
      is_discarded doc = false ∧ write_msgpack doc = Some entry.

(** The world a run ends in, whichever way it ends. *)
Definition final {A} (r : result A) : world :=
  match r with
  | Done _ w => w
  | Aborted _ w => w
  end.

(** A run from [w] that ends in [r] has issued no [ukv_read] and has parsed
    the blobs [parsed], in this order. *)
Definition parsed_only {A} (w : world) (r : result A)
    (parsed : list (value_view_t * ukv_format_t)) : Prop :=
  reads_of (trace (final r)) = reads_of (trace w) ∧
  parses_of (trace (final r)) = parses_of (trace w) ++ parsed.
End Observations.

(** * What a gathered cell holds *)

Section CellOutcomes.
Context `{LibC}.

(** The bytes a string cell is expected to add to the joined tape: a binary
    as it is; a string, the text of a boolean and the decimal text of an
    integer with a NUL after them; of a floating-point number its ["%f"]
    text with the last character replaced by the NUL, which is what
    [to_chars] returning [begin + result - 1] leaves of it; nothing for a
    missing value, for a container and for a number whose text and NUL do
    not fit the print buffer. *)
Definition appended_bytes (value : json_t) : option (list byte_t) :=
  match value with
  | JNull | JDiscarded | JObject _ | JArray _ => None
  | JBinary str => Some str
  | JString str => Some (bytes_of_string str ++ [0])
  | JBoolean b => Some (bytes_of_string (if b then "true" else "false") ++ [0])
  | JNumberInteger n | JNumberUnsigned n =>
      let text := pretty n in
      if bool_decide (Z.of_nat (String.length text) + 1 < Gather.print_buf_len_k)
      then Some (bytes_of_string text ++ [0]) else None
  | JNumberFloat bits =>
      let text := snprintf_f bits in
      if bool_decide (Z.of_nat (String.length text) < Gather.print_buf_len_k)
      then Some (take (String.length text - 1) (bytes_of_string text) ++ [0]) else None
  end.

(** The length [export_string_column] records for what it appends: a
    string is recorded without its terminator, everything else in full. *)
Definition recorded_length (value : json_t) : option Z :=
  match value with
  | JString str => Some (Z.of_nat (String.length str))
  | _ => (λ bytes, Z.of_nat (length bytes)) <$> appended_bytes value
  end.

(** The source already has the type of the target: the tests under
    [if constexpr] in [export_scalar_column]. *)
Definition source_matches_target (t : scalar_at) (value : json_t) : bool :=
  match value with
  | JBoolean _ => bool_decide (t = t_bool)
  | JNumberInteger _ => is_signed_integral t
  | JNumberUnsigned _ => is_unsigned t
  | JNumberFloat _ => is_floating_point t
  | _ => false
  end.

(** The three bitmaps of a column, as [ukv_docs_gather] lays them out: any
    two are one bitmap, or lie [slots] octets or more apart. *)
Definition bitmaps_of (column : column_begin_t) : list Z :=
  [validities column; conversions column; collisions column].

Definition bitmaps_apart (slots : Z) (column : column_begin_t) : Prop :=
  ∀ b b', b ∈ bitmaps_of column → b' ∈ bitmaps_of column →
          b = b' ∨ slots ≤ Z.abs (b - b').

(** A write of the export of cell [doc_idx] of [column]: a bit of that cell
    in one of the three bitmaps, the cell's scalar, offset or length, or
    bytes appended to the joined tape. *)
Definition writes_cell (column : column_begin_t) (doc_idx : nat) (op : mem_op) : Prop :=
  match op with
  | op_and_not ref mask | op_or ref mask =>
      ∃ b, b ∈ bitmaps_of column ∧ ref = octet_ref b doc_idx ∧ mask = mask_bitmap doc_idx
  | op_scalar idx _ | op_off idx _ | op_len idx _ => idx = doc_idx
  | op_output _ => True
  end.
End CellOutcomes.

(** * The tabular exports of modality_nlohmann_docs.cpp *)

Module Tabular.

(** [std::size_t] and [ukv_size_t] have 64 bits and wrap around; a pointer
    takes eight bytes and a [ukv_length_t] four. *)
Definition wrap (x : Z) : Z := x mod 2 ^ 64.
Definition sizeof_pointer : Z := 8.

Definition min_memory_usage (type : ukv_doc_field_type_t) : Z :=
  match type with
  | ukv_doc_field_null_k => 0
  | ukv_doc_field_bool_k => 1
  | ukv_doc_field_uuid_k => 16
  | ukv_doc_field_i8_k => 1
  | ukv_doc_field_i16_k => 2
  | ukv_doc_field_i32_k => 4
  | ukv_doc_field_i64_k => 8
  | ukv_doc_field_u8_k => 1
  | ukv_doc_field_u16_k => 2
  | ukv_doc_field_u32_k => 4
  | ukv_doc_field_u64_k => 8
  | ukv_doc_field_f16_k => 2
  | ukv_doc_field_f32_k => 4
  | ukv_doc_field_f64_k => 8
  | ukv_doc_field_bin_k => 8
  | ukv_doc_field_str_k => 8
  end.

(** [strided_iterator_gt::operator[]]: nothing behind a null pointer or past
    the end of the array. *)
Definition strided_at {A} (it : strided_iterator_gt A) (i : nat) : option A :=
  match it with
  | strided_null => None
  | strided_repeats x => Some x
  | strided_array xs => xs !! i
  end.

(** The elements [0 .. n) of a strided range, if they are all there. *)
Fixpoint strided_take {A} (it : strided_iterator_gt A) (i n : nat) : option (list A) :=
  match n with
  | O => Some []
  | Datatypes.S n' =>
      x ← strided_at it i;
      rest ← strided_take it (Datatypes.S i) n';
      Some (x :: rest)
  end.

(** ** The layout [ukv_docs_gather] computes *)

Section Layout.
Context (docs_count fields_count : nat) (types : list ukv_doc_field_type_t).
(** What [transform_reduce_n(types, c.fields_count, 0ul, &min_memory_usage)]
    returns; the helper is not under src/. *)
Context (bytes_per_scalars_row : Z).
Context (wants_conversions wants_collisions : bool) (tape_ptr : Z).

Definition slots_per_bitmap : Z :=
  wrap (Z.of_nat docs_count / 8 + (if bool_decide (Z.of_nat docs_count mod 8 ≠ 0) then 1 else 0)).

Definition count_bitmaps : Z :=
  wrap (wrap (1 + (if wants_conversions then 1 else 0)) + (if wants_collisions then 1 else 0)).

Definition bytes_per_bitmap : Z := wrap (1 * slots_per_bitmap).
Definition bytes_per_addresses_row : Z := wrap (sizeof_pointer * Z.of_nat fields_count).
Definition bytes_for_addresses : Z := wrap (bytes_per_addresses_row * 6).
Definition bytes_for_bitmaps : Z :=
  wrap (wrap (wrap (bytes_per_bitmap * count_bitmaps) * Z.of_nat fields_count)
        * Z.of_nat fields_count).
Definition bytes_for_scalars : Z := wrap (bytes_per_scalars_row * Z.of_nat docs_count).

(** The size handed to [arena.alloc<byte_t>]. *)
Definition allocated : Z :=
  wrap (wrap (bytes_for_addresses + bytes_for_bitmaps) + bytes_for_scalars).

Definition first_collection_validities : Z := tape_ptr + bytes_for_addresses.

Definition first_collection_conversions : Z :=
  if wants_conversions
  then first_collection_validities + wrap (slots_per_bitmap * Z.of_nat fields_count)
  else first_collection_validities.

Definition first_collection_collisions : Z :=
  if wants_collisions
  then first_collection_conversions + wrap (slots_per_bitmap * Z.of_nat fields_count)
  else first_collection_validities.

Definition first_collection_scalars : Z :=
  tape_ptr + bytes_for_addresses + bytes_for_bitmaps.

(** The entries [field_idx] of the three tables of bitmap addresses. *)
Definition result_bitmap_valid (field_idx : nat) : Z :=
  first_collection_validities + wrap (Z.of_nat field_idx * slots_per_bitmap).

Definition result_bitmap_converted (field_idx : nat) : Z :=
  first_collection_conversions + wrap (Z.of_nat field_idx * slots_per_bitmap).

Definition result_bitmap_collision (field_idx : nat) : Z :=
  first_collection_collisions + wrap (Z.of_nat field_idx * slots_per_bitmap).

(** The [column_begin_t] the export loop builds for a field: a bitmap the
    caller did not ask for is the validity bitmap. *)
Definition column_of (field_idx : nat) : column_begin_t :=
  {| validities := result_bitmap_valid field_idx;
     conversions := if wants_conversions then result_bitmap_converted field_idx
                    else result_bitmap_valid field_idx;
     collisions := if wants_collisions then result_bitmap_collision field_idx
                   else result_bitmap_valid field_idx |}.

(** [scalars_tape] when the loop over the fields reaches [field_idx]. *)
Definition scalars_tape (field_idx : nat) : Z :=
  foldl (λ tape type, tape + wrap (min_memory_usage type * Z.of_nat docs_count))
    first_collection_scalars (take field_idx types).

(** The entries [field_idx] of the tables of offsets, lengths and scalars;
    [0] is [nullptr]. *)
Definition is_string_type (type : ukv_doc_field_type_t) : bool :=
  match type with
  | ukv_doc_field_str_k | ukv_doc_field_bin_k => true
  | _ => false
  end.



Definition result_scalars (field_idx : nat) (type : ukv_doc_field_type_t) : Z :=
  if is_string_type type then 0 else scalars_tape field_idx.







End Layout.

(** The sizes as numbers, with no wrap-around: the octets a bitmap of
    [docs_count] bits takes, and the bytes of the address tables, of the
    bitmaps as the call counts them, and of the columns. *)
Definition slots_needed (docs_count : nat) : Z := (Z.of_nat docs_count + 7) / 8.

Definition bytes_needed (docs_count fields_count : nat) (types : list ukv_doc_field_type_t)
    (wants_conversions wants_collisions : bool) : Z :=
  6 * (sizeof_pointer * Z.of_nat fields_count)
  + slots_needed docs_count
    * (1 + (if wants_conversions then 1 else 0) + (if wants_collisions then 1 else 0))
    * Z.of_nat fields_count * Z.of_nat fields_count
  + foldr (λ type sum, min_memory_usage type + sum) 0 types * Z.of_nat docs_count.

(** ** [parse_fields], [ukv_docs_gather] and [ukv_docs_gist] *)

(** [heapy_field_t = std::variant<std::monostate, json_t::string_t, json_ptr_t>] *)
Inductive heapy_field_t : Type :=
  | heapy_monostate
  | heapy_string (name : string)
  | heapy_pointer (path : string).

(** [c.fields] with [c.fields_stride]: a null pointer; with stride zero a
    pointer to the first of the strings that lie one after the other in
    memory, each behind the terminator of the one before; otherwise an array
    of pointers. *)
Inductive fields_arg_t : Type :=
  | fields_null
  | fields_joined (first : ukv_str_view_t) (rest : list string)
  | fields_array (xs : list ukv_str_view_t).

(** The pointers the loop of [parse_fields] looks at, after it has read
    [*fields]. *)
Definition fields_seen (fields : fields_arg_t) : option (list ukv_str_view_t) :=
  match fields with
  | fields_null => None
  | fields_joined first rest => Some (first :: (Some <$> rest))
  | fields_array [] => None
  | fields_array xs => Some xs
  end.

(** The arguments of [ukv_docs_gather]; [c.docs_count] is the number of
    keys, and the two optional bitmaps are wanted when their output
    pointers are not null. *)
Record ukv_docs_gather_t : Type := {
  dg_db : ukv_database_t;
  dg_transaction : ukv_transaction_t;
  dg_options : ukv_options_t;
  dg_keys : list collection_key_t;
  dg_fields : fields_arg_t;
  dg_fields_count : nat;
  dg_types : strided_iterator_gt ukv_doc_field_type_t;
  dg_wants_conversions : bool;
  dg_wants_collisions : bool;
}.

(** The arrays of one column. *)
Record column_arrays : Type := {
  column_scalars : gmap nat (list byte_t);
  column_offsets : gmap nat Z;
  column_lengths : gmap nat Z;
}.

(** The memory a gather fills: the octets of the bitmaps by address, the
    arrays of every column by field, and [string_tape]. *)
Record table_memory : Type := {
  bitmaps : gmap Z Z;
  columns : gmap nat column_arrays;
  string_tape : list byte_t;
}.

Definition no_arrays : column_arrays :=
  {| column_scalars := ∅; column_offsets := ∅; column_lengths := ∅ |}.

(** The memory as the export of a cell of field [field_idx] sees it, and
    the memory after that export. *)
Definition column_view (tm : table_memory) (field_idx : nat) : column_memory :=
  let arrays := default no_arrays (columns tm !! field_idx) in
  {| octets := bitmaps tm;
     scalars := column_scalars arrays;
     str_offsets := column_offsets arrays;
     str_lengths := column_lengths arrays;
     output := string_tape tm |}.

Definition store_column (tm : table_memory) (field_idx : nat) (m : column_memory)
    : table_memory :=
  {| bitmaps := octets m;
     columns := <[field_idx := {| column_scalars := scalars m;
                                  column_offsets := str_offsets m;
                                  column_lengths := str_lengths m |}]> (columns tm);
     string_tape := output m |}.

(** The arguments of [ukv_docs_gist]. *)
Record ukv_docs_gist_t : Type := {
  gi_db : ukv_database_t;
  gi_transaction : ukv_transaction_t;
  gi_options : ukv_options_t;
  gi_keys : list collection_key_t;
}.

(** [std::unordered_set<std::string>]: the order in which a range-based
    [for] visits the elements is the library's; each element comes once. *)
Class UnorderedSet : Type := {
  iterate : gset string → list string;
  iterate_elements : ∀ paths, iterate paths ≡ₚ elements paths;
}.

(** The keys [json.items()] yields: the names of an object, the indices of
    an array, one empty key for a scalar and nothing for [null]. *)
Definition item_keys (json : json_t) : list string :=
  match json with
  | JObject members => members.*1
  | JArray items => (λ i, pretty (Z.of_nat i)) <$> seq 0 (length items)
  | JNull => []
  | _ => [EmptyString]
  end.

(** [ukv_length_t] has 32 bits. *)
Definition wrap_length (x : Z) : Z := x mod 2 ^ 32.

(** The offsets [ukv_docs_gist] exports for the paths in the order of the
    iteration, the total behind the last one. *)
Fixpoint path_offsets (total_length : Z) (paths : list string) : list Z :=
  match paths with
  | [] => [total_length]
  | path :: rest =>
      total_length
      :: path_offsets (wrap_length (total_length + (Z.of_nat (String.length path) + 1))) rest
  end.

(** The tape it exports: every path with its terminator. *)
Definition path_tape (paths : list string) : list byte_t :=
  mjoin ((λ path, bytes_of_string path ++ [0]) <$> paths).

Section WithLibraries.
Context `{Nlohmann} `{KvEngine} `{LibC} `{UnorderedSet}.

(** The loop of [parse_fields] from [field_idx] on, [n] fields to go. *)
Fixpoint parse_fields_loop (seen : list ukv_str_view_t) (field_idx n : nat)
    (fields_parsed : list heapy_field_t) : M (list heapy_field_t) :=
  match n with
  | O => ret fields_parsed
  | Datatypes.S n' =>
      let* field := checked (seen !! field_idx) in
      match field with
      | None =>
          let* _ := log_error (error_msg "NULL JSON-Pointers are not allowed!") in
          ret fields_parsed
      | Some field =>
          if decide (first_char field = "/"%char) then
            if json_pointer_ok field
            then parse_fields_loop seen (field_idx + 1)%nat n'
                   (<[field_idx := heapy_pointer field]> fields_parsed)
            else
              let* _ := log_error (error_msg "Inappropriate field path!") in
              ret fields_parsed
          else parse_fields_loop seen (field_idx + 1)%nat n'
                 (<[field_idx := heapy_string field]> fields_parsed)
      end
  end.

Definition parse_fields (fields : fields_arg_t) (n : nat) : M (list heapy_field_t) :=
  let fields_parsed := replicate n heapy_monostate in
  let* seen := checked (fields_seen fields) in
  parse_fields_loop seen 0%nat n fields_parsed.

(** [found_value] in the export loop: the part of the document a parsed
    field names; [std::get] throws on a field that was never parsed. *)
Definition found_value (parsed : json_t) (name_or_path : heapy_field_t) : M json_t :=
  match name_or_path with
  | heapy_pointer path => ret (if contains parsed path then at_pointer parsed path else JNull)
  | heapy_string name => ret (default JNull (find parsed name))
  | heapy_monostate => raise uncaught_exception
  end.

(** The [switch (type)] of the export loop on the memory of the table: the
    cell of document [doc_idx] in the column of field [field_idx]. *)
Definition export_cell_into (column : nat → column_begin_t) (tm : table_memory)
    (field_idx doc_idx : nat) (type : ukv_doc_field_type_t) (found_value : json_t)
    : table_memory :=
  let ops := Gather.export_cell type found_value doc_idx (column field_idx)
               (length (string_tape tm)) in
  store_column tm field_idx (exec ops (column_view tm field_idx)).

(** The loop over the fields for one document, from [field_idx] on. *)
Fixpoint gather_fields (column : nat → column_begin_t)
    (types : strided_iterator_gt ukv_doc_field_type_t) (heapy_fields : list heapy_field_t)
    (parsed : json_t) (doc_idx field_idx n : nat) (tm : table_memory) : M table_memory :=
  match n with
  | O => ret tm
  | Datatypes.S n' =>
      let* type := checked (strided_at types field_idx) in
      let* name_or_path := checked (heapy_fields !! field_idx) in
      let* value := found_value parsed name_or_path in
      gather_fields column types heapy_fields parsed doc_idx (field_idx + 1)%nat n'
        (export_cell_into column tm field_idx doc_idx type value)
  end.

(** The loop over the documents, from [doc_idx] on; [None] when the loop
    leaves the function. *)
Fixpoint gather_docs (column : nat → column_begin_t)
    (types : strided_iterator_gt ukv_doc_field_type_t) (heapy_fields : list heapy_field_t)
    (fields_count : nat) (doc_idx : nat) (found_binaries : list value_view_t)
    (tm : table_memory) : M (option table_memory) :=
  match found_binaries with
  | [] => ret (Some tm)
  | binary_doc :: rest =>
      let* parsed := Deprecated.parse_any binary_doc internal_format_k in
      return_if_error_m None (
        let* tm := gather_fields column types heapy_fields parsed doc_idx 0%nat
                     fields_count tm in
        gather_docs column types heapy_fields fields_count (doc_idx + 1)%nat rest tm)
  end.

(** [ukv_docs_gather]: [tape_ptr] is the address and [tape] the content of
    the memory [arena.alloc] hands out, which is taken to succeed;
    [string_tape] starts empty.  The result is the memory behind the
    addresses the call exports; [None] when it leaves them unset. *)
Definition ukv_docs_gather (c : ukv_docs_gather_t) (tape_ptr : Z) (tape : table_memory)
    : M (option table_memory) :=
  return_if_error_m None (
    let* found := ukv_read {| read_db := dg_db c; read_transaction := dg_transaction c;
                              read_options := dg_options c; read_tasks := dg_keys c |} in
    return_if_error_m None (
      let* found_binaries := checked found in
      let* heapy_fields := parse_fields (dg_fields c) (dg_fields_count c) in
      return_if_error_m None (
        let* types := checked (strided_take (dg_types c) 0 (dg_fields_count c)) in
        let column := column_of (length (dg_keys c)) (dg_fields_count c)
                        (dg_wants_conversions c) (dg_wants_collisions c) tape_ptr in
        let string_tape := [] in
        gather_docs column (dg_types c) heapy_fields (dg_fields_count c) 0%nat
          found_binaries
          {| bitmaps := bitmaps tape; columns := columns tape;
             string_tape := string_tape |})))%nat.

(** The loop of [ukv_docs_gist] over the documents; [None] when it leaves
    the function.  The handler around the loop catches [std::bad_alloc]
    only. *)
Fixpoint gist_docs (found_binaries : list value_view_t) (paths : gset string)
    : M (option (gset string)) :=
  match found_binaries with
  | [] => ret (Some paths)
  | binary_doc :: rest =>
      let* parsed := Deprecated.parse_any binary_doc internal_format_k in
      return_if_error_m None (
        let* parsed_flat := unguarded (flatten parsed) in
        gist_docs rest (paths ∪ list_to_set (item_keys parsed_flat)))
  end.

(** [ukv_docs_gist]: what it leaves behind [c.fields_count], [c.offsets]
    and [c.fields]; [None] when it leaves them unset.  The two calls of
    [arena.alloc] are taken to succeed. *)
Definition ukv_docs_gist (c : ukv_docs_gist_t) : M (option (nat * list Z * list byte_t)) :=
  return_if_error_m None (
    let* found := ukv_read {| read_db := gi_db c; read_transaction := gi_transaction c;
                              read_options := gi_options c; read_tasks := gi_keys c |} in
    return_if_error_m None (
      let* found_binaries := checked found in
      let* paths := gist_docs found_binaries ∅ in
      match paths with
      | None => ret None
      | Some paths =>
          let order := iterate paths in
          ret (Some (length order, path_offsets 0 order, path_tape order))
      end)).

(** ** What a gathered table is expected to hold *)

(** What [parse_fields] makes of a field that is there. *)
Definition heapy_of (field : string) : heapy_field_t :=
  if decide (first_char field = "/"%char) then heapy_pointer field else heapy_string field.

(** The part of a document a field names: the target of a JSON pointer, the
    member of that name, and [null] when the document has no such part. *)
Definition gathered_value (parsed : json_t) (field : string) : json_t :=
  if decide (first_char field = "/"%char)
  then (if contains parsed field then at_pointer parsed field else JNull)
  else default JNull (find parsed field).

(** The scalar a column of a type holds, for the types with a scalar. *)
Definition scalar_type_of (type : ukv_doc_field_type_t) : option scalar_at :=
  match type with
  | ukv_doc_field_bool_k => Some t_bool
  | ukv_doc_field_i8_k => Some t_int8
  | ukv_doc_field_i16_k => Some t_int16
  | ukv_doc_field_i32_k => Some t_int32
  | ukv_doc_field_i64_k => Some t_int64
  | ukv_doc_field_u8_k => Some t_uint8
  | ukv_doc_field_u16_k => Some t_uint16
  | ukv_doc_field_u32_k => Some t_uint32
  | ukv_doc_field_u64_k => Some t_uint64
  | ukv_doc_field_f32_k => Some t_float
  | ukv_doc_field_f64_k => Some t_double
  | _ => None
  end.

(** The error [parse_fields] stores for a field it does not take: a null
    pointer, or a path that [json_ptr_t] throws on. *)
Definition field_error (field : ukv_str_view_t) : option ukv_error_t :=
  match field with
  | None => Some (error_msg "NULL JSON-Pointers are not allowed!")
  | Some field =>
      if decide (first_char field = "/"%char)
      then (if json_pointer_ok field then None
            else Some (error_msg "Inappropriate field path!"))
      else None
  end.

(** The cell of document [doc_idx] in the column of field [field_idx] is in
    [tm] what it was in [before]: its bit in each of the three bitmaps, its
    scalar, its offset and its length. *)
Definition cell_untouched (before tm : table_memory) (column : column_begin_t)
    (field_idx doc_idx : nat) : Prop :=
  let m0 := column_view before field_idx in
  let m := column_view tm field_idx in
  (∀ b, b ∈ bitmaps_of column → bit_at m b doc_idx = bit_at m0 b doc_idx) ∧
  scalars m !! doc_idx = scalars m0 !! doc_idx ∧
  str_offsets m !! doc_idx = str_offsets m0 !! doc_idx ∧
  str_lengths m !! doc_idx = str_lengths m0 !! doc_idx.

(** The cell of document [doc_idx] in the column of field [field_idx] holds
    [value] as a [type], in a table that was [before] when the gather
    started: in a scalar column the validity bit says whether the value
    coerces, and a value that does is the cell's scalar; in a string or
    binary column the validity bit says whether the value was appended, and
    then the cell's offset points at its bytes on the string tape and the
    cell's length is the recorded one.  The [switch (type)] has no case for
    a column of another type ([f16], [uuid], [null]: [default: break]): its
    cell is what it was before the gather. *)
Definition cell_holds (before tm : table_memory) (column : column_begin_t)
    (field_idx doc_idx : nat) (type : ukv_doc_field_type_t) (value : json_t) : Prop :=
  let m := column_view tm field_idx in
  match scalar_type_of type with
  | Some t =>
      bit_at m (validities column) doc_idx = bool_decide (is_Some (Gather.coerced_scalar t value)) ∧
      ∀ repr, Gather.coerced_scalar t value = Some repr → scalars m !! doc_idx = Some repr
  | None =>
      if is_string_type type
      then
        bit_at m (validities column) doc_idx = bool_decide (is_Some (appended_bytes value)) ∧
        ∀ bytes, appended_bytes value = Some bytes →
          ∃ off,
            str_offsets m !! doc_idx = Some (Z.of_nat off) ∧
            str_lengths m !! doc_idx = recorded_length value ∧
            take (length bytes) (drop off (string_tape tm)) = bytes
      else cell_untouched before tm column field_idx doc_idx
  end.
End WithLibraries.
End Tabular.

(** ** [ukv_docs_gist] of logic_docs.cpp *)
Module LogicGist.
Section WithLibraries.
Context `{Nlohmann} `{KvEngine} `{Tabular.UnorderedSet}.

(** The loop over the documents; [None] when it leaves the function.  The
    readers of [LogicDocs.parse_any] throw, and the handler around the loop
    catches [std::bad_alloc] only. *)
Fixpoint gist_docs (binary_docs : list value_view_t) (paths : gset string)
    : M (option (gset string)) :=
  match binary_docs with
  | [] => ret (Some paths)
  | binary_doc :: rest =>
      let* parsed := LogicDocs.parse_any binary_doc internal_format_k in
      return_if_error_m None (
        let* parsed_flat := unguarded (flatten parsed) in
        gist_docs rest (paths ∪ list_to_set (Tabular.item_keys parsed_flat)))
  end.

(** What the call leaves behind [c_found_fields_count] and
    [c_found_fields]; [None] when it leaves them unset.  [cast_arena] and
    [prepare_memory] are taken to succeed. *)
Definition ukv_docs_gist (c_db : ukv_database_t) (c_txn : ukv_transaction_t)
    (keys : list collection_key_t) (c_options : ukv_options_t)
    : M (option (nat * list byte_t)) :=
  let* found := ukv_read {| read_db := c_db; read_transaction := c_txn;
                            read_options := c_options; read_tasks := keys |} in
  return_if_error_m None (
    let* binary_docs := checked found in
    let* paths := gist_docs binary_docs ∅ in
    match paths with
    | None => ret None
    | Some paths =>
        let order := Tabular.iterate paths in
        ret (Some (length order, Tabular.path_tape order))
    end).
End WithLibraries.
End LogicGist.

(** * Stand-ins for the libraries, to run calls on concrete inputs *)
Module Fixtures.

Definition string_of_bytes (bytes : list byte_t) : string :=
  string_of_list_ascii ((λ b, ascii_of_nat (Z.to_nat b)) <$> bytes).

(** MessagePack for small scalars: nil, booleans, positive fixint, fixstr. *)
Definition pack_scalar (json : json_t) : option (list byte_t) :=
  match json with
  | JNull => Some [192]
  | JBoolean b => Some [if b then 195 else 194]
  | JNumberInteger n | JNumberUnsigned n =>
      if bool_decide (0 ≤ n < 128) then Some [n] else None
  | JString str =>
      if bool_decide (String.length str < 32)%nat
      then Some (160 + Z.of_nat (String.length str) :: bytes_of_string str)
      else None
  | _ => None
  end.

Fixpoint pack_members (members : list (string * json_t)) : option (list byte_t) :=
  match members with
  | [] => Some []
  | (name, value) :: rest =>
      k ← pack_scalar (JString name);
      v ← pack_scalar value;
      tail ← pack_members rest;
      Some (k ++ v ++ tail)
  end.

(** ... and for a fixmap of such scalars. *)
Definition pack (json : json_t) : option (list byte_t) :=
  match json with
  | JObject members =>
      if bool_decide (length members < 16)%nat
      then body ← pack_members members; Some (128 + Z.of_nat (length members) :: body)
      else None
  | scalar => pack_scalar scalar
  end.

Definition unpack_scalar (bytes : list byte_t) : option (json_t * list byte_t) :=
  match bytes with
  | [] => None
  | b :: rest =>
      if bool_decide (0 ≤ b < 128) then Some (JNumberUnsigned b, rest)
      else if bool_decide (b = 192) then Some (JNull, rest)
      else if bool_decide (b = 194) then Some (JBoolean false, rest)
      else if bool_decide (b = 195) then Some (JBoolean true, rest)
      else if bool_decide (160 ≤ b < 192) then
        let len := Z.to_nat (b - 160) in
        if bool_decide (len ≤ length rest)%nat
        then Some (JString (string_of_bytes (take len rest)), drop len rest)
        else None
      else None
  end.

Fixpoint unpack_members (n : nat) (bytes : list byte_t)
    : option (list (string * json_t) * list byte_t) :=
  match n with
  | O => Some ([], bytes)
  | Datatypes.S n' =>
      '(k, bytes) ← unpack_scalar bytes;
      name ← (match k with JString name => Some name | _ => None end);
      '(v, bytes) ← unpack_scalar bytes;
      '(members, bytes) ← unpack_members n' bytes;
      Some ((name, v) :: members, bytes)
  end.

Definition unpack (bytes : list byte_t) : json_t :=
  let whole r := match r with Some (json, []) => json | _ => JDiscarded end in
  match bytes with
  | b :: rest =>
      if bool_decide (128 ≤ b < 144)
      then whole (prod_map JObject id <$> unpack_members (Z.to_nat (b - 128)) rest)
      else whole (unpack_scalar bytes)
  | [] => JDiscarded
  end.

(** JSON text for integers and the three literals. *)
Definition text_of (json : json_t) : option (list byte_t) :=
  match json with
  | JNull => Some (bytes_of_string "null")
  | JBoolean b => Some (bytes_of_string (if b then "true" else "false"))
  | JNumberInteger n | JNumberUnsigned n => Some (bytes_of_string (pretty n))
  | _ => None
  end.

Definition of_text (bytes : list byte_t) : json_t :=
  let str := string_of_bytes bytes in
  if bool_decide (str = "null") then JNull
  else if bool_decide (str = "true") then JBoolean true
  else if bool_decide (str = "false") then JBoolean false
  else
    match scan_digits str 0 with
    | (Datatypes.S k, n) =>
        if bool_decide (Datatypes.S k = String.length str) then JNumberUnsigned n
        else JDiscarded
    | _ => JDiscarded
    end.

(** A reader's result: with [allow_exceptions] a failure throws, without
    it the reader returns the discarded value. *)
Definition read_as (allow_exceptions : bool) (json : json_t) : option json_t :=
  if allow_exceptions && is_discarded json then None else Some json.

(** The library cut down to the above; the other formats are never
    readable, JSON pointers address nothing and patches always throw. *)
#[export] Instance small_json : Nlohmann := {|
  parse bytes allow_exceptions _ := read_as allow_exceptions (of_text bytes);
  from_msgpack bytes _ allow_exceptions := read_as allow_exceptions (unpack bytes);
  from_bson _ _ _ := Some JDiscarded;
  from_cbor _ _ _ := Some JDiscarded;
  from_ubjson _ _ _ := Some JDiscarded;
  dump := text_of;
  write_msgpack := pack;
  write_bson _ := None;
  write_cbor _ := None;
  write_ubjson _ _ _ := None;
  json_pointer_ok _ := true;
  contains _ _ := false;
  at_pointer _ _ := JNull;
  at_pointer_assign json _ _ := json;
  patch _ _ := None;
  merge_patch _ _ := None;
  flatten _ := None;
  unflatten _ := None;
  emplace _ _ _ := None;
|}.

(** An engine that keeps a finite map and never fails. *)
Definition put (db : gmap collection_key_t value_view_t)
    (task : collection_key_t * option value_view_t) : gmap collection_key_t value_view_t :=
  match task.2 with
  | Some value => <[task.1 := value]> db
  | None => delete task.1 db
  end.

#[export] Instance map_engine : KvEngine := {|
  db_t := gmap collection_key_t value_view_t;
  kv_get db k := default [] (db !! k);
  kv_read_error _ _ := None;
  kv_write db wr := inr (foldl put db (zip (write_tasks wr) (write_contents wr)));
|}.

(** A platform whose floating-point conversions all give zero. *)
#[export] Instance no_floats : LibC := {|
  strtof _ := (0%nat, 0);
  strtod _ := (0%nat, 0);
  snprintf_f _ := "0.000000"%string;
  float_of_integer _ := 0;
  double_of_integer _ := 0;
  float_of_double _ := 0;
  bool_of_double _ := false;
  integer_of_double _ _ _ := 0;
|}.

(** A fresh world over a database. *)
Definition world_of (db : gmap collection_key_t value_view_t) : world :=
  {| store := db; c_error := None; trace := [] |}.

(** [{"x":7}] under key 10 and [{"x":8}] under key 11 of collection 0. *)
Definition two_docs : gmap collection_key_t value_view_t :=
  <[(0, 10) := [129; 161; 120; 7]]> (<[(0, 11) := [129; 161; 120; 8]]> ∅).

(** [{"a":1,"b":2}] under key 42 of collection 0. *)
Definition one_doc : gmap collection_key_t value_view_t :=
  <[(0, 42) := [130; 161; 97; 1; 161; 98; 2]]> ∅.

(** The field "x" of keys 10, 10, 11, 10, as JSON. *)
Definition repeated_read : ukv_docs_read_t :=
  {| dr_db := Some 1; dr_transaction := None; dr_options := 0;
     dr_tasks := [(0, 10); (0, 10); (0, 11); (0, 10)];
     dr_fields := strided_repeats (Some "x"%string);
     dr_format := ukv_format_json_k |}.

Definition repeated_tape : list value_view_t := [[55; 0]; [55; 0]; [56; 0]; [55; 0]].

Definition repeated_world : world :=
  {| store := two_docs; c_error := None;
     trace :=
       [ev_ukv_read {| read_db := Some 1; read_transaction := None; read_options := 0;
                       read_tasks := [(0, 10); (0, 11)] |};
        ev_parse_any [129; 161; 120; 7] ukv_format_msgpack_k;
        ev_parse_any [129; 161; 120; 8] ukv_format_msgpack_k;
        ev_callback 0 (Some "x"%string);
        ev_dump_any (JNumberUnsigned 7) ukv_format_json_k;
        ev_callback 1 (Some "x"%string);
        ev_dump_any (JNumberUnsigned 7) ukv_format_json_k;
        ev_callback 2 (Some "x"%string);
        ev_dump_any (JNumberUnsigned 8) ukv_format_json_k;
        ev_callback 3 (Some "x"%string);
        ev_dump_any (JNumberUnsigned 7) ukv_format_json_k] |}.

(** The field "x" of keys 11, 10, 11, in the internal format. *)
Definition shuffled_read : ukv_docs_read_t :=
  {| dr_db := Some 1; dr_transaction := None; dr_options := 0;
     dr_tasks := [(0, 11); (0, 10); (0, 11)];
     dr_fields := strided_repeats (Some "x"%string);
     dr_format := ukv_format_msgpack_k |}.

(** Key 10 twice, whole documents, in the internal format. *)
Definition duplicated_read : ukv_docs_read_t :=
  {| dr_db := Some 1; dr_transaction := None; dr_options := 0;
     dr_tasks := [(0, 10); (0, 10)];
     dr_fields := strided_null;
     dr_format := ukv_format_msgpack_k |}.

(** The JSON text [5] for the field "a" of key 42. *)
Definition field_write : ukv_docs_write_t :=
  {| dw_db := Some 1; dw_transaction := None; dw_options := 0;
     dw_tasks := [(0, 42)];
     dw_fields := strided_array [Some "a"%string];
     dw_format := ukv_format_json_k;
     dw_contents := [Some [53]] |}.

(** Two whole documents as JSON text: [5], and [x!], which is no JSON. *)
Definition broken_write : ukv_docs_write_t :=
  {| dw_db := Some 1; dw_transaction := None; dw_options := 0;
     dw_tasks := [(0, 42); (0, 43)];
     dw_fields := strided_null;
     dw_format := ukv_format_json_k;
     dw_contents := [Some [53]; Some [120; 33]] |}.

Definition broken_places : places_arg_t :=
  {| keys_begin := dw_tasks broken_write; fields_begin := strided_null |}.

(** A whole document and a read of it, in the internal format. *)
Definition plain_write : ukv_docs_write_t :=
  {| dw_db := Some 1; dw_transaction := None; dw_options := 0;
     dw_tasks := [(0, 42)];
     dw_fields := strided_null;
     dw_format := ukv_format_msgpack_k;
     dw_contents := [Some [129; 161; 120; 7]] |}.

Definition plain_read : ukv_docs_read_t :=
  {| dr_db := Some 1; dr_transaction := None; dr_options := 0;
     dr_tasks := [(0, 42)];
     dr_fields := strided_null;
     dr_format := ukv_format_msgpack_k |}.

Definition plain_write_call : ukv_write_t :=
  {| write_db := Some 1; write_transaction := None; write_options := 0;
     write_tasks := [(0, 42)]; write_contents := [Some [129; 161; 120; 7]] |}.

Definition plain_read_call : ukv_read_t :=
  {| read_db := Some 1; read_transaction := None; read_options := 0;
     read_tasks := [(0, 42)] |}.

(** A column whose three bitmaps lie apart, and a zeroed memory. *)
Definition three_bitmaps : column_begin_t :=
  {| validities := 0; conversions := 100; collisions := 200 |}.

Definition zeroed : column_memory :=
  {| octets := ∅; scalars := ∅; str_offsets := ∅; str_lengths := ∅; output := [] |}.
End Fixtures.

(** * Stand-ins for the tabular calls *)
Module TabularFixtures.
Import Fixtures Tabular.

(** [flatten] on a scalar and on an object of scalars with plain names:
    the path of a member is a slash and its name. *)
Definition is_scalar (json : json_t) : bool :=
  match json with
  | JObject _ | JArray _ | JDiscarded => false
  | _ => true
  end.

Definition flatten_scalars (json : json_t) : option json_t :=
  match json with
  | JObject [] => Some (JObject [(EmptyString, JNull)])
  | JObject members =>
      if forallb (λ member, is_scalar member.2) members
      then Some (JObject (prod_map (String "/"%char) id <$> members))
      else None
  | JArray _ | JDiscarded => None
  | scalar => Some (JObject [(EmptyString, scalar)])
  end.

(** [small_json] with this [flatten]. *)
Definition flat_json : Nlohmann := {|
  parse := parse (Nlohmann := small_json);
  from_msgpack := from_msgpack (Nlohmann := small_json);
  from_bson := from_bson (Nlohmann := small_json);
  from_cbor := from_cbor (Nlohmann := small_json);
  from_ubjson := from_ubjson (Nlohmann := small_json);
  dump := dump (Nlohmann := small_json);
  write_msgpack := write_msgpack (Nlohmann := small_json);
  write_bson := write_bson (Nlohmann := small_json);
  write_cbor := write_cbor (Nlohmann := small_json);
  write_ubjson := write_ubjson (Nlohmann := small_json);
  json_pointer_ok := json_pointer_ok (Nlohmann := small_json);
  contains := contains (Nlohmann := small_json);
  at_pointer := at_pointer (Nlohmann := small_json);
  at_pointer_assign := at_pointer_assign (Nlohmann := small_json);
  patch := patch (Nlohmann := small_json);
  merge_patch := merge_patch (Nlohmann := small_json);
  flatten := flatten_scalars;
  unflatten := unflatten (Nlohmann := small_json);
  emplace := emplace (Nlohmann := small_json);
|}.

(** A set that yields its elements in the order of [elements]. *)
Definition listed_set : UnorderedSet :=
  {| iterate := elements; iterate_elements paths := Permutation_refl (elements paths) |}.

(** [two_docs] and [{"a":1,"b":2}] under key 42. *)
Definition three_docs : gmap collection_key_t value_view_t :=
  <[(0, 42) := [130; 161; 97; 1; 161; 98; 2]]> two_docs.


(** The field "x" of [two_docs] as an unsigned byte and as a string, with
    conversion bitmaps. *)
Definition gather_x : ukv_docs_gather_t :=
  {| dg_db := Some 1; dg_transaction := None; dg_options := 0;
     dg_keys := [(0, 10); (0, 11)];
     dg_fields := fields_array [Some "x"%string; Some "x"%string];
     dg_fields_count := 2;
     dg_types := strided_array [ukv_doc_field_u8_k; ukv_doc_field_str_k];
     dg_wants_conversions := true; dg_wants_collisions := false |}.

Definition blank_table : table_memory :=
  {| bitmaps := ∅; columns := ∅; string_tape := [] |}.

(** The table that gather leaves at address 1000: the validity bitmaps of
    the two fields at 1096 and 1097, their conversion bitmaps behind them,
    the scalars 7 and 8, and their texts on the string tape. *)
Definition gathered_x_table : table_memory :=
  {| bitmaps := <[1096 := 3]> (<[1097 := 3]> (<[1098 := 0]> (<[1099 := 3]> ∅)));
     columns :=
       <[0%nat := {| column_scalars := <[0%nat := [7]]> (<[1%nat := [8]]> ∅);
                     column_offsets := ∅; column_lengths := ∅ |}]>
         (<[1%nat := {| column_scalars := ∅;
                        column_offsets := <[0%nat := 0]> (<[1%nat := 2]> ∅);
                        column_lengths := <[0%nat := 2]> (<[1%nat := 2]> ∅) |}]> ∅);
     string_tape := [55; 0; 56; 0] |}.

(** Three field pointers: a name, a JSON pointer and a null pointer. *)
Definition three_fields : fields_arg_t :=
  fields_array [Some "x"%string; Some "/a/b"%string; None].

(** Two whole documents as JSON text, [5] and [7], and a document with a
    deletion. *)
Definition json_places : places_arg_t :=
  {| keys_begin := [(0, 42); (0, 43)]; fields_begin := strided_null |}.

Definition json_contents : contents_arg_t := [Some [53]; Some [55]].

Definition mixed_contents : contents_arg_t := [Some [53]; None].
End TabularFixtures.

(** * Facts about the helpers of the planner *)

Section PlannerFacts.
  Implicit Types (a b x : collection_key_t) (l : list collection_key_t).

#[global] Instance collection_key_le_trans : Transitive collection_key_le.
Proof. intros [] [] []; unfold collection_key_le; simpl; lia. Qed.

#[global] Instance collection_key_le_total : Total collection_key_le.
Proof. intros [] []; unfold collection_key_le; simpl; lia. Qed.

#[global] Instance collection_key_lt_trans : Transitive collection_key_lt.
Proof. intros [] [] []; unfold collection_key_lt; simpl; lia. Qed.

Lemma collection_key_lt_irrefl a : ¬ collection_key_lt a a.
Proof. destruct a; unfold collection_key_lt; simpl; lia. Qed.

Lemma collection_key_le_ne_lt a b :
  collection_key_le a b → a ≠ b → collection_key_lt a b.
Proof.
  destruct a as [c k], b as [c' k']; unfold collection_key_le, collection_key_lt; simpl.
  intros Hle Hne.
  destruct (decide (k = k')) as [->|]; [|lia].
  destruct (decide (c = c')) as [->|]; [congruence|lia].
Qed.

Lemma collection_key_le_lt_trans a b x :
  collection_key_le a b → collection_key_lt b x → collection_key_lt a x.
Proof.
  destruct a, b, x; unfold collection_key_le, collection_key_lt; simpl; lia.
Qed.

Lemma collection_key_lt_asym a b : collection_key_lt a b → ¬ collection_key_lt b a.
Proof. destruct a, b; unfold collection_key_lt; simpl; lia. Qed.

Lemma elem_of_unique l x : x ∈ unique l ↔ x ∈ l.
Proof.
  induction l as [|a [|b rest] IH]; [done..|].
  change (unique (a :: b :: rest))
    with (if decide (a = b) then unique (b :: rest) else a :: unique (b :: rest)).
  destruct (decide (a = b)) as [->|Hne].
  - rewrite IH. rewrite !elem_of_cons. tauto.
  - rewrite elem_of_cons, IH. rewrite !elem_of_cons. tauto.
Qed.

Lemma unique_sorted l :
  StronglySorted collection_key_le l → StronglySorted collection_key_lt (unique l).
Proof.
  induction l as [|a [|b rest] IH]; intros Hs.
  - constructor.
  - repeat constructor.
  - change (unique (a :: b :: rest))
      with (if decide (a = b) then unique (b :: rest) else a :: unique (b :: rest)).
    apply StronglySorted_cons in Hs as [Ha Hs].
    destruct (decide (a = b)) as [->|Hne]; [by apply IH|].
    constructor; [by apply IH|].
    apply Forall_forall. intros x Hx. apply (proj1 (elem_of_unique _ _)) in Hx.
    apply Forall_cons in Ha as [Hab Ha].
    pose proof (collection_key_le_ne_lt _ _ Hab Hne) as Hlt.
    apply elem_of_cons in Hx as [->|Hx]; [done|].
    apply StronglySorted_cons in Hs as [Hb _].
    rewrite Forall_forall in Hb. specialize (Hb _ Hx).
    destruct a, b, x; unfold collection_key_le, collection_key_lt in *; simpl in *; lia.
Qed.

Lemma sort_and_deduplicate_sorted l :
  StronglySorted collection_key_lt (sort_and_deduplicate l).
Proof. apply unique_sorted, StronglySorted_merge_sort; apply _. Qed.

Lemma elem_of_sort_and_deduplicate l x : x ∈ sort_and_deduplicate l ↔ x ∈ l.
Proof.
  unfold sort_and_deduplicate. rewrite elem_of_unique.
  by rewrite (merge_sort_Permutation collection_key_le l).
Qed.

Lemma strictly_sorted_lookup_lt l i j a b :
  StronglySorted collection_key_lt l →
  l !! i = Some a → l !! j = Some b → (i < j)%nat → collection_key_lt a b.
Proof.
  intros Hs. revert i j. induction Hs as [|x l Hs IH Hx]; intros i j Hi Hj Hlt; [done|].
  destruct i as [|i], j as [|j]; simpl in *; try lia.
  - injection Hi as ->. rewrite Forall_forall in Hx.
    apply Hx. by eapply list_elem_of_lookup_2.
  - eapply IH; eauto. lia.
Qed.

Lemma strictly_sorted_NoDup l : StronglySorted collection_key_lt l → NoDup l.
Proof.
  induction 1 as [|x l Hs IH Hx]; constructor; [|done].
  intros Hin. rewrite Forall_forall in Hx.
  by apply (collection_key_lt_irrefl x), Hx.
Qed.

Lemma sort_and_deduplicate_NoDup l : NoDup (sort_and_deduplicate l).
Proof. apply strictly_sorted_NoDup, sort_and_deduplicate_sorted. Qed.

Lemma lower_bound_step fuel l x first cnt :
  lower_bound (Datatypes.S fuel) l x first (Datatypes.S cnt) =
    match l !! (first + Datatypes.S cnt / 2)%nat with
    | Some y =>
        if decide (collection_key_lt y x)
        then lower_bound fuel l x (first + Datatypes.S cnt / 2 + 1)%nat
               (Datatypes.S cnt - (Datatypes.S cnt / 2 + 1))%nat
        else lower_bound fuel l x first (Datatypes.S cnt / 2)%nat
    | None => first
    end.
Proof. reflexivity. Qed.

(** The binary search finds the position of every element of a strictly
    sorted sequence. *)
Lemma lower_bound_finds fuel l x first cnt i :
  StronglySorted collection_key_lt l →
  l !! i = Some x →
  (first ≤ i ≤ first + cnt)%nat → (first + cnt ≤ length l)%nat → (cnt ≤ fuel)%nat →
  lower_bound fuel l x first cnt = i.
Proof.
  intros Hs Hi. revert first cnt.
  induction fuel as [|fuel IH]; intros first cnt Hrange Hlen Hfuel.
  { simpl. lia. }
  destruct cnt as [|cnt']; [simpl; lia|]. rewrite lower_bound_step.
  set (cnt := Datatypes.S cnt') in *.
  assert (Hstep : (cnt / 2 < cnt)%nat) by (apply Nat.div_lt; lia).
  destruct (l !! (first + cnt / 2)%nat) as [y|] eqn:Hy.
  2:{ apply lookup_ge_None in Hy. lia. }
  destruct (decide (collection_key_lt y x)) as [Hlt|Hnlt].
  - apply IH; [|lia|lia].
    destruct (decide (i ≤ first + cnt / 2)%nat) as [Hle|]; [|lia].
    exfalso. destruct (decide (i = first + cnt / 2)%nat) as [->|Hne].
    + rewrite Hi in Hy. injection Hy as ->. by apply (collection_key_lt_irrefl y).
    + apply (collection_key_lt_asym y x Hlt).
      eapply (strictly_sorted_lookup_lt l i (first + cnt / 2)); eauto. lia.
  - apply IH; [|lia|lia].
    destruct (decide (i ≤ first + cnt / 2)%nat) as [Hle|Hgt]; [lia|].
    exfalso. apply Hnlt.
    eapply (strictly_sorted_lookup_lt l (first + cnt / 2) i); eauto. lia.
Qed.

Lemma offset_in_sorted_lookup l x i :
  StronglySorted collection_key_lt l → l !! i = Some x → offset_in_sorted l x = i.
Proof.
  intros Hs Hi. apply lower_bound_finds; [done..| | |lia].
  - apply lookup_lt_Some in Hi. lia.
  - lia.
Qed.

(** Every requested key has a slot in the deduplicated set, and the binary
    search returns that slot. *)
Lemma offset_in_sorted_unique l x :
  x ∈ l →
  sort_and_deduplicate l !! offset_in_sorted (sort_and_deduplicate l) x = Some x.
Proof.
  intros Hx%elem_of_sort_and_deduplicate.
  apply list_elem_of_lookup in Hx as [i Hi].
  by rewrite (offset_in_sorted_lookup _ _ i (sort_and_deduplicate_sorted l) Hi).
Qed.

Lemma length_sort_and_deduplicate l :
  length (sort_and_deduplicate l) = size (list_to_set l : gset collection_key_t).
Proof.
  rewrite <- (size_list_to_set (C := gset collection_key_t) (sort_and_deduplicate l))
    by apply sort_and_deduplicate_NoDup.
  f_equal. apply set_eq. intros x.
  by rewrite !elem_of_list_to_set, elem_of_sort_and_deduplicate.
Qed.

Lemma all_ascending_cons k keys :
  all_ascending (k :: keys) = true → Forall (λ k', k < k') keys ∧ all_ascending keys = true.
Proof.
  revert k. induction keys as [|k' keys IH]; intros k Hasc; [by split|].
  change (all_ascending (k :: k' :: keys))
    with (bool_decide (k < k') && all_ascending (k' :: keys)) in Hasc.
  apply andb_true_iff in Hasc as [Hlt%bool_decide_eq_true Hrest].
  split; [|done].
  destruct (IH _ Hrest) as [Hall _].
  constructor; [done|]. eapply Forall_impl; [exact Hall|]. simpl. lia.
Qed.

Lemma all_ascending_NoDup (keys : list Z) : all_ascending keys = true → NoDup keys.
Proof.
  induction keys as [|k keys IH]; intros Hasc; [constructor|].
  apply all_ascending_cons in Hasc as [Hall Hrest].
  constructor; [|by apply IH].
  intros Hin. rewrite Forall_forall in Hall. specialize (Hall _ Hin). lia.
Qed.

Lemma sort_and_deduplicate_submseteq l : sort_and_deduplicate l ⊆+ l.
Proof.
  apply NoDup_submseteq; [apply sort_and_deduplicate_NoDup|].
  intros x. by rewrite elem_of_sort_and_deduplicate.
Qed.

Lemma length_sort_and_deduplicate_le l :
  (length (sort_and_deduplicate l) ≤ length l)%nat.
Proof. apply submseteq_length, sort_and_deduplicate_submseteq. Qed.

(** Deduplication that drops nothing had nothing to drop. *)
Lemma sort_and_deduplicate_same_length l :
  length (sort_and_deduplicate l) = length l → NoDup l.
Proof.
  intros Hlen.
  rewrite <- (submseteq_length_Permutation _ _ (sort_and_deduplicate_submseteq l)) by lia.
  apply sort_and_deduplicate_NoDup.
Qed.

(** Strictly ascending keys make the [(collection, key)] pairs distinct. *)
Lemma all_ascending_places_NoDup l : all_ascending (snd <$> l) = true → NoDup l.
Proof.
  intros Hasc%all_ascending_NoDup. by eapply NoDup_fmap_1.
Qed.
End PlannerFacts.

(** * Reading traces *)

Section Traces.
Context `{KvEngine}.

Lemma callbacks_of_app tr1 tr2 :
  callbacks_of (tr1 ++ tr2) = callbacks_of tr1 ++ callbacks_of tr2.
Proof. apply omap_app. Qed.

Lemma reads_of_app tr1 tr2 : reads_of (tr1 ++ tr2) = reads_of tr1 ++ reads_of tr2.
Proof. apply omap_app. Qed.

Lemma writes_of_app tr1 tr2 : writes_of (tr1 ++ tr2) = writes_of tr1 ++ writes_of tr2.
Proof. apply omap_app. Qed.

Lemma parses_of_app tr1 tr2 : parses_of (tr1 ++ tr2) = parses_of tr1 ++ parses_of tr2.
Proof. apply omap_app. Qed.

Lemma dumps_of_app tr1 tr2 : dumps_of (tr1 ++ tr2) = dumps_of tr1 ++ dumps_of tr2.
Proof. apply omap_app. Qed.

(** ** The monad *)

Lemma bind_Done {A B} (m : M A) (k : A → M B) w b w'' :
  bind m k w = Done b w'' ↔ ∃ a w', m w = Done a w' ∧ k a w' = Done b w''.
Proof.
  unfold bind. destruct (m w) as [a w'|why w']; split.
  - eauto.
  - by intros (? & ? & [= -> ->] & ?).
  - done.
  - by intros (? & ? & ? & ?).
Qed.

Lemma bind_Done_l {A B} (m : M A) (k : A → M B) w a w' :
  m w = Done a w' → bind m k w = k a w'.
Proof. unfold bind. by intros ->. Qed.

Lemma bind_Aborted_l {A B} (m : M A) (k : A → M B) w why w' :
  m w = Aborted why w' → bind m k w = Aborted why w'.
Proof. unfold bind. by intros ->. Qed.

Lemma return_if_error_m_None {A} (early : A) (k : M A) w :
  c_error w = None → return_if_error_m early k w = k w.
Proof. unfold return_if_error_m. by intros ->. Qed.

Lemma return_if_error_m_Some {A} (early : A) (k : M A) w e :
  c_error w = Some e → return_if_error_m early k w = Done early w.
Proof. unfold return_if_error_m. by intros ->. Qed.

Lemma return_if_error_m_Done {A} (early : A) (k : M A) w a w' :
  return_if_error_m early k w = Done a w' →
  (c_error w ≠ None ∧ a = early ∧ w' = w) ∨ (c_error w = None ∧ k w = Done a w').
Proof.
  unfold return_if_error_m. destruct (c_error w) eqn:He; [|by right].
  intros [= <- <-]. by left.
Qed.
End Traces.

(** * Facts about modality_nlohmann_docs.cpp *)

Section DeprecatedFacts.
Context `{Nlohmann} `{KvEngine}.
Import Deprecated.

Lemma parse_any_spec bytes c_format w :
  ∃ json w',
    parse_any bytes c_format w = Done json w' ∧
    store w' = store w ∧
    trace w' = trace w ++ [ev_parse_any bytes c_format] ∧
    match parse_result bytes c_format with
    | Some json' => json = json' ∧ c_error w' = c_error w
    | None => json = JNull ∧ c_error w' ≠ None
    end.
Proof.
  unfold parse_any, parse_result, bind, emit, safe_section, log_error, ret.
  destruct c_format; simpl;
    repeat match goal with
           | |- context [match ?call with Some _ => _ | None => _ end] =>
               destruct call; simpl
           end;
    eexists _, _; (split; [reflexivity|]); simpl; auto.
Qed.

Lemma dump_any_spec json c_format w :
  ∃ bytes w',
    dump_any json c_format w = Done bytes w' ∧
    store w' = store w ∧
    trace w' = trace w ++ [ev_dump_any json c_format] ∧
    match dump_result json c_format with
    | Some bytes' => bytes = bytes' ∧ c_error w' = c_error w
    | None => c_error w' ≠ None
    end.
Proof.
  unfold dump_any, dump_result, bind, emit, safe_section, log_error, ret.
  destruct c_format; simpl;
    try (destruct json; simpl; eexists _, _; (split; [reflexivity|]); by simpl);
    repeat match goal with
           | |- context [match ?call with Some _ => _ | None => _ end] =>
               destruct call; simpl
           end;
    eexists _, _; (split; [reflexivity|]); simpl; auto.
Qed.

(** [parse_any] after [dump_any], without error, is the reader of the
    library after its writer: whether a document survives the round trip
    in a format is a property of the library alone. *)
Lemma parse_any_after_dump_any json c_format w bytes w1 parsed w2 :
  dump_any json c_format w = Done bytes w1 →
  parse_any bytes c_format w1 = Done parsed w2 →
  c_error w2 = None →
  dump_result json c_format = Some bytes ∧ parse_result bytes c_format = Some parsed.
Proof.
  intros Hdump Hparse Hok.
  destruct (dump_any_spec json c_format w) as (bytes' & w1' & Hdump' & _ & _ & Hdumped).
  rewrite Hdump in Hdump'. injection Hdump' as <- <-.
  destruct (parse_any_spec bytes c_format w1) as (parsed' & w2' & Hparse' & _ & _ & Hparsed).
  rewrite Hparse in Hparse'. injection Hparse' as <- <-.
  destruct (parse_result bytes c_format) as [doc|]; [|by destruct Hparsed].
  destruct Hparsed as [-> Herr]. rewrite Hok in Herr.
  destruct (dump_result json c_format) as [b|]; [|congruence].
  by destruct Hdumped as [-> _].
Qed.

Lemma push_back_spec growing_tape doc c_format w :
  ∃ growing_tape' w',
    push_back growing_tape doc c_format w = Done growing_tape' w' ∧
    store w' = store w ∧
    trace w' = trace w ++ [ev_dump_any doc c_format] ∧
    (c_error w ≠ None → c_error w' ≠ None ∧ growing_tape' = growing_tape) ∧
    (c_error w = None →
       match serialized doc c_format with
       | Some entry => c_error w' = None ∧ growing_tape' = growing_tape ++ [entry]
       | None => c_error w' ≠ None ∧ growing_tape' = growing_tape
       end).
Proof.
  unfold push_back, serialized.
  destruct (dump_any_spec doc c_format w) as (bytes & w1 & Hdump & Hstore & Htrace & Hres).
  rewrite (bind_Done_l _ _ _ _ _ Hdump).
  unfold return_if_error_m, ret.
  destruct (dump_result doc c_format) as [bytes'|]; simpl.
  - destruct Hres as [-> Herr]. rewrite Herr.
    destruct (c_error w) as [e|] eqn:He; eexists _, _; (split; [reflexivity|]);
      (split; [done|]); (split; [done|]); split; try done.
    all: intros _; by rewrite Herr.
  - destruct (c_error w1) as [e|] eqn:He; [|done].
    eexists _, _; (split; [reflexivity|]); (split; [done|]); (split; [done|]).
    rewrite He. split; auto.
Qed.

Lemma checked_Done {A} (o : option A) w a w' :
  checked o w = Done a w' ↔ o = Some a ∧ w' = w.
Proof.
  destruct o; simpl; unfold ret, raise; split.
  - by intros [= -> ->].
  - by intros [[= ->] ->].
  - done.
  - by intros [? _].
Qed.

Lemma unguarded_Done {A} (o : option A) w a w' :
  unguarded o w = Done a w' ↔ o = Some a ∧ w' = w.
Proof.
  destruct o; simpl; unfold ret, raise; split.
  - by intros [= -> ->].
  - by intros [[= ->] ->].
  - done.
  - by intros [? _].
Qed.

Lemma docs_read_callback_Done c_format task_idx field parsed tape w parsed' tape' w' :
  docs_read_callback c_format task_idx field parsed tape w = Done (parsed', tape') w' →
  ∃ part,
    selected parsed field = Some part ∧ parsed' = parsed ∧
    store w' = store w ∧
    trace w' = trace w ++ [ev_dump_any part c_format] ∧
    (c_error w ≠ None → c_error w' ≠ None ∧ tape' = tape) ∧
    (c_error w = None →
       match serialized part c_format with
       | Some entry => c_error w' = None ∧ tape' = tape ++ [entry]
       | None => c_error w' ≠ None ∧ tape' = tape
       end).
Proof.
  unfold docs_read_callback, selected.
  intros (r & w1 & [Hr ->]%unguarded_Done & Hrest)%bind_Done.
  apply bind_Done in Hrest as (tape1 & w2 & Hpush & [= <- <- <-]).
  destruct (push_back_spec tape (deref parsed JNull r) c_format w)
    as (tape2 & w3 & Hpush' & Hstore & Htrace & Hsticky & Hok).
  rewrite Hpush in Hpush'. injection Hpush' as <- <-.
  exists (deref parsed JNull r). rewrite Hr. simpl.
  split; [done|]. split; [done|]. split; [done|]. split; [done|]. by split.
Qed.

(** The fast path: every blob is parsed once and every task reaches the
    callback, in task order. *)
Lemma read_unique_docs_loop_spec c_format fields found :
  ∀ task_idx tape w tape' w',
    read_unique_docs_loop (docs_read_callback c_format) fields task_idx found tape w
      = Done tape' w' →
    c_error w' = None →
    c_error w = None ∧ store w' = store w ∧
    reads_of (trace w') = reads_of (trace w) ∧
    writes_of (trace w') = writes_of (trace w) ∧
    parses_of (trace w') = parses_of (trace w) ++ ((λ b, (b, internal_format_k)) <$> found) ∧
    ∃ fs es,
      length fs = length found ∧ length es = length found ∧
      (∀ j f, fs !! j = Some f → field_view fields (task_idx + j) = Some f) ∧
      callbacks_of (trace w') =
        callbacks_of (trace w) ++ imap (λ j f, ((task_idx + j)%nat, f)) fs ∧
      tape' = tape ++ es ∧
      (∀ j b f, found !! j = Some b → fs !! j = Some f →
                es !! j = expected_entry c_format b f).
Proof.
  induction found as [|binary_doc rest IH]; intros task_idx tape w tape' w' Hrun Hok.
  { simpl in Hrun. injection Hrun as <- <-.
    repeat split; try done; [by rewrite app_nil_r|].
    exists [], []. repeat split; try done; by rewrite ?app_nil_r. }
  cbn [read_unique_docs_loop] in Hrun.
  destruct (parse_any_spec binary_doc internal_format_k w)
    as (parsed & w1 & Hparse & Hstore1 & Htrace1 & Hres).
  rewrite (bind_Done_l _ _ _ _ _ Hparse) in Hrun.
  apply return_if_error_m_Done in Hrun as [(Herr & _ & ->)|[Herr1 Hrun]]; [done|].
  apply bind_Done in Hrun as (field & w2 & [Hfield ->]%checked_Done & Hrun).
  apply bind_Done in Hrun as ([] & w3 & Hemit & Hrun).
  injection Hemit as <-.
  apply bind_Done in Hrun as ([parsed' tape1] & w4 & Hcb & Hrun).
  apply docs_read_callback_Done in Hcb
    as (part & Hpart & -> & Hstore4 & Htrace4 & _ & Hcb).
  specialize (IH _ _ _ _ _ Hrun Hok)
    as (Herr4 & Hstore & Hreads & Hwrites & Hparses & fs & es & Hfs & Hes & Hfields
        & Hcbs & -> & Hentries).
  simpl in Hcb. specialize (Hcb Herr1).
  destruct (parse_result binary_doc internal_format_k) as [parsed0|] eqn:Hparsed;
    [destruct Hres as [-> Herr0]|by destruct Hres].
  destruct (serialized part c_format) as [entry|] eqn:Hentry;
    [destruct Hcb as [_ ->]|by destruct Hcb].
  rewrite Hreads, Hwrites, Hparses, Hcbs, Htrace4, Hstore, Hstore4. simpl.
  rewrite Htrace1.
  rewrite !reads_of_app, !writes_of_app, !parses_of_app, !callbacks_of_app. simpl.
  rewrite !app_nil_r, <- !app_assoc. simpl.
  repeat split; try congruence.
  exists (field :: fs), (entry :: es). simpl.
  repeat split; try congruence.
  - intros [|j] f Hj; simpl in Hj.
    + injection Hj as <-. by rewrite Nat.add_0_r.
    + rewrite <- Nat.add_succ_comm. replace (Datatypes.S task_idx) with (task_idx + 1)%nat by lia.
      by apply Hfields.
  - rewrite Nat.add_0_r. do 2 f_equal.
    apply imap_ext. intros j f _. simpl. f_equal. lia.
  - intros [|j] b f Hb Hf; simpl in Hb, Hf.
    + injection Hb as <-. injection Hf as <-.
      unfold expected_entry. rewrite Hparsed. simpl. rewrite Hpart. simpl. by rewrite Hentry.
    + by apply Hentries.
Qed.

Lemma ukv_read_spec r w :
  ∃ found w',
    ukv_read r w = Done found w' ∧
    store w' = store w ∧
    trace w' = trace w ++ [ev_ukv_read r] ∧
    match kv_read_error (store w) r with
    | None => found = Some (kv_get (store w) <$> read_tasks r) ∧ c_error w' = c_error w
    | Some e => found = None ∧ c_error w' = Some e
    end.
Proof.
  unfold ukv_read, bind, emit, log_error, ret. simpl.
  destruct (kv_read_error (store w) r); eexists _, _; (split; [reflexivity|]); by simpl.
Qed.

Lemma parse_unique_docs_spec found :
  ∀ doc_idx parsed_docs w r w',
    parse_unique_docs doc_idx found parsed_docs w = Done r w' →
    c_error w' = None →
    (doc_idx + length found ≤ length parsed_docs)%nat →
    ∃ parsed_docs',
      r = Some parsed_docs' ∧ length parsed_docs' = length parsed_docs ∧
      store w' = store w ∧
      reads_of (trace w') = reads_of (trace w) ∧
      writes_of (trace w') = writes_of (trace w) ∧
      callbacks_of (trace w') = callbacks_of (trace w) ∧
      parses_of (trace w') =
        parses_of (trace w) ++ ((λ b, (b, internal_format_k)) <$> found) ∧
      (∀ j b, found !! j = Some b →
         ∃ parsed, parse_result b internal_format_k = Some parsed ∧
                   parsed_docs' !! (doc_idx + j)%nat = Some parsed) ∧
      (∀ k, (k < doc_idx)%nat → parsed_docs' !! k = parsed_docs !! k).
Proof.
  induction found as [|binary_doc rest IH]; intros doc_idx parsed_docs w r w' Hrun Hok Hlen.
  { simpl in Hrun. injection Hrun as <- <-. exists parsed_docs.
    repeat split; try done; by rewrite ?app_nil_r. }
  cbn [parse_unique_docs] in Hrun.
  destruct (parse_any_spec binary_doc internal_format_k w)
    as (parsed & w1 & Hparse & Hstore1 & Htrace1 & Hres).
  rewrite (bind_Done_l _ _ _ _ _ Hparse) in Hrun.
  apply return_if_error_m_Done in Hrun as [(Herr & _ & ->)|[Herr1 Hrun]]; [done|].
  simpl in Hlen.
  apply IH in Hrun as (parsed_docs' & -> & Hlen' & Hstore & Hreads & Hwrites & Hcbs
                       & Hparses & Hdocs & Hkeep); [|done|rewrite length_insert; lia].
  rewrite length_insert in Hlen'.
  destruct (parse_result binary_doc internal_format_k) as [parsed0|] eqn:Hparsed;
    [destruct Hres as [-> Herr0]|by destruct Hres].
  exists parsed_docs'.
  rewrite Hreads, Hwrites, Hparses, Hcbs, Hstore, Htrace1.
  rewrite !reads_of_app, !writes_of_app, !parses_of_app, !callbacks_of_app. simpl.
  rewrite !app_nil_r, <- !app_assoc. simpl.
  repeat split; try done.
  - intros [|j] b Hb; simpl in Hb.
    + injection Hb as <-. exists parsed0. split; [done|].
      rewrite Nat.add_0_r, Hkeep by lia.
      apply list_lookup_insert_eq. lia.
    + destruct (Hdocs _ _ Hb) as (parsed & Hp & Hl). exists parsed. split; [done|].
      by replace (doc_idx + Datatypes.S j)%nat with (doc_idx + 1 + j)%nat by lia.
  - intros k Hk. rewrite Hkeep by lia. apply list_lookup_insert_ne. lia.
Qed.

Lemma join_docs_and_fields_spec c_format unique_places fields st places :
  ∀ task_idx parsed_docs tape w tape' w',
    join_docs_and_fields (docs_read_callback c_format) unique_places fields task_idx
      places parsed_docs tape w = Done tape' w' →
    c_error w' = None →
    (∀ place, place ∈ places →
       ∃ parsed, parsed_docs !! offset_in_sorted unique_places place = Some parsed ∧
                 parse_result (kv_get st place) internal_format_k = Some parsed) →
    c_error w = None ∧ store w' = store w ∧
    reads_of (trace w') = reads_of (trace w) ∧
    writes_of (trace w') = writes_of (trace w) ∧
    parses_of (trace w') = parses_of (trace w) ∧
    ∃ fs es,
      length fs = length places ∧ length es = length places ∧
      (∀ j f, fs !! j = Some f → field_view fields (task_idx + j) = Some f) ∧
      callbacks_of (trace w') =
        callbacks_of (trace w) ++ imap (λ j f, ((task_idx + j)%nat, f)) fs ∧
      tape' = tape ++ es ∧
      (∀ j place f, places !! j = Some place → fs !! j = Some f →
                    es !! j = expected_entry c_format (kv_get st place) f).
Proof.
  induction places as [|place rest IH]; intros task_idx parsed_docs tape w tape' w' Hrun Hok Hdocs.
  { simpl in Hrun. injection Hrun as <- <-.
    repeat split; try done.
    exists [], []. repeat split; try done; by rewrite ?app_nil_r. }
  cbn [join_docs_and_fields] in Hrun.
  apply bind_Done in Hrun as (field & w1 & [Hfield ->]%checked_Done & Hrun).
  apply bind_Done in Hrun as (parsed & w2 & [Hparsed ->]%checked_Done & Hrun).
  apply bind_Done in Hrun as ([] & w3 & Hemit & Hrun).
  injection Hemit as <-.
  apply bind_Done in Hrun as ([parsed' tape1] & w4 & Hcb & Hrun).
  apply docs_read_callback_Done in Hcb
    as (part & Hpart & -> & Hstore4 & Htrace4 & Hsticky & Hcb).
  rewrite list_insert_id in Hrun by done.
  apply IH in Hrun as (Herr4 & Hstore & Hreads & Hwrites & Hparses & fs & es & Hfs & Hes
                       & Hfields & Hcbs & -> & Hentries); [|done|].
  2:{ intros p Hp. apply Hdocs. by right. }
  simpl in Hsticky, Hcb.
  destruct (c_error w) as [e|] eqn:Herr.
  { by destruct Hsticky. }
  specialize (Hcb eq_refl).
  destruct (serialized part c_format) as [entry|] eqn:Hentry;
    [destruct Hcb as [_ ->]|by destruct Hcb].
  destruct (Hdocs place) as (parsed0 & Hl0 & Hp0); [by left|].
  rewrite Hparsed in Hl0. injection Hl0 as <-.
  rewrite Hreads, Hwrites, Hparses, Hcbs, Htrace4, Hstore, Hstore4. simpl.
  rewrite !reads_of_app, !writes_of_app, !parses_of_app, !callbacks_of_app. simpl.
  rewrite !app_nil_r, <- !app_assoc. simpl.
  repeat split; try congruence.
  exists (field :: fs), (entry :: es). simpl.
  repeat split; try congruence.
  - intros [|j] f Hj; simpl in Hj.
    + injection Hj as <-. by rewrite Nat.add_0_r.
    + rewrite <- Nat.add_succ_comm.
      replace (Datatypes.S task_idx) with (task_idx + 1)%nat by lia.
      by apply Hfields.
  - rewrite Nat.add_0_r. do 2 f_equal.
    apply imap_ext. intros j f _. simpl. f_equal. lia.
  - intros [|j] b f Hb Hf; simpl in Hb, Hf.
    + injection Hb as <-. injection Hf as <-.
      unfold expected_entry. rewrite Hp0. simpl. rewrite Hpart. simpl. by rewrite Hentry.
    + by apply Hentries.
Qed.

(** The fast path reads the caller's keys as they came. *)
Lemma read_unique_docs_spec c_format c_db c_txn places c_options tape w read_order tape' w' :
  read_unique_docs (docs_read_callback c_format) c_db c_txn places c_options tape w
    = Done (read_order, tape') w' →
  c_error w' = None →
  planner_outcome c_format c_db c_txn places c_options (keys_begin places)
    tape w read_order tape' w'.
Proof.
  unfold read_unique_docs, planner_outcome, count. intros Hrun Hok.
  set (r := {| read_db := c_db; read_transaction := c_txn; read_options := c_options;
               read_tasks := keys_begin places |}) in *.
  destruct (ukv_read_spec r w) as (found & w1 & Hread & Hstore1 & Htrace1 & Hres).
  rewrite (bind_Done_l _ _ _ _ _ Hread) in Hrun.
  destruct (kv_read_error (store w) r) as [e|] eqn:Hengine.
  { destruct Hres as [-> Herr].
    destruct (keys_begin places); [|done]. injection Hrun as <- <- <-. congruence. }
  destruct Hres as [-> Herr].
  assert (Hloop : bind (read_unique_docs_loop (docs_read_callback c_format)
                          (fields_begin places) 0 (kv_get (store w) <$> keys_begin places) tape)
                    (λ s', ret (places, s')) w1 = Done (read_order, tape') w').
  { subst r. simpl in Hrun. by destruct (keys_begin places). }
  clear Hrun.
  apply bind_Done in Hloop as (tape1 & w2 & Hloop & [= <- <- <-]).
  apply read_unique_docs_loop_spec in Hloop
    as (Herr1 & Hstore & Hreads & Hwrites & Hparses & fs & es & Hfs & Hes & Hfields
        & Hcbs & -> & Hentries); [|done].
  rewrite length_fmap in Hfs, Hes.
  rewrite Hreads, Hwrites, Hparses, Hcbs, Hstore, Htrace1.
  rewrite !reads_of_app, !writes_of_app, !parses_of_app, !callbacks_of_app.
  simpl. rewrite !app_nil_r.
  repeat split; try congruence.
  { f_equal. by rewrite <- list_fmap_compose. }
  exists fs, es. repeat split; try done.
  intros j p f Hp Hf. apply (Hentries j); [|done].
  by rewrite list_lookup_fmap, Hp.
Qed.

Lemma join_docs_and_fields_sticky c_format unique_places fields places :
  ∀ task_idx parsed_docs tape w tape' w',
    join_docs_and_fields (docs_read_callback c_format) unique_places fields task_idx
      places parsed_docs tape w = Done tape' w' →
    c_error w' = None → c_error w = None.
Proof.
  induction places as [|place rest IH]; intros task_idx parsed_docs tape w tape' w' Hrun Hok.
  { simpl in Hrun. by injection Hrun as <- <-. }
  cbn [join_docs_and_fields] in Hrun.
  apply bind_Done in Hrun as (field & w1 & [_ ->]%checked_Done & Hrun).
  apply bind_Done in Hrun as (parsed & w2 & [_ ->]%checked_Done & Hrun).
  apply bind_Done in Hrun as ([] & w3 & Hemit & Hrun).
  injection Hemit as <-.
  apply bind_Done in Hrun as ([parsed' tape1] & w4 & Hcb & Hrun).
  apply docs_read_callback_Done in Hcb as (part & _ & -> & _ & _ & Hsticky & _).
  apply IH in Hrun; [|done]. simpl in Hsticky.
  destruct (c_error w) as [e|]; [|done]. by destruct Hsticky.
Qed.

Lemma read_docs_spec c_format c_db c_txn places c_options tape w read_order tape' w' :
  read_docs (docs_read_callback c_format) c_db c_txn places c_options tape w
    = Done (read_order, tape') w' →
  c_error w' = None →
  ∃ requested,
    NoDup requested ∧ (∀ k, k ∈ requested ↔ k ∈ keys_begin places) ∧
    planner_outcome c_format c_db c_txn places c_options requested
      tape w read_order tape' w'.
Proof.
  unfold read_docs. intros Hrun Hok.
  destruct (all_ascending (snd <$> keys_begin places)) eqn:Hasc.
  { exists (keys_begin places).
    split; [by apply all_ascending_places_NoDup|]. split; [done|].
    by apply read_unique_docs_spec. }
  apply return_if_error_m_Done in Hrun as [(Herr & _ & ->)|[Herr Hrun]]; [done|].
  case_bool_decide as Hlen.
  { exists (keys_begin places).
    split; [by apply sort_and_deduplicate_same_length|]. split; [done|].
    by apply read_unique_docs_spec. }
  set (unique_places := sort_and_deduplicate (keys_begin places)) in *.
  set (r := {| read_db := c_db; read_transaction := c_txn; read_options := c_options;
               read_tasks := unique_places |}) in *.
  destruct (ukv_read_spec r w) as (found & w1 & Hread & Hstore1 & Htrace1 & Hres).
  rewrite (bind_Done_l _ _ _ _ _ Hread) in Hrun.
  apply return_if_error_m_Done in Hrun as [(Herr1 & _ & ->)|[Herr1 Hrun]]; [done|].
  destruct (kv_read_error (store w) r) as [e|] eqn:Hengine; [destruct Hres; congruence|].
  destruct Hres as [-> _]. simpl in Hrun.
  rewrite (bind_Done_l _ _ w1 (kv_get (store w) <$> unique_places) w1) in Hrun by done.
  apply bind_Done in Hrun as (parsed_docs & w2 & Hparse & Hrun).
  destruct parsed_docs as [parsed_docs|].
  2:{ injection Hrun as <- <- <-.
      apply parse_unique_docs_spec in Hparse as (? & ? & _); [done|done|].
      rewrite length_replicate, length_fmap. apply length_sort_and_deduplicate_le. }
  apply bind_Done in Hrun as (tape1 & w3 & Hjoin & [= <- <- <-]).
  pose proof (join_docs_and_fields_sticky _ _ _ _ _ _ _ _ _ _ Hjoin Hok) as Herr2.
  apply parse_unique_docs_spec in Hparse
    as (parsed_docs' & [= <-] & Hlen' & Hstore2 & Hreads2 & Hwrites2 & Hcbs2 & Hparses2
        & Hdocs & _); [|done|].
  2:{ rewrite length_replicate, length_fmap. apply length_sort_and_deduplicate_le. }
  apply (join_docs_and_fields_spec _ _ _ (store w)) in Hjoin
    as (_ & Hstore3 & Hreads3 & Hwrites3 & Hparses3 & fs & es & Hfs & Hes & Hfields
        & Hcbs3 & -> & Hentries); [|done|].
  2:{ intros place Hplace.
      pose proof (offset_in_sorted_unique _ _ Hplace) as Hslot.
      fold unique_places in Hslot.
      destruct (Hdocs (offset_in_sorted unique_places place) (kv_get (store w) place))
        as (parsed & Hp & Hl).
      { by rewrite list_lookup_fmap, Hslot. }
      exists parsed. by split. }
  exists unique_places.
  split; [apply sort_and_deduplicate_NoDup|].
  split; [intros k; apply elem_of_sort_and_deduplicate|].
  unfold planner_outcome.
  rewrite Hreads3, Hwrites3, Hparses3, Hcbs3, Hstore3.
  rewrite Hreads2, Hwrites2, Hparses2, Hcbs2, Hstore2, Htrace1.
  rewrite !reads_of_app, !writes_of_app, !parses_of_app, !callbacks_of_app.
  simpl. rewrite !app_nil_r.
  repeat split; try congruence.
  { f_equal. by rewrite <- list_fmap_compose. }
  exists fs, es. repeat split; try done.
Qed.
End DeprecatedFacts.

(** * The planner on every path, failing ones included *)

Section PlannerFrames.
Context `{Nlohmann} `{KvEngine}.
Import Deprecated.

Lemma docs_read_callback_frame c_format task_idx field parsed tape w :
  parsed_only w (docs_read_callback c_format task_idx field parsed tape w) [].
Proof.
  unfold parsed_only, docs_read_callback. rewrite app_nil_r.
  destruct (lookup_field parsed field) as [r|]; simpl.
  2:{ done. }
  rewrite (bind_Done_l _ _ w r w) by done.
  destruct (push_back_spec tape (deref parsed JNull r) c_format w)
    as (tape1 & w1 & Hpush & _ & Htrace & _).
  rewrite (bind_Done_l _ _ _ _ _ Hpush). simpl.
  rewrite Htrace, reads_of_app, parses_of_app. simpl. by rewrite !app_nil_r.
Qed.

Lemma read_unique_docs_loop_frame c_format fields found :
  ∀ task_idx tape w,
    ∃ n, parsed_only w
           (read_unique_docs_loop (docs_read_callback c_format) fields task_idx found tape w)
           ((λ b, (b, internal_format_k)) <$> take n found).
Proof.
  induction found as [|binary_doc rest IH]; intros task_idx tape w.
  { exists 0%nat. unfold parsed_only. simpl. by rewrite app_nil_r. }
  cbn [read_unique_docs_loop].
  destruct (parse_any_spec binary_doc internal_format_k w)
    as (parsed & w1 & Hparse & _ & Htrace1 & _).
  rewrite (bind_Done_l _ _ _ _ _ Hparse).
  assert (reads_of (trace w1) = reads_of (trace w)) as Hreads1.
  { rewrite Htrace1, reads_of_app. simpl. by rewrite app_nil_r. }
  assert (parses_of (trace w1) = parses_of (trace w) ++ [(binary_doc, internal_format_k)])
    as Hparses1.
  { by rewrite Htrace1, parses_of_app. }
  destruct (c_error w1) as [e|] eqn:Herr1.
  { rewrite (return_if_error_m_Some _ _ _ e) by done. by exists 1%nat. }
  rewrite return_if_error_m_None by done.
  unfold field_at. destruct (field_view fields task_idx) as [field|]; simpl.
  2:{ rewrite (bind_Aborted_l _ _ w1 undefined_behaviour w1) by done. by exists 1%nat. }
  rewrite (bind_Done_l _ _ w1 field w1) by done.
  set (w2 := {| store := store w1; c_error := c_error w1;
                trace := trace w1 ++ [ev_callback task_idx field] |}).
  rewrite (bind_Done_l _ _ w1 tt w2) by done.
  assert (reads_of (trace w2) = reads_of (trace w)) as Hreads2'.
  { unfold w2. simpl. rewrite reads_of_app. simpl. by rewrite app_nil_r. }
  assert (parses_of (trace w2) = parses_of (trace w1)) as Hparses2'.
  { unfold w2. simpl. rewrite parses_of_app. simpl. by rewrite app_nil_r. }
  clearbody w2.
  destruct (docs_read_callback_frame c_format task_idx field parsed tape w2)
    as [Hreads2 Hparses2].
  rewrite app_nil_r in Hparses2.
  destruct (docs_read_callback c_format task_idx field parsed tape w2)
    as [[parsed' tape'] w3|why w3] eqn:Hcb; simpl in Hreads2, Hparses2.
  2:{ rewrite (bind_Aborted_l _ _ _ _ _ Hcb). exists 1%nat.
      unfold parsed_only. simpl. split; congruence. }
  rewrite (bind_Done_l _ _ _ _ _ Hcb).
  destruct (IH (task_idx + 1)%nat tape' w3) as (n & Hreads & Hparses).
  exists (Datatypes.S n). unfold parsed_only. simpl.
  rewrite Hreads, Hparses, Hreads2, Hparses2, Hparses2', Hparses1, <- app_assoc.
  split; [congruence|done].
Qed.

Lemma parse_unique_docs_frame found :
  ∀ doc_idx parsed_docs w,
    ∃ n, parsed_only w (parse_unique_docs doc_idx found parsed_docs w)
           ((λ b, (b, internal_format_k)) <$> take n found).
Proof.
  induction found as [|binary_doc rest IH]; intros doc_idx parsed_docs w.
  { exists 0%nat. unfold parsed_only. simpl. by rewrite app_nil_r. }
  cbn [parse_unique_docs].
  destruct (parse_any_spec binary_doc internal_format_k w)
    as (parsed & w1 & Hparse & _ & Htrace1 & _).
  rewrite (bind_Done_l _ _ _ _ _ Hparse).
  assert (reads_of (trace w1) = reads_of (trace w)) as Hreads1.
  { rewrite Htrace1, reads_of_app. simpl. by rewrite app_nil_r. }
  assert (parses_of (trace w1) = parses_of (trace w) ++ [(binary_doc, internal_format_k)])
    as Hparses1.
  { by rewrite Htrace1, parses_of_app. }
  destruct (c_error w1) as [e|] eqn:Herr1.
  { rewrite (return_if_error_m_Some _ _ _ e) by done. by exists 1%nat. }
  rewrite return_if_error_m_None by done.
  destruct (IH (doc_idx + 1)%nat (<[doc_idx := parsed]> parsed_docs) w1)
    as (n & Hreads & Hparses).
  exists (Datatypes.S n). unfold parsed_only. simpl.
  rewrite Hreads, Hparses, Hparses1, <- app_assoc. split; [congruence|done].
Qed.

Lemma join_docs_and_fields_frame c_format unique_places fields places :
  ∀ task_idx parsed_docs tape w,
    parsed_only w
      (join_docs_and_fields (docs_read_callback c_format) unique_places fields task_idx
         places parsed_docs tape w) [].
Proof.
  induction places as [|place rest IH]; intros task_idx parsed_docs tape w.
  { unfold parsed_only. simpl. by rewrite app_nil_r. }
  cbn [join_docs_and_fields]. cbn zeta.
  unfold field_at. destruct (field_view fields task_idx) as [field|]; simpl.
  2:{ rewrite (bind_Aborted_l _ _ w undefined_behaviour w) by done.
      unfold parsed_only. simpl. by rewrite app_nil_r. }
  rewrite (bind_Done_l _ _ w field w) by done.
  destruct (parsed_docs !! offset_in_sorted unique_places place) as [parsed|]; simpl.
  2:{ rewrite (bind_Aborted_l _ _ w undefined_behaviour w) by done.
      unfold parsed_only. simpl. by rewrite app_nil_r. }
  rewrite (bind_Done_l _ _ w parsed w) by done.
  set (w2 := {| store := store w; c_error := c_error w;
                trace := trace w ++ [ev_callback task_idx field] |}).
  rewrite (bind_Done_l _ _ w tt w2) by done.
  assert (reads_of (trace w2) = reads_of (trace w)) as Hreads2'.
  { unfold w2. simpl. rewrite reads_of_app. simpl. by rewrite app_nil_r. }
  assert (parses_of (trace w2) = parses_of (trace w)) as Hparses2'.
  { unfold w2. simpl. rewrite parses_of_app. simpl. by rewrite app_nil_r. }
  clearbody w2.
  destruct (docs_read_callback_frame c_format task_idx field parsed tape w2)
    as [Hreads2 Hparses2].
  rewrite app_nil_r in Hparses2.
  destruct (docs_read_callback c_format task_idx field parsed tape w2)
    as [[parsed' tape'] w3|why w3] eqn:Hcb; simpl in Hreads2, Hparses2.
  2:{ rewrite (bind_Aborted_l _ _ _ _ _ Hcb).
      unfold parsed_only. simpl. rewrite app_nil_r. split; congruence. }
  rewrite (bind_Done_l _ _ _ _ _ Hcb).
  destruct (IH (task_idx + 1)%nat
              (<[offset_in_sorted unique_places place := parsed']> parsed_docs) tape' w3)
    as (Hreads & Hparses).
  unfold parsed_only. rewrite Hreads, Hparses, !app_nil_r. split; congruence.
Qed.

(** What the planner has asked of the engine and of the parser when the
    call ends, however it ends: one read of [requested] and the parse of the
    first [n] blobs found. *)
Lemma read_unique_docs_frame c_format c_db c_txn places c_options tape w :
  ∃ n,
    reads_of (trace (final (read_unique_docs (docs_read_callback c_format) c_db c_txn
                              places c_options tape w)))
    = reads_of (trace w) ++ [{| read_db := c_db; read_transaction := c_txn;
                                read_options := c_options;
                                read_tasks := keys_begin places |}] ∧
    parses_of (trace (final (read_unique_docs (docs_read_callback c_format) c_db c_txn
                               places c_options tape w)))
    = parses_of (trace w)
      ++ ((λ k, (kv_get (store w) k, internal_format_k)) <$> take n (keys_begin places)).
Proof.
  unfold read_unique_docs.
  set (r := {| read_db := c_db; read_transaction := c_txn; read_options := c_options;
               read_tasks := keys_begin places |}).
  destruct (ukv_read_spec r w) as (found & w1 & Hread & _ & Htrace1 & Hres).
  rewrite (bind_Done_l _ _ _ _ _ Hread).
  assert (reads_of (trace w1) = reads_of (trace w) ++ [r]) as Hreads1.
  { by rewrite Htrace1, reads_of_app. }
  assert (parses_of (trace w1) = parses_of (trace w)) as Hparses1.
  { rewrite Htrace1, parses_of_app. simpl. by rewrite app_nil_r. }
  destruct (keys_begin places) as [|key keys] eqn:Hkeys.
  { exists 0%nat. destruct found; simpl; by rewrite app_nil_r. }
  destruct (kv_read_error (store w) r) as [e|].
  { destruct Hres as [-> _]. exists 0%nat. simpl. by rewrite app_nil_r. }
  destruct Hres as [-> _].
  destruct (read_unique_docs_loop_frame c_format (fields_begin places)
              (kv_get (store w) <$> read_tasks r) 0%nat tape w1) as (n & Hreads & Hparses).
  exists n.
  destruct (read_unique_docs_loop (docs_read_callback c_format) (fields_begin places) 0
              (kv_get (store w) <$> read_tasks r) tape w1) as [tape' w2|why w2] eqn:Hloop;
    [rewrite (bind_Done_l _ _ _ _ _ Hloop)|rewrite (bind_Aborted_l _ _ _ _ _ Hloop)];
    simpl in *; rewrite Hreads, Hparses, Hreads1, Hparses1;
    (split; [done|]); f_equal;
    change (kv_get (store w) key :: list_fmap _ _ (kv_get (store w)) keys)
      with (kv_get (store w) <$> (key :: keys));
    by rewrite <- fmap_take, <- list_fmap_compose.
Qed.

Lemma read_docs_frame c_format c_db c_txn places c_options tape w :
  c_error w = None →
  ∃ requested n,
    NoDup requested ∧ (∀ k, k ∈ requested ↔ k ∈ keys_begin places) ∧
    reads_of (trace (final (read_docs (docs_read_callback c_format) c_db c_txn
                              places c_options tape w)))
    = reads_of (trace w) ++ [{| read_db := c_db; read_transaction := c_txn;
                                read_options := c_options; read_tasks := requested |}] ∧
    parses_of (trace (final (read_docs (docs_read_callback c_format) c_db c_txn
                               places c_options tape w)))
    = parses_of (trace w)
      ++ ((λ k, (kv_get (store w) k, internal_format_k)) <$> take n requested).
Proof.
  intros Herr. unfold read_docs.
  destruct (read_unique_docs_frame c_format c_db c_txn places c_options tape w)
    as (n0 & Hreads0 & Hparses0).
  destruct (all_ascending (snd <$> keys_begin places)) eqn:Hasc.
  { exists (keys_begin places), n0.
    split; [by apply all_ascending_places_NoDup|]. by split. }
  rewrite return_if_error_m_None by done.
  case_bool_decide as Hlen.
  { exists (keys_begin places), n0.
    split; [by apply sort_and_deduplicate_same_length|]. by split. }
  clear n0 Hreads0 Hparses0.
  set (unique_places := sort_and_deduplicate (keys_begin places)) in *.
  set (r := {| read_db := c_db; read_transaction := c_txn; read_options := c_options;
               read_tasks := unique_places |}).
  exists unique_places.
  assert (NoDup unique_places ∧ (∀ k, k ∈ unique_places ↔ k ∈ keys_begin places))
    as [Hnodup Helems].
  { split; [apply sort_and_deduplicate_NoDup|intros k; apply elem_of_sort_and_deduplicate]. }
  destruct (ukv_read_spec r w) as (found & w1 & Hread & Hstore1 & Htrace1 & Hres).
  rewrite (bind_Done_l _ _ _ _ _ Hread).
  assert (reads_of (trace w1) = reads_of (trace w) ++ [r]) as Hreads1.
  { by rewrite Htrace1, reads_of_app. }
  assert (parses_of (trace w1) = parses_of (trace w)) as Hparses1.
  { rewrite Htrace1, parses_of_app. simpl. by rewrite app_nil_r. }
  destruct (c_error w1) as [e|] eqn:Herr1.
  { rewrite (return_if_error_m_Some _ _ _ e) by done.
    exists 0%nat. simpl. by rewrite app_nil_r. }
  rewrite return_if_error_m_None by done.
  destruct (kv_read_error (store w) r) as [e|]; [destruct Hres; congruence|].
  destruct Hres as [-> _]. simpl.
  rewrite (bind_Done_l _ _ w1 (kv_get (store w) <$> unique_places) w1) by done.
  destruct (parse_unique_docs_frame (kv_get (store w) <$> unique_places) 0%nat
              (replicate (count places) JNull) w1) as (n & Hreads2 & Hparses2).
  exists n.
  rewrite <- fmap_take, <- list_fmap_compose in Hparses2.
  destruct (parse_unique_docs 0 (kv_get (store w) <$> unique_places)
              (replicate (count places) JNull) w1) as [parsed_docs w2|why w2] eqn:Hparse;
    simpl in Hreads2, Hparses2.
  2:{ rewrite (bind_Aborted_l _ _ _ _ _ Hparse). simpl.
      rewrite Hreads2, Hparses2, Hreads1, Hparses1. done. }
  rewrite (bind_Done_l _ _ _ _ _ Hparse).
  destruct parsed_docs as [parsed_docs|].
  2:{ simpl. rewrite Hreads2, Hparses2, Hreads1, Hparses1. done. }
  destruct (join_docs_and_fields_frame c_format unique_places (fields_begin places)
              (keys_begin places) 0%nat parsed_docs tape w2) as [Hreads3 Hparses3].
  rewrite app_nil_r in Hparses3.
  destruct (join_docs_and_fields (docs_read_callback c_format) unique_places
              (fields_begin places) 0 (keys_begin places) parsed_docs tape w2)
    as [tape' w3|why w3] eqn:Hjoin; simpl in Hreads3, Hparses3;
    [rewrite (bind_Done_l _ _ _ _ _ Hjoin)|rewrite (bind_Aborted_l _ _ _ _ _ Hjoin)];
    simpl; rewrite Hreads3, Hparses3, Hreads2, Hparses2, Hreads1, Hparses1; done.
Qed.
End PlannerFrames.

(** * The batch read planner behind [ukv_docs_read] *)

Section PlannerClaims.
Context `{Nlohmann} `{KvEngine}.
Import Deprecated.

(** A read that returns without error and was not forwarded went through
    [read_docs] under [docs_read_callback]. *)
Lemma ukv_docs_read_planned c w out w' :
  ukv_docs_read c w = Done out w' →
  c_error w' = None →
  forwards_read c = false →
  ∃ read_order tape,
    out = Some tape ∧ c_error w = None ∧
    read_docs (docs_read_callback (dr_format c)) (dr_db c) (dr_transaction c)
      {| keys_begin := dr_tasks c; fields_begin := dr_fields c |} (dr_options c) [] w
    = Done (read_order, tape) w'.
Proof.
  unfold ukv_docs_read, forwards_read. intros Hrun Hok Hplan.
  apply return_if_error_m_Done in Hrun as [(Herr & _ & ->)|[Herr Hrun]]; [done|].
  rewrite Hplan in Hrun.
  destruct (dr_db c) as [db|] eqn:Hdb.
  2:{ apply bind_Done in Hrun as ([] & w1 & [= <-] & [= <- <-]). done. }
  rewrite return_if_error_m_None in Hrun by done.
  apply bind_Done in Hrun as ([read_order tape] & w1 & Hread & [= <- <-]).
  by exists read_order, tape.
Qed.

(** C3.  Batched reads preserve the caller's order: whenever
    [ukv_docs_read] returns a tape without error, the tape has one entry
    per input tuple and its i-th entry answers the i-th tuple (the stored
    blob itself when the call is forwarded to the engine, otherwise the
    dump of the selected part of the document stored under the i-th key);
    and the planner invokes the per-entry callback exactly once per tuple,
    for the tasks 0, 1, ..., n-1 in this order, whatever the duplicates and
    the order of the keys. *)
Theorem docs_read_serves_caller_order (c : ukv_docs_read_t) (w : world)
    (tape : list value_view_t) (w' : world) :
  ukv_docs_read c w = Done (Some tape) w' →
  c_error w' = None →
  length tape = length (dr_tasks c) ∧
  (∀ i place, dr_tasks c !! i = Some place →
     if forwards_read c
     then tape !! i = Some (kv_get (store w) place)
     else ∃ field, field_view (dr_fields c) i = Some field ∧
                   tape !! i = expected_entry (dr_format c) (kv_get (store w) place) field) ∧
  (forwards_read c = false →
     ∃ fields,
       length fields = length (dr_tasks c) ∧
       (∀ i f, fields !! i = Some f → field_view (dr_fields c) i = Some f) ∧
       callbacks_of (trace w') = callbacks_of (trace w) ++ imap (λ i f, (i, f)) fields).
Proof.
  intros Hrun Hok.
  destruct (forwards_read c) eqn:Hfwd.
  - unfold ukv_docs_read in Hrun. unfold forwards_read in Hfwd.
    apply return_if_error_m_Done in Hrun as [(Herr & [=] & _)|[Herr Hrun]].
    rewrite Hfwd in Hrun.
    match type of Hrun with ukv_read ?r _ = _ =>
      destruct (ukv_read_spec r w) as (found & w1 & Hread & Hstore & Htrace & Hres)
    end.
    rewrite Hrun in Hread. injection Hread as <- <-.
    simpl in Hres.
    match type of Hres with match ?e with _ => _ end =>
      destruct e; [by destruct Hres|destruct Hres as [[= ->] _]]
    end.
    split; [by rewrite length_fmap|]. split; [|done].
    intros i place Hplace. by rewrite list_lookup_fmap, Hplace.
  - destruct (ukv_docs_read_planned _ _ _ _ Hrun Hok Hfwd)
      as (read_order & tape0 & [= <-] & Herr & Hread).
    apply read_docs_spec in Hread as (requested & _ & _ & Hout); [|done].
    destruct Hout as (_ & Hstore & _ & _ & _ & _ & fs & es & Hfs & Hes & Hfields
                      & Hcbs & -> & Hentries).
    unfold count in Hfs, Hes. simpl in *.
    split; [done|]. split.
    + intros i place Hplace.
      destruct (fs !! i) as [f|] eqn:Hf.
      2:{ apply lookup_ge_None in Hf. apply lookup_lt_Some in Hplace. lia. }
      exists f. split; [by apply Hfields|]. by apply (Hentries i).
    + intros _. by exists fs.
Qed.

(** A planned read that returns without error has parsed the blob of every
    requested pair, once. *)
Lemma planned_read_parses_every_document (c : ukv_docs_read_t) (w : world)
    (out : option (list value_view_t)) (w' : world) :
  ukv_docs_read c w = Done out w' →
  c_error w' = None →
  forwards_read c = false →
  ∃ requested,
    reads_of (trace w') =
      reads_of (trace w) ++ [{| read_db := dr_db c; read_transaction := dr_transaction c;
                                read_options := dr_options c; read_tasks := requested |}] ∧
    parses_of (trace w') =
      parses_of (trace w) ++ ((λ k, (kv_get (store w) k, internal_format_k)) <$> requested).
Proof.
  intros Hrun Hok Hfwd.
  destruct (ukv_docs_read_planned _ _ _ _ Hrun Hok Hfwd)
    as (read_order & tape & -> & Herr & Hread).
  apply read_docs_spec in Hread as (requested & _ & _ & Hout); [|done].
  destruct Hout as (_ & _ & Hreads & _ & Hparses & _).
  by exists requested.
Qed.

(** C4, as amended.  A call of [ukv_docs_read] that is not forwarded to the
    engine by the short-circuit, with a database and no error pending,
    issues exactly one [ukv_read], however the call ends; that read requests
    pairwise distinct [(collection, key)] pairs, as many as the input has
    unique pairs; the blobs parsed during the call are those of the first
    [n] requested pairs, each parsed once, and of all the requested pairs
    when the call returns without error. *)
Theorem planned_read_fetches_unique_documents_once (c : ukv_docs_read_t) (w : world) :
  c_error w = None →
  dr_db c ≠ None →
  forwards_read c = false →
  ∃ requested n,
    reads_of (trace (final (ukv_docs_read c w))) =
      reads_of (trace w) ++ [{| read_db := dr_db c; read_transaction := dr_transaction c;
                                read_options := dr_options c; read_tasks := requested |}] ∧
    length requested = size (list_to_set (dr_tasks c) : gset collection_key_t) ∧
    NoDup requested ∧
    (∀ k, k ∈ requested ↔ k ∈ dr_tasks c) ∧
    parses_of (trace (final (ukv_docs_read c w))) =
      parses_of (trace w)
      ++ ((λ k, (kv_get (store w) k, internal_format_k)) <$> take n requested) ∧
    (∀ out w', ukv_docs_read c w = Done out w' → c_error w' = None →
               take n requested = requested).
Proof.
  intros Herr Hdb Hfwd.
  destruct (read_docs_frame (dr_format c) (dr_db c) (dr_transaction c)
              {| keys_begin := dr_tasks c; fields_begin := dr_fields c |} (dr_options c) [] w
              Herr) as (requested & n & Hnodup & Helems & Hreads & Hparses).
  simpl in Helems.
  assert (reads_of (trace (final (ukv_docs_read c w))) =
            reads_of (trace w) ++ [{| read_db := dr_db c;
                                      read_transaction := dr_transaction c;
                                      read_options := dr_options c;
                                      read_tasks := requested |}] ∧
          parses_of (trace (final (ukv_docs_read c w))) =
            parses_of (trace w)
            ++ ((λ k, (kv_get (store w) k, internal_format_k)) <$> take n requested))
    as [Hreads' Hparses'].
  { unfold ukv_docs_read. unfold forwards_read in Hfwd.
    rewrite return_if_error_m_None by done. rewrite Hfwd.
    destruct (dr_db c) as [db|] eqn:Hdb'; [|done].
    rewrite return_if_error_m_None by done.
    destruct (read_docs (docs_read_callback (dr_format c)) (Some db) (dr_transaction c)
                {| keys_begin := dr_tasks c; fields_begin := dr_fields c |} (dr_options c)
                [] w) as [[read_order tape] w1|why w1] eqn:Hrun;
      [rewrite (bind_Done_l _ _ _ _ _ Hrun)|rewrite (bind_Aborted_l _ _ _ _ _ Hrun)];
      by simpl in *. }
  exists requested, n.
  split; [done|]. split.
  { rewrite <- (size_list_to_set (C := gset collection_key_t) requested) by done.
    f_equal. apply set_eq. intros k. by rewrite !elem_of_list_to_set. }
  split; [done|]. split; [done|]. split; [done|].
  intros out w' Hrun Hok.
  destruct (planned_read_parses_every_document c w out w' Hrun Hok Hfwd)
    as (requested' & Hreads1 & Hparses1).
  rewrite Hrun in Hreads', Hparses'. simpl in Hreads', Hparses'.
  rewrite Hreads' in Hreads1. apply app_inv_head in Hreads1.
  injection Hreads1 as <-.
  rewrite Hparses' in Hparses1. apply app_inv_head in Hparses1.
  apply (f_equal length) in Hparses1. rewrite !length_fmap in Hparses1.
  apply take_ge. rewrite length_take in Hparses1. lia.
Qed.
End PlannerClaims.

(** * The read and write paths of logic_docs.cpp *)

Section LogicDocsFacts.
Context `{Nlohmann} `{KvEngine}.

Lemma logic_parse_any_Done bytes c_format w json w' :
  LogicDocs.parse_any bytes c_format w = Done json w' →
  store w' = store w ∧
  trace w' = trace w ++ [ev_parse_any bytes c_format] ∧
  (c_error w' = None →
   c_error w = None ∧ LogicDocs.parse_result bytes c_format = Some json).
Proof.
  unfold LogicDocs.parse_any, LogicDocs.parse_result.
  intros Hrun. apply bind_Done in Hrun as ([] & w1 & [= <-] & Hrun).
  destruct c_format; simpl in *;
    try (apply unguarded_Done in Hrun as [-> ->]; by simpl);
    try (injection Hrun as <- <-; by simpl).
Qed.

Lemma logic_dump_any_Done json c_format w bytes w' :
  LogicDocs.dump_any json c_format w = Done bytes w' →
  store w' = store w ∧
  trace w' = trace w ++ [ev_dump_any json c_format] ∧
  (c_error w' = None →
   c_error w = None ∧ LogicDocs.dump_result json c_format = Some bytes).
Proof.
  unfold LogicDocs.dump_any, LogicDocs.dump_result.
  intros Hrun. apply bind_Done in Hrun as ([] & w1 & [= <-] & Hrun).
  destruct c_format; simpl in *;
    try (apply unguarded_Done in Hrun as [-> ->]; by simpl);
    try (injection Hrun as <- <-; by simpl).
Qed.

Lemma parse_found_spec c_format found :
  ∀ i parsed_values w r w',
    LogicDocs.parse_found c_format i found parsed_values w = Done r w' →
    c_error w' = None →
    (i + length found ≤ length parsed_values)%nat →
    ∃ parsed_values',
      r = Some parsed_values' ∧ length parsed_values' = length parsed_values ∧
      c_error w = None ∧ store w' = store w ∧
      reads_of (trace w') = reads_of (trace w) ∧
      writes_of (trace w') = writes_of (trace w) ∧
      parses_of (trace w') = parses_of (trace w) ++ ((λ b, (b, c_format)) <$> found) ∧
      (∀ j b, found !! j = Some b →
         ∃ parsed, LogicDocs.parse_result b c_format = Some parsed ∧
                   parsed_values' !! (i + j)%nat = Some parsed) ∧
      (∀ k, (k < i)%nat → parsed_values' !! k = parsed_values !! k).
Proof.
  induction found as [|found_value rest IH]; intros i parsed_values w r w' Hrun Hok Hlen.
  { simpl in Hrun. injection Hrun as <- <-. exists parsed_values.
    repeat split; try done; by rewrite ?app_nil_r. }
  cbn [LogicDocs.parse_found] in Hrun.
  apply bind_Done in Hrun as (parsed & w1 & Hparse & Hrun).
  apply logic_parse_any_Done in Hparse as (Hstore1 & Htrace1 & Hres).
  apply return_if_error_m_Done in Hrun as [(Herr & _ & ->)|[Herr1 Hrun]]; [done|].
  simpl in Hlen.
  apply IH in Hrun as (parsed_values' & -> & Hlen' & _ & Hstore & Hreads & Hwrites
                       & Hparses & Hdocs & Hkeep); [|done|rewrite length_insert; lia].
  rewrite length_insert in Hlen'.
  destruct (Hres Herr1) as [Herr0 Hparsed].
  exists parsed_values'.
  rewrite Hreads, Hwrites, Hparses, Hstore, Htrace1.
  rewrite !reads_of_app, !writes_of_app, !parses_of_app. simpl.
  rewrite !app_nil_r, <- !app_assoc. simpl.
  repeat split; try done.
  - intros [|j] b Hb; simpl in Hb.
    + injection Hb as <-. exists parsed. split; [done|].
      rewrite Nat.add_0_r, Hkeep by lia.
      apply list_lookup_insert_eq. lia.
    + destruct (Hdocs _ _ Hb) as (parsed1 & Hp & Hl). exists parsed1. split; [done|].
      by replace (i + Datatypes.S j)%nat with (i + 1 + j)%nat by lia.
  - intros k Hk. rewrite Hkeep by lia. apply list_lookup_insert_ne. lia.
Qed.

(** What the export of one task leaves in [temporary_buffer]. *)
Lemma export_field_Done c_format parsed field w bytes w' :
  match field with
  | Some f =>
      if decide (first_char f = "/"%char) then
        if json_pointer_ok f
        then if contains parsed f
             then LogicDocs.dump_any (at_pointer parsed f) c_format
             else LogicDocs.dump_any JNull c_format
        else raise uncaught_exception
      else
        match find parsed f with
        | Some member => LogicDocs.dump_any member c_format
        | None => LogicDocs.dump_any JNull c_format
        end
  | None => LogicDocs.dump_any parsed c_format
  end w = Done bytes w' →
  ∃ part,
    LogicDocs.selected parsed field = Some part ∧
    LogicDocs.dump_any part c_format w = Done bytes w'.
Proof.
  unfold LogicDocs.selected. destruct field as [f|]; [|by exists parsed].
  destruct (decide (first_char f = "/"%char)).
  - destruct (json_pointer_ok f); [|done].
    destruct (contains parsed f); eauto.
  - destruct (find parsed f); simpl; eauto.
Qed.

Lemma export_tasks_spec updated_keys fields c_format parsed_values tasks :
  ∀ i growing_tape w r w',
    LogicDocs.export_tasks updated_keys fields c_format parsed_values i tasks growing_tape w
      = Done r w' →
    c_error w' = None →
    ∃ es,
      r = Some (growing_tape ++ es) ∧ length es = length tasks ∧
      c_error w = None ∧ store w' = store w ∧
      reads_of (trace w') = reads_of (trace w) ∧
      writes_of (trace w') = writes_of (trace w) ∧
      parses_of (trace w') = parses_of (trace w) ∧
      (∀ j task, tasks !! j = Some task →
         ∃ parsed field,
           parsed_values !! offset_in_sorted updated_keys task = Some parsed ∧
           field_view fields (i + j) = Some field ∧
           es !! j = LogicDocs.exported c_format parsed field).
Proof.
  induction tasks as [|task rest IH]; intros i growing_tape w r w' Hrun Hok.
  { simpl in Hrun. injection Hrun as <- <-. exists [].
    rewrite app_nil_r. repeat split; done. }
  cbn [LogicDocs.export_tasks] in Hrun. cbn zeta in Hrun.
  apply bind_Done in Hrun as (parsed & w0 & Hparsed & Hrun).
  apply checked_Done in Hparsed as [Hparsed ->].
  apply bind_Done in Hrun as (field & w0 & Hfield & Hrun).
  apply checked_Done in Hfield as [Hfield ->].
  apply bind_Done in Hrun as (bytes & w1 & Hdump & Hrun).
  apply export_field_Done in Hdump as (part & Hpart & Hdump).
  apply logic_dump_any_Done in Hdump as (Hstore1 & Htrace1 & Hres).
  apply return_if_error_m_Done in Hrun as [(Herr & _ & ->)|[Herr1 Hrun]]; [done|].
  destruct (Hres Herr1) as [Herr0 Hbytes].
  apply IH in Hrun as (es & -> & Hlen & _ & Hstore & Hreads & Hwrites & Hparses & Hentries);
    [|done].
  eexists (_ :: es). rewrite <- app_assoc. simpl.
  rewrite Hreads, Hwrites, Hparses, Hstore, Htrace1.
  rewrite !reads_of_app, !writes_of_app, !parses_of_app. simpl. rewrite !app_nil_r.
  repeat split; try done; [by rewrite Hlen|].
  intros [|j] task0 Htask; simpl in Htask.
  - injection Htask as <-. exists parsed, field. rewrite Nat.add_0_r.
    repeat split; try done. simpl.
    unfold LogicDocs.exported. rewrite Hpart. simpl. by rewrite Hbytes.
  - destruct (Hentries _ _ Htask) as (parsed1 & field1 & Hp & Hf & He).
    exists parsed1, field1.
    by replace (i + Datatypes.S j)%nat with (i + 1 + j)%nat by lia.
Qed.

(** X14.  The read of logic_docs.cpp that is not forwarded to the engine
    and returns without error: one [ukv_read] of the sorted, deduplicated
    keys, one parse per blob found (in the caller's format), one tape entry
    per task, in the caller's order. *)
Lemma logic_docs_read_planned (c : ukv_docs_read_t) (w : world)
    (out : option (list value_view_t)) (w' : world) :
  LogicDocs.ukv_docs_read c w = Done out w' →
  c_error w' = None →
  negb (LogicDocs.non_null (dr_fields c)) && bool_decide (dr_format c = internal_format_k)
    = false →
  ∃ tape,
    out = Some tape ∧ length tape = length (dr_tasks c) ∧
    store w' = store w ∧
    reads_of (trace w') =
      reads_of (trace w) ++ [{| read_db := dr_db c; read_transaction := dr_transaction c;
                                read_options := dr_options c;
                                read_tasks := sort_and_deduplicate (dr_tasks c) |}] ∧
    writes_of (trace w') = writes_of (trace w) ∧
    parses_of (trace w') =
      parses_of (trace w)
      ++ ((λ k, (kv_get (store w) k, dr_format c)) <$> sort_and_deduplicate (dr_tasks c)) ∧
    (∀ i place, dr_tasks c !! i = Some place →
       ∃ field, field_view (dr_fields c) i = Some field ∧
                tape !! i
                = LogicDocs.expected_entry (dr_format c) (kv_get (store w) place) field).
Proof.
  unfold LogicDocs.ukv_docs_read. intros Hrun Hok Hplan. rewrite Hplan in Hrun.
  destruct (dr_db c) as [db|] eqn:Hdb.
  2:{ apply bind_Done in Hrun as ([] & w1 & [= <-] & [= <- <-]). done. }
  apply return_if_error_m_Done in Hrun as [(Herr & _ & ->)|[Herr Hrun]]; [done|].
  set (updated_keys := sort_and_deduplicate (dr_tasks c)) in *.
  set (r := {| read_db := Some db; read_transaction := dr_transaction c;
               read_options := dr_options c; read_tasks := updated_keys |}) in *.
  destruct (ukv_read_spec r w) as (found & w1 & Hread & Hstore1 & Htrace1 & Hres).
  rewrite (bind_Done_l _ _ _ _ _ Hread) in Hrun.
  apply return_if_error_m_Done in Hrun as [(Herr1 & _ & ->)|[Herr1 Hrun]]; [done|].
  destruct (kv_read_error (store w) r) as [e|] eqn:Hengine; [destruct Hres; congruence|].
  destruct Hres as [-> _]. simpl in Hrun.
  rewrite (bind_Done_l _ _ w1 (kv_get (store w) <$> updated_keys) w1) in Hrun by done.
  apply bind_Done in Hrun as (parsed_values & w2 & Hparse & Hrun).
  assert (0 + length (kv_get (store w) <$> updated_keys)
          ≤ length (replicate (length (dr_tasks c)) JNull))%nat as Hroom.
  { rewrite length_replicate, length_fmap. apply length_sort_and_deduplicate_le. }
  destruct parsed_values as [parsed_values|].
  2:{ injection Hrun as <- <-.
      by apply parse_found_spec in Hparse as (? & ? & _). }
  apply export_tasks_spec in Hrun
    as (es & -> & Hes & Herr2 & Hstore3 & Hreads3 & Hwrites3 & Hparses3 & Hentries); [|done].
  apply parse_found_spec in Hparse
    as (parsed_values' & [= <-] & _ & _ & Hstore2 & Hreads2 & Hwrites2 & Hparses2
        & Hdocs & _); [|done|done].
  exists es. simpl.
  rewrite Hreads3, Hwrites3, Hparses3, Hstore3, Hreads2, Hwrites2, Hparses2, Hstore2, Htrace1.
  rewrite !reads_of_app, !writes_of_app, !parses_of_app. simpl. rewrite !app_nil_r.
  repeat split; try done.
  { f_equal. by rewrite <- list_fmap_compose. }
  intros i place Hplace.
  destruct (Hentries _ _ Hplace) as (parsed & field & Hparsed & Hfield & Hentry).
  exists field. split; [done|]. rewrite Hentry.
  assert (place ∈ dr_tasks c) as Hin by (by eapply list_elem_of_lookup_2).
  pose proof (offset_in_sorted_unique _ _ Hin) as Hslot. fold updated_keys in Hslot.
  destruct (Hdocs (offset_in_sorted updated_keys place) (kv_get (store w) place))
    as (parsed0 & Hp & Hl).
  { by rewrite list_lookup_fmap, Hslot. }
  simpl in Hl. rewrite Hparsed in Hl. injection Hl as ->.
  unfold LogicDocs.expected_entry. by rewrite Hp.
Qed.

Lemma logic_parse_any_frame bytes c_format w :
  store (final (LogicDocs.parse_any bytes c_format w)) = store w ∧
  writes_of (trace (final (LogicDocs.parse_any bytes c_format w))) = writes_of (trace w).
Proof.
  unfold LogicDocs.parse_any, bind, emit, unguarded, log_error, ret, raise.
  destruct c_format; simpl;
    repeat match goal with |- context [match ?call with _ => _ end] => destruct call end;
    simpl; by rewrite writes_of_app, app_nil_r.
Qed.

Lemma logic_dump_any_frame json c_format w :
  store (final (LogicDocs.dump_any json c_format w)) = store w ∧
  writes_of (trace (final (LogicDocs.dump_any json c_format w))) = writes_of (trace w).
Proof.
  unfold LogicDocs.dump_any, bind, emit, unguarded, log_error, ret, raise.
  destruct c_format; simpl;
    repeat match goal with |- context [match ?call with _ => _ end] => destruct call end;
    simpl; by rewrite writes_of_app, app_nil_r.
Qed.

(** The loop of [update_docs] does not get past an entry that does not
    parse: it leaves with an error, or the parser's exception ends the
    call. *)
Lemma update_docs_loop_stops contents c_format i view :
  contents !! i = Some (Some view) →
  (∀ doc, LogicDocs.parse_result view c_format = Some doc → is_discarded doc = true) →
  ∀ tasks idx updated_vals w,
    (idx ≤ i < idx + length tasks)%nat →
    (∀ out w',
       LogicDocs.update_docs_loop contents c_format idx tasks updated_vals w = Done out w' →
       out = None ∧ c_error w' ≠ None) ∧
    store (final (LogicDocs.update_docs_loop contents c_format idx tasks updated_vals w))
      = store w ∧
    writes_of (trace (final (LogicDocs.update_docs_loop contents c_format idx tasks
                                updated_vals w)))
      = writes_of (trace w).
Proof.
  intros Hcontent Hfails.
  induction tasks as [|task rest IH]; intros idx updated_vals w Hrange.
  { simpl in Hrange. lia. }
  cbn [LogicDocs.update_docs_loop].
  destruct (contents !! idx) as [[v|]|] eqn:Hidx; simpl.
  3:{ rewrite (bind_Aborted_l _ _ w undefined_behaviour w) by done. done. }
  2:{ rewrite (bind_Done_l _ _ w None w) by done.
      apply IH. simpl in Hrange.
      destruct (decide (idx = i)) as [->|]; [congruence|lia]. }
  rewrite (bind_Done_l _ _ w (Some v) w) by done.
  destruct (logic_parse_any_frame v c_format w) as [Hstore1 Hwrites1].
  destruct (LogicDocs.parse_any v c_format w) as [parsed w1|why w1] eqn:Hparse.
  2:{ by rewrite (bind_Aborted_l _ _ _ _ _ Hparse). }
  rewrite (bind_Done_l _ _ _ _ _ Hparse). simpl in Hstore1, Hwrites1.
  apply logic_parse_any_Done in Hparse as (_ & _ & Hres).
  destruct (c_error w1) as [e|] eqn:Herr1.
  { rewrite (return_if_error_m_Some _ _ _ e) by done. simpl.
    split; [|done]. intros out w' [= <- <-]. by rewrite Herr1. }
  rewrite return_if_error_m_None by done.
  destruct (Hres eq_refl) as [_ Hparsed].
  destruct (is_discarded parsed) eqn:Hdisc.
  { unfold bind, log_error, ret. simpl. split; [|done]. by intros out w' [= <- <-]. }
  assert (idx ≠ i) as Hne.
  { intros ->. rewrite Hcontent in Hidx. injection Hidx as ->.
    apply Hfails in Hparsed. congruence. }
  destruct (logic_dump_any_frame parsed ukv_format_msgpack_k w1) as [Hstore2 Hwrites2].
  destruct (LogicDocs.dump_any parsed ukv_format_msgpack_k w1) as [bytes w2|why w2] eqn:Hdump.
  2:{ rewrite (bind_Aborted_l _ _ _ _ _ Hdump). simpl in *.
      split; [done|]. split; congruence. }
  rewrite (bind_Done_l _ _ _ _ _ Hdump). simpl in Hstore2, Hwrites2.
  destruct (c_error w2) as [e|] eqn:Herr2.
  { rewrite (return_if_error_m_Some _ _ _ e) by done. simpl.
    split; [|split; congruence]. intros out w' [= <- <-]. by rewrite Herr2. }
  rewrite return_if_error_m_None by done.
  destruct (IH (idx + 1)%nat (updated_vals ++ [Some bytes]) w2 ltac:(simpl in Hrange; lia))
    as (Hout & Hstore & Hwrites).
  split; [done|]. split; congruence.
Qed.

(** X15.  [update_docs] of logic_docs.cpp on a batch with an entry that
    does not parse issues no [ukv_write] and leaves the database as it was;
    when it returns, an error is set. *)
Lemma update_docs_parse_failure_writes_nothing
    (c_db : ukv_database_t) (c_txn : ukv_transaction_t) (tasks : list collection_key_t)
    (contents : contents_arg_t) (fields : strided_iterator_gt ukv_str_view_t)
    (c_options : ukv_options_t) (c_format : ukv_format_t) (w : world)
    (i : nat) (view : value_view_t) :
  (i < length tasks)%nat →
  contents !! i = Some (Some view) →
  (∀ doc, LogicDocs.parse_result view c_format = Some doc → is_discarded doc = true) →
  (∀ w', LogicDocs.update_docs c_db c_txn tasks contents fields (length tasks)
           c_options c_format w = Done tt w' → c_error w' ≠ None) ∧
  store (final (LogicDocs.update_docs c_db c_txn tasks contents fields (length tasks)
                  c_options c_format w)) = store w ∧
  writes_of (trace (final (LogicDocs.update_docs c_db c_txn tasks contents fields
                             (length tasks) c_options c_format w)))
    = writes_of (trace w).
Proof.
  intros Hi Hcontent Hfails. unfold LogicDocs.update_docs.
  rewrite firstn_all.
  destruct (c_error w) as [e|] eqn:Herr.
  { rewrite (return_if_error_m_Some _ _ _ e) by done. simpl.
    split; [|done]. intros w' [= <-]. by rewrite Herr. }
  rewrite return_if_error_m_None by done.
  destruct (update_docs_loop_stops contents c_format i view Hcontent Hfails
              tasks 0%nat [] w ltac:(lia)) as (Hout & Hstore & Hwrites).
  destruct (LogicDocs.update_docs_loop contents c_format 0 tasks [] w)
    as [out w1|why w1] eqn:Hloop.
  2:{ by rewrite (bind_Aborted_l _ _ _ _ _ Hloop). }
  rewrite (bind_Done_l _ _ _ _ _ Hloop).
  destruct (Hout _ _ eq_refl) as [-> Herr1]. simpl in *.
  split; [|done]. by intros w' [= <-].
Qed.
End LogicDocsFacts.

(** * The write paths *)

Section WriteClaims.
Context `{Nlohmann} `{KvEngine}.

Lemma ukv_write_spec wr w :
  ∃ w', ukv_write wr w = Done tt w' ∧
        trace w' = trace w ++ [ev_ukv_write wr] ∧
        match kv_write (store w) wr with
        | inl e => store w' = store w ∧ c_error w' = Some e
        | inr db' => store w' = db' ∧ c_error w' = c_error w
        end.
Proof.
  unfold ukv_write, bind, emit, log_error. simpl.
  destruct (kv_write (store w) wr); eexists; (split; [reflexivity|]); by simpl.
Qed.

(** C6.  With the internal format (MessagePack) and no field selectors,
    [ukv_docs_write] is [ukv_write] and [ukv_docs_read] is [ukv_read], on
    the caller's own database, transaction, options, keys and values, in
    modality_nlohmann_docs.cpp and in logic_docs.cpp alike; the call
    parses and dumps no document. *)
Theorem internal_format_without_fields_is_forwarded
    (cw : ukv_docs_write_t) (cr : ukv_docs_read_t) (w : world) :
  dw_fields cw = strided_null → dw_format cw = internal_format_k →
  dr_fields cr = strided_null → dr_format cr = internal_format_k →
  c_error w = None →
  let write := {| write_db := dw_db cw; write_transaction := dw_transaction cw;
                  write_options := dw_options cw; write_tasks := dw_tasks cw;
                  write_contents := dw_contents cw |} in
  let read := {| read_db := dr_db cr; read_transaction := dr_transaction cr;
                 read_options := dr_options cr; read_tasks := dr_tasks cr |} in
  Deprecated.ukv_docs_write cw w = ukv_write write w ∧
  LogicDocs.ukv_docs_write cw w = ukv_write write w ∧
  Deprecated.ukv_docs_read cr w = ukv_read read w ∧
  LogicDocs.ukv_docs_read cr w = ukv_read read w ∧
  (∃ w', ukv_write write w = Done tt w' ∧ trace w' = trace w ++ [ev_ukv_write write]) ∧
  (∃ found w', ukv_read read w = Done found w' ∧ trace w' = trace w ++ [ev_ukv_read read]).
Proof.
  intros Hwf Hwfmt Hrf Hrfmt Herr write read.
  unfold Deprecated.ukv_docs_write, LogicDocs.ukv_docs_write,
    Deprecated.ukv_docs_read, LogicDocs.ukv_docs_read.
  rewrite !return_if_error_m_None by done.
  rewrite Hwf, Hwfmt, Hrf, Hrfmt. simpl.
  repeat split; try done.
  - destruct (ukv_write_spec write w) as (w' & Hrun & Htrace & _). by exists w'.
  - destruct (ukv_read_spec read w) as (found & w' & Hrun & _ & Htrace & _).
    by exists found, w'.
Qed.

(** [replace_docs] stops at the first entry that does not parse. *)
Lemma replace_docs_loop_stops contents c_format i content :
  contents !! i = Some content →
  (∀ doc, Deprecated.parse_result (content_view content) c_format = Some doc →
          is_discarded doc = true) →
  ∀ places doc_idx growing_tape w,
    c_error w = None →
    (doc_idx ≤ i < doc_idx + length places)%nat →
    ∃ w',
      Deprecated.replace_docs_loop contents c_format doc_idx places growing_tape w
        = Done None w' ∧
      store w' = store w ∧
      writes_of (trace w') = writes_of (trace w) ∧
      c_error w' ≠ None ∧
      (parse_until contents c_format i →
       Deprecated.parse_result (content_view content) c_format = Some JDiscarded →
       c_error w' = Some (error_msg "Couldn't parse inputs")).
Proof.
  intros Hcontent Hfails.
  induction places as [|place rest IH]; intros doc_idx growing_tape w Herr Hrange.
  { simpl in Hrange. lia. }
  cbn [Deprecated.replace_docs_loop].
  destruct (contents !! doc_idx) as [content0|] eqn:Hcontent0.
  2:{ apply lookup_ge_None in Hcontent0. apply lookup_lt_Some in Hcontent. lia. }
  rewrite (bind_Done_l _ _ w content0 w) by done.
  assert (parse_until contents c_format i →
          doc_idx ≠ i →
          ∃ doc entry,
            Deprecated.parse_result (content_view content0) c_format = Some doc ∧
            is_discarded doc = false ∧ write_msgpack doc = Some entry) as Hbefore.
  { intros Huntil Hne. apply (Huntil doc_idx); [lia|done]. }
  destruct (parse_any_spec (content_view content0) c_format w)
    as (parsed & w1 & Hparse & Hstore1 & Htrace1 & Hres).
  rewrite (bind_Done_l _ _ _ _ _ Hparse).
  destruct (Deprecated.parse_result (content_view content0) c_format) as [parsed0|] eqn:Hp0.
  2:{ destruct Hres as [-> Herr1].
      destruct (c_error w1) as [e|] eqn:He; [|done].
      rewrite (return_if_error_m_Some _ _ _ e) by done.
      exists w1. rewrite Htrace1, writes_of_app, He. simpl. rewrite app_nil_r.
      repeat split; try done. intros Huntil Hdiscarded.
      destruct (decide (doc_idx = i)) as [->|Hne]; [congruence|].
      by destruct (Hbefore Huntil Hne) as (? & ? & [=] & _). }
  destruct Hres as [-> Herr1].
  rewrite return_if_error_m_None by congruence.
  destruct (is_discarded parsed0) eqn:Hdisc.
  { unfold bind, log_error, ret. simpl. eexists. split; [reflexivity|]. simpl.
    rewrite Htrace1, writes_of_app. simpl. rewrite app_nil_r. by repeat split. }
  assert (doc_idx ≠ i) as Hne.
  { intros ->. rewrite Hcontent in Hcontent0. injection Hcontent0 as ->.
    apply Hfails in Hp0. congruence. }
  destruct (push_back_spec growing_tape parsed0 internal_format_k w1)
    as (tape1 & w2 & Hpush & Hstore2 & Htrace2 & _ & Hpushed).
  rewrite (bind_Done_l _ _ _ _ _ Hpush).
  specialize (Hpushed ltac:(congruence)).
  destruct (Deprecated.serialized parsed0 internal_format_k) as [entry|] eqn:Hentry.
  - destruct Hpushed as [Herr2 ->].
    rewrite return_if_error_m_None by done.
    destruct (IH (doc_idx + 1)%nat (growing_tape ++ [entry]) w2 Herr2 ltac:(simpl in Hrange; lia))
      as (w' & Hrun & Hstore & Hwrites & Herr' & Hmsg).
    exists w'. rewrite Hrun, Hstore, Hwrites, Hstore2, Htrace2, Htrace1.
    rewrite !writes_of_app. simpl. rewrite !app_nil_r. by repeat split.
  - destruct Hpushed as [Herr2 ->].
    destruct (c_error w2) as [e|] eqn:He; [|done].
    rewrite (return_if_error_m_Some _ _ _ e) by done.
    exists w2. rewrite He, Hstore2, Htrace2, Htrace1.
    rewrite !writes_of_app. simpl. rewrite !app_nil_r.
    repeat split; try done. intros Huntil _.
    destruct (Hbefore Huntil Hne) as (doc & entry & [= <-] & _ & Hdump).
    unfold Deprecated.serialized in Hentry. simpl in Hentry. by rewrite Hdump in Hentry.
Qed.

(** C5.  A batch of [replace_docs] with an entry that does not parse in the
    caller's format (the parser discards it, or throws) returns with an
    error set, issues no [ukv_write] and leaves the database as it was;
    the error is "Couldn't parse inputs" when the parser discards the
    entry and the entries before it parse and dump. *)
Theorem replace_docs_parse_failure_writes_nothing
    (c_db : ukv_database_t) (c_txn : ukv_transaction_t) (places : places_arg_t)
    (contents : contents_arg_t) (c_options : ukv_options_t) (c_format : ukv_format_t)
    (w : world) (i : nat) (content : option value_view_t) :
  c_error w = None →
  (i < count places)%nat →
  contents !! i = Some content →
  (∀ doc, Deprecated.parse_result (content_view content) c_format = Some doc →
          is_discarded doc = true) →
  ∃ w',
    Deprecated.replace_docs c_db c_txn places contents c_options c_format w = Done tt w' ∧
    store w' = store w ∧
    writes_of (trace w') = writes_of (trace w) ∧
    c_error w' ≠ None ∧
    (parse_until contents c_format i →
     Deprecated.parse_result (content_view content) c_format = Some JDiscarded →
     c_error w' = Some (error_msg "Couldn't parse inputs")).
Proof.
  intros Herr Hi Hcontent Hfails. unfold Deprecated.replace_docs.
  rewrite return_if_error_m_None by done.
  destruct (replace_docs_loop_stops contents c_format i content Hcontent Hfails
              (keys_begin places) 0%nat [] w Herr ltac:(unfold count in Hi; lia))
    as (w' & Hrun & Hrest).
  rewrite (bind_Done_l _ _ _ _ _ Hrun). by exists w'.
Qed.

(** C10.  In logic_docs.cpp a [ukv_docs_write] with non-null field
    selectors, a database and at least one task runs [update_fields],
    which returns at once: no [ukv_write], no error, the world untouched
    whatever the format and the values. *)
Theorem update_fields_is_a_silent_no_op (c : ukv_docs_write_t) (w : world) :
  LogicDocs.non_null (dw_fields c) = true →
  dw_tasks c ≠ [] →
  dw_db c ≠ None →
  c_error w = None →
  LogicDocs.update_fields (dw_db c) (dw_transaction c) (dw_tasks c) (dw_contents c)
    (dw_fields c) (length (dw_tasks c)) (dw_options c) (dw_format c) w = Done tt w ∧
  LogicDocs.ukv_docs_write c w = Done tt w.
Proof.
  intros Hfields Htasks Hdb Herr.
  assert (LogicDocs.update_fields (dw_db c) (dw_transaction c) (dw_tasks c) (dw_contents c)
            (dw_fields c) (length (dw_tasks c)) (dw_options c) (dw_format c) w = Done tt w)
    as Hupdate.
  { unfold LogicDocs.update_fields. by destruct (dw_tasks c). }
  split; [done|].
  unfold LogicDocs.ukv_docs_write. rewrite Hfields. simpl.
  destruct (dw_db c); [|done].
  by rewrite return_if_error_m_None.
Qed.

Lemma members_find_assign (members : list (string * json_t)) (name : string)
    (old v : json_t) :
  members_find members name = Some old →
  members_find (members_assign members name v) name = Some v.
Proof.
  induction members as [|[k x] rest IH]; simpl; [done|].
  destruct (decide (k = name)) as [->|Hne]; simpl.
  - by rewrite decide_True.
  - by rewrite decide_False.
Qed.

(** The callback of [read_modify_write] on a member of an object, for any
    library and any engine: the parsed task is assigned to the member, and
    the entry pushed on the tape is the dump of the task alone. *)
Lemma read_modify_write_callback_pushes_member
    (contents : contents_arg_t) (task_idx : nat) (content : option value_view_t)
    (name : string) (members : list (string * json_t)) (old task : json_t)
    (entry : value_view_t) (tape : list value_view_t) (w : world) :
  contents !! task_idx = Some content →
  first_char name ≠ "/"%char →
  members_find members name = Some old →
  Deprecated.parse_result (content_view content) ukv_format_json_k = Some task →
  write_msgpack task = Some entry →
  c_error w = None →
  ∃ w',
    Deprecated.read_modify_write_callback contents ukv_format_json_k task_idx (Some name)
      (JObject members) tape w
    = Done (find_assign (JObject members) name task, tape ++ [entry]) w' ∧
    c_error w' = None.
Proof.
  intros Hcontent Hname Hfound Htask Hentry Herr.
  unfold Deprecated.read_modify_write_callback.
  rewrite Hcontent. unfold checked at 1. rewrite (bind_Done_l _ _ w content w) by done.
  destruct (parse_any_spec (content_view content) ukv_format_json_k w)
    as (parsed & w1 & Hparse & Hstore1 & Htrace1 & Hres).
  rewrite (bind_Done_l _ _ _ _ _ Hparse). rewrite Htask in Hres.
  destruct Hres as [-> Herr1]. rewrite Herr in Herr1.
  rewrite return_if_error_m_None by done.
  unfold Deprecated.lookup_field. rewrite decide_False by done. simpl. rewrite Hfound.
  unfold bind at 1, ret at 1. unfold bind at 1, ret at 1. simpl.
  rewrite (members_find_assign _ _ old) by done. simpl.
  destruct (push_back_spec tape task internal_format_k w1)
    as (tape1 & w2 & Hpush & _ & _ & _ & Hpushed).
  rewrite (bind_Done_l _ _ _ _ _ Hpush).
  specialize (Hpushed Herr1). unfold Deprecated.serialized in Hpushed.
  simpl in Hpushed. rewrite Hentry in Hpushed. simpl in Hpushed.
  destruct Hpushed as [Herr2 ->]. by exists w2.
Qed.
End WriteClaims.

(** * Facts about the columnar export *)

Section BitmapFacts.
  Implicit Types (m : column_memory) (ref mask bitmap : Z) (doc_idx : nat).

Lemma mask_bitmap_pow2 doc_idx : mask_bitmap doc_idx = 2 ^ (Z.of_nat doc_idx mod 8).
Proof.
  unfold mask_bitmap. rewrite Z.shiftl_1_l.
  assert (0 ≤ Z.of_nat doc_idx mod 8 < 8) as Hk by (apply Z.mod_pos_bound; lia).
  apply Z.mod_small. split; [apply Z.pow_nonneg; lia|].
  change 256 with (2 ^ 8). apply Z.pow_lt_mono_r; lia.
Qed.

Lemma testbit_octet x k : 0 ≤ k < 8 → Z.testbit (x mod 256) k = Z.testbit x k.
Proof. intros Hk. change 256 with (2 ^ 8). apply Z.mod_pow2_bits_low. lia. Qed.

Lemma octet_at_set_same m ref v : octet_at (set_octet m ref v) ref = v.
Proof. unfold octet_at, set_octet. simpl. by rewrite lookup_insert_eq. Qed.

Lemma octet_at_set_other m ref ref' v :
  ref ≠ ref' → octet_at (set_octet m ref v) ref' = octet_at m ref'.
Proof. intros Hne. unfold octet_at, set_octet. simpl. by rewrite lookup_insert_ne. Qed.

Lemma octet_ref_inj bitmap bitmap' doc_idx :
  octet_ref bitmap doc_idx = octet_ref bitmap' doc_idx → bitmap = bitmap'.
Proof. unfold octet_ref. lia. Qed.

(** [ref |= mask] sets the bit of the cell ... *)
Lemma bit_at_or_same m bitmap doc_idx :
  bit_at (exec_op m (op_or (octet_ref bitmap doc_idx) (mask_bitmap doc_idx))) bitmap doc_idx
  = true.
Proof.
  unfold bit_at. simpl. rewrite octet_at_set_same.
  assert (0 ≤ Z.of_nat doc_idx mod 8 < 8) as Hk by (apply Z.mod_pos_bound; lia).
  rewrite testbit_octet, Z.lor_spec, mask_bitmap_pow2 by done.
  rewrite Z.pow2_bits_true by lia. apply orb_true_r.
Qed.

(** ... and [ref &= ~mask] clears it. *)
Lemma bit_at_and_not_same m bitmap doc_idx :
  bit_at (exec_op m (op_and_not (octet_ref bitmap doc_idx) (mask_bitmap doc_idx)))
    bitmap doc_idx = false.
Proof.
  unfold bit_at. simpl. rewrite octet_at_set_same.
  assert (0 ≤ Z.of_nat doc_idx mod 8 < 8) as Hk by (apply Z.mod_pos_bound; lia).
  rewrite testbit_octet, Z.land_spec, Z.lnot_spec, mask_bitmap_pow2 by lia.
  rewrite Z.pow2_bits_true by lia. apply andb_false_r.
Qed.

(** A bit update of another bitmap leaves the bit alone. *)
Lemma bit_at_or_other m bitmap bitmap' doc_idx mask :
  bitmap' ≠ bitmap →
  bit_at (exec_op m (op_or (octet_ref bitmap' doc_idx) mask)) bitmap doc_idx
  = bit_at m bitmap doc_idx.
Proof.
  intros Hne. unfold bit_at. simpl. rewrite octet_at_set_other; [done|].
  intros Heq. by apply Hne, (octet_ref_inj _ _ doc_idx).
Qed.

Lemma bit_at_and_not_other m bitmap bitmap' doc_idx mask :
  bitmap' ≠ bitmap →
  bit_at (exec_op m (op_and_not (octet_ref bitmap' doc_idx) mask)) bitmap doc_idx
  = bit_at m bitmap doc_idx.
Proof.
  intros Hne. unfold bit_at. simpl. rewrite octet_at_set_other; [done|].
  intros Heq. by apply Hne, (octet_ref_inj _ _ doc_idx).
Qed.

(** The writes to the arrays of the column and to the tape touch no bitmap. *)
Lemma bit_at_scalar m bitmap doc_idx idx repr :
  bit_at (exec_op m (op_scalar idx repr)) bitmap doc_idx = bit_at m bitmap doc_idx.
Proof. done. Qed.

Lemma bit_at_off m bitmap doc_idx idx v :
  bit_at (exec_op m (op_off idx v)) bitmap doc_idx = bit_at m bitmap doc_idx.
Proof. done. Qed.

Lemma bit_at_len m bitmap doc_idx idx v :
  bit_at (exec_op m (op_len idx v)) bitmap doc_idx = bit_at m bitmap doc_idx.
Proof. done. Qed.

Lemma bit_at_output m bitmap doc_idx bytes :
  bit_at (exec_op m (op_output bytes)) bitmap doc_idx = bit_at m bitmap doc_idx.
Proof. done. Qed.

Lemma exec_cons op ops m : exec (op :: ops) m = exec ops (exec_op m op).
Proof. done. Qed.

Lemma exec_snoc ops op m : exec (ops ++ [op]) m = exec_op (exec ops m) op.
Proof. unfold exec. by rewrite foldl_snoc. Qed.

Lemma exec_app ops ops' m : exec (ops ++ ops') m = exec ops' (exec ops m).
Proof. unfold exec. by rewrite foldl_app. Qed.
End BitmapFacts.

Section GatherFacts.
Context `{LibC}.
Import Gather.

Ltac bits :=
  unfold exec; cbn [foldl app];
  repeat first
    [ rewrite bit_at_or_same | rewrite bit_at_and_not_same
    | rewrite bit_at_scalar | rewrite bit_at_off | rewrite bit_at_len | rewrite bit_at_output
    | rewrite bit_at_or_other by congruence
    | rewrite bit_at_and_not_other by congruence ].

Lemma cell_state_bits m column doc_idx :
  cell_state m column doc_idx ↔
    ¬ (bit_at m (validities column) doc_idx = true
       ∧ bit_at m (collisions column) doc_idx = true).
Proof.
  unfold cell_state, bit_at, octet_ref.
  destruct (Z.testbit _ _), (Z.testbit _ _); intuition congruence.
Qed.

(** [std::from_chars] on an integer target, with the sign split off. *)
Lemma std_from_chars_unfold t str :
  ∃ (negative : bool) (digits : string),
    str = (if negative then String "-" digits else digits) ∧
    (negative = true → is_signed_integral t = true) ∧
    (negative = false → is_signed_integral t = true → ∀ rest, str ≠ String "-" rest) ∧
    std_from_chars t str =
      let '(k, magnitude) := scan_digits digits 0 in
      match k with
      | O => ({| ptr := 0; ec := invalid_argument |}, None)
      | Datatypes.S _ =>
          let value := if negative then - magnitude else magnitude in
          let consumed := Z.of_nat ((if negative then 1 else 0) + k) in
          if bool_decide (numeric_min t ≤ value ≤ numeric_max t)
          then ({| ptr := consumed; ec := errc_ok |}, Some value)
          else ({| ptr := consumed; ec := result_out_of_range |}, None)
      end.
Proof.
  unfold std_from_chars.
  destruct str as [|c rest].
  { exists false, EmptyString. repeat split; try done. }
  destruct (decide (c = "-"%char)) as [->|Hc].
  - destruct (is_signed_integral t) eqn:Hsigned.
    + exists true, rest. repeat split; try done.
    + exists false, (String "-" rest). repeat split; try done.
  - exists false, (String c rest). split; [done|]. split; [done|].
    split; [intros _ _ rest' [= -> _]; done|].
    destruct c as [[] [] [] [] [] [] [] []]; try done.
Qed.

(** What [from_chars] reports as parsed, it has stored. *)
Lemma from_chars_ok_stores t str :
  ec (from_chars t str).1 = errc_ok → is_Some (from_chars t str).2.
Proof.
  assert (∀ result value, ec (result, le_bytes (sizeof t) <$> value).1 = errc_ok →
            (result, value) = std_from_chars t str →
            is_Some (result, le_bytes (sizeof t) <$> value).2) as Hint.
  { intros result value Hec Hstd.
    destruct (std_from_chars_unfold t str) as (negative & digits & _ & _ & _ & Heq).
    rewrite Heq in Hstd. clear Heq.
    destruct (scan_digits digits 0) as [[|k] magnitude]; [by injection Hstd as -> ->|].
    simpl in Hstd. case_bool_decide; injection Hstd as -> ->; simpl in *; eauto; done. }
  unfold from_chars.
  destruct t;
    try (destruct (std_from_chars _ str) as [result value] eqn:Hstd;
         intros Hec; by eapply Hint).
  - destruct (_ || _); simpl; eauto; done.
  - destruct (strtof (c_str str)); simpl; eauto.
  - destruct (strtod (c_str str)); simpl; eauto.
Qed.

(** The validity bit of a scalar cell after its export: set exactly when
    the source coerces to the target. *)
Lemma export_scalar_column_valid t value doc_idx column m :
  bit_at (exec (export_scalar_column t value doc_idx column) m) (validities column) doc_idx
  = bool_decide (is_Some (coerced_scalar t value)).
Proof.
  unfold export_scalar_column, coerced_scalar.
  destruct value; cbn zeta; try (bits; reflexivity).
  - pose proof (from_chars_ok_stores t s) as Hstored.
    destruct (from_chars t s) as [result stored]. simpl in Hstored.
    destruct (bool_decide (ec result = errc_ok)) eqn:Hec; simpl.
    2:{ rewrite exec_app. bits. reflexivity. }
    apply bool_decide_eq_true in Hec. destruct (Hstored Hec) as [repr ->].
    destruct (bool_decide (ptr result = Z.of_nat (String.length s))).
    + rewrite exec_app. bits. reflexivity.
    + rewrite exec_app. bits. reflexivity.
  - destruct (bool_decide (length bytes = sizeof t)); bits; reflexivity.
Qed.
(** The collision bit of a scalar cell: set exactly for a source that is
    there and does not coerce. *)
Lemma export_scalar_column_collided t value doc_idx column m :
  validities column ≠ collisions column →
  bit_at (exec (export_scalar_column t value doc_idx column) m) (collisions column) doc_idx
  = match value with
    | JNull => false
    | _ => negb (bool_decide (is_Some (coerced_scalar t value)))
    end.
Proof.
  intros Hne. unfold export_scalar_column, coerced_scalar.
  destruct value; cbn zeta; try (bits; reflexivity).
  - pose proof (from_chars_ok_stores t s) as Hstored.
    destruct (from_chars t s) as [result stored]. simpl in Hstored.
    destruct (bool_decide (ec result = errc_ok)) eqn:Hec; simpl.
    2:{ rewrite exec_app. bits. reflexivity. }
    apply bool_decide_eq_true in Hec. destruct (Hstored Hec) as [repr ->].
    destruct (bool_decide (ptr result = Z.of_nat (String.length s)));
      rewrite exec_app; bits; reflexivity.
  - destruct (bool_decide (length bytes = sizeof t)); bits; reflexivity.
Qed.

(** The payload of a scalar cell whose source coerces. *)
Lemma export_scalar_column_payload t value doc_idx column m repr :
  coerced_scalar t value = Some repr →
  scalars (exec (export_scalar_column t value doc_idx column) m) !! doc_idx = Some repr.
Proof.
  unfold export_scalar_column, coerced_scalar.
  destruct value; cbn zeta; try done.
  - intros [= <-]. simpl. destruct (bool_decide (t = t_bool)); simpl; apply lookup_insert_eq.
  - intros [= <-]. simpl. destruct (is_signed_integral t); simpl; apply lookup_insert_eq.
  - intros [= <-]. simpl. destruct (is_unsigned t); simpl; apply lookup_insert_eq.
  - intros [= <-]. simpl. destruct (is_floating_point t); simpl; apply lookup_insert_eq.
  - destruct (from_chars t s) as [result stored].
    destruct (_ && _); [|done]. intros ->. simpl. apply lookup_insert_eq.
  - destruct (bool_decide (length bytes = sizeof t)); [|done].
    intros [= <-]. simpl. apply lookup_insert_eq.
Qed.

(** The bit written last by the export of a scalar cell is the validity
    bit. *)
Lemma export_scalar_column_last_bit t value doc_idx column :
  last (bitmap_writes (export_scalar_column t value doc_idx column))
  = Some (octet_ref (validities column) doc_idx).
Proof.
  unfold export_scalar_column.
  destruct value; cbn zeta; try done.
  - by destruct (bool_decide (t = t_bool)).
  - by destruct (is_signed_integral t).
  - by destruct (is_unsigned t).
  - by destruct (is_floating_point t).
  - destruct (from_chars t s) as [result [repr|]]; by destruct (_ && _).
  - by destruct (bool_decide (length bytes = sizeof t)).
Qed.
Lemma length_bytes_of_string str : length (bytes_of_string str) = String.length str.
Proof.
  unfold bytes_of_string. rewrite length_fmap.
  induction str as [|c str IH]; simpl; congruence.
Qed.

(** Printing an integer appends its decimal text and a NUL, when they fit
    the buffer. *)
Lemma print_scalar_integer n :
  print_scalar (to_chars_integer n)
  = if bool_decide (Z.of_nat (String.length (pretty n)) + 1 < print_buf_len_k)
    then Some (bytes_of_string (pretty n) ++ [0]) else None.
Proof.
  unfold print_scalar, to_chars_integer, print_buf_len_k.
  repeat case_bool_decide; simpl; repeat case_bool_decide; simpl; try lia; try done.
  rewrite Nat2Z.id, firstn_all2; [done|]. by rewrite length_bytes_of_string.
Qed.

Lemma string_cell_window m doc_idx before bytes after (len : nat) :
  str_offsets m !! doc_idx = Some (Z.of_nat (length before)) →
  str_lengths m !! doc_idx = Some (Z.of_nat len) →
  output m = before ++ bytes ++ after →
  length bytes = len →
  string_cell m doc_idx = Some bytes.
Proof.
  intros Hoff Hlen Hout <-. unfold string_cell. rewrite Hoff, Hlen. simpl.
  rewrite !Nat2Z.id, Hout, drop_app_length. by rewrite take_app_length.
Qed.

(** A string cell is never both valid and collided. *)
Lemma export_string_column_state value doc_idx column m :
  validities column ≠ collisions column →
  cell_state (exec (export_string_column value doc_idx column (length (output m))) m)
    column doc_idx.
Proof.
  intros Hne. apply cell_state_bits. unfold export_string_column.
  destruct value; cbn zeta;
    try (intros [Hv Hc]; revert Hv Hc; bits; done);
    try (destruct (print_scalar _); intros [Hv Hc]; revert Hv Hc; bits; done).
  destruct b; intros [Hv Hc]; revert Hv Hc; bits; done.
Qed.

(** The bit written last by the export of a string cell is the validity
    bit. *)
Lemma export_string_column_last_bit value doc_idx column output_size :
  last (bitmap_writes (export_string_column value doc_idx column output_size))
  = Some (octet_ref (validities column) doc_idx).
Proof.
  unfold export_string_column.
  destruct value; cbn zeta; try done; try (by destruct (print_scalar _)).
  by destruct b.
Qed.

Lemma export_scalar_column_state t value doc_idx column m :
  validities column ≠ collisions column →
  cell_state (exec (export_scalar_column t value doc_idx column) m) column doc_idx.
Proof.
  intros Hne. apply cell_state_bits.
  rewrite export_scalar_column_valid, export_scalar_column_collided by done.
  destruct value; destruct (bool_decide _); simpl; intros []; done.
Qed.
(** [scan_digits] stops at the first character that is not a digit; what
    it consumed is a number in decimal. *)
Lemma scan_digits_spec s :
  ∀ acc,
    ((scan_digits s acc).1 ≤ String.length s)%nat ∧
    ((scan_digits s acc).1 = String.length s ↔ all_digits s) ∧
    (all_digits s →
     (scan_digits s acc).2
     = foldl (λ acc c, acc * 10 + default 0 (digit_of c)) acc (list_ascii_of_string s)).
Proof.
  unfold all_digits.
  induction s as [|c rest IH]; intros acc; simpl.
  { repeat split; try done. }
  destruct (digit_of c) as [d|] eqn:Hd; simpl.
  - specialize (IH (acc * 10 + d)).
    destruct (scan_digits rest (acc * 10 + d)) as [k v]. simpl in *.
    destruct IH as (Hle & Hiff & Hval).
    split; [lia|]. split; [split|].
    + intros [= Hk]. constructor; [by rewrite Hd|]. by apply Hiff.
    + intros [_ Hrest]%Forall_cons. f_equal. by apply Hiff.
    + intros [_ Hrest]%Forall_cons. by apply Hval.
  - split; [lia|]. split; [split|].
    + intros Hk. discriminate Hk.
    + intros [[x Hx] _]%Forall_cons. congruence.
    + intros [[x Hx] _]%Forall_cons. congruence.
Qed.

Lemma all_digits_not_minus rest : ¬ all_digits (String "-" rest).
Proof. unfold all_digits. simpl. by intros [[? [=]] _]%Forall_cons. Qed.

(** A string on a scalar target coerces exactly when the whole of it
    spells a value of the target. *)
Lemma coerced_scalar_string t str :
  is_Some (coerced_scalar t (JString str)) ↔ lexically_parses t str.
Proof.
  assert (∀ (P : Prop) (o : option (list byte_t)) (b : bool),
            (b = true → is_Some o) → (b = true ↔ P) →
            (is_Some (if b then o else None) ↔ P)) as Hgeneric.
  { intros P o [] Ho HP; split; try tauto.
    - by intros [? [=]].
    - intros HP'. apply HP in HP'. done. }
  unfold coerced_scalar.
  assert (∀ result value,
            (result, value) = std_from_chars t str →
            match t with t_bool | t_float | t_double => False | _ => True end →
            is_Some (if bool_decide (ec result = errc_ok)
                        && bool_decide (ptr result = Z.of_nat (String.length str))
                     then le_bytes (sizeof t) <$> value else None)
            ↔ ∃ (negative : bool) (digits : string),
                str = (if negative then String "-" digits else digits) ∧
                (negative = true → is_signed_integral t = true) ∧
                digits ≠ EmptyString ∧ all_digits digits ∧
                numeric_min t
                  ≤ (if negative then - digits_value digits else digits_value digits)
                  ≤ numeric_max t) as Hint.
  { intros result value Hstd _.
    destruct (std_from_chars_unfold t str)
      as (negative & digits & Hstr & Hsigned & Hplain & Heq).
    rewrite Heq in Hstd. clear Heq.
    destruct (scan_digits_spec digits 0) as (Hle & Hall & Hvalue).
    destruct (scan_digits digits 0) as [k magnitude] eqn:Hscan. simpl in *.
    assert (String.length str = ((if negative then 1 else 0) + String.length digits)%nat)
      as Hlen by (rewrite Hstr; by destruct negative).
    clear Hscan.
    split.
    - intros Hsome. exists negative, digits.
      destruct k as [|k]; simpl in Hstd.
      { inversion Hstd; subst; simpl in Hsome. by destruct Hsome as [? [=]]. }
      destruct (decide (numeric_min t ≤ (if negative then - magnitude else magnitude)
                          ≤ numeric_max t)) as [Hrange|Hrange].
      2:{ rewrite bool_decide_eq_false_2 in Hstd by done.
          inversion Hstd; subst; simpl in Hsome. by destruct Hsome as [? [=]]. }
      rewrite bool_decide_eq_true_2 in Hstd by done.
      inversion Hstd; subst result value; simpl in Hsome.
      case_bool_decide as Hptr; [|by destruct Hsome as [? [=]]].
      assert (Datatypes.S k = String.length digits) as Hk by lia.
      pose proof (proj1 Hall Hk) as Hdigits.
      rewrite (Hvalue Hdigits) in Hrange.
      split; [done|]. split; [done|].
      split; [intros ->; simpl in Hk; lia|]. by split.
    - intros (negative' & digits' & Hstr' & Hsigned' & Hne & Hdigits' & Hrange).
      assert (negative' = negative ∧ digits' = digits) as [-> ->].
      { destruct negative', negative; simpl in Hstr, Hstr'.
        - split; [done|]. congruence.
        - exfalso. by apply (Hplain eq_refl (Hsigned' eq_refl) digits').
        - exfalso. apply (all_digits_not_minus digits). by rewrite <- Hstr, Hstr'.
        - split; [done|]. congruence. }
      pose proof (proj2 Hall Hdigits') as Hk.
      destruct k as [|k]; [destruct digits; [by destruct Hne|discriminate Hk]|].
      simpl in Hstd. rewrite (Hvalue Hdigits') in Hstd.
      unfold digits_value in Hrange.
      rewrite bool_decide_eq_true_2 in Hstd by done.
      inversion Hstd; subst. simpl.
      repeat (rewrite bool_decide_eq_true_2 by (done || lia); simpl). eauto. }
  destruct t; simpl;
    try (destruct (std_from_chars _ str) as [result value] eqn:Hstd;
         by apply Hint).
  - (* bool *)
    destruct (decide (str = "true"%string)) as [->|Htrue]; [simpl; split; eauto|].
    destruct (decide (str = "false"%string)) as [->|Hfalse]; [simpl; split; eauto|].
    rewrite (bool_decide_eq_false_2 (str = "true"%string)) by done.
    rewrite (bool_decide_eq_false_2 (str = "false"%string)) by done.
    rewrite !andb_false_r. simpl. split; [by intros [? [=]]|tauto].
  - (* float *)
    destruct (strtof (c_str str)) as [consumed bits]. simpl.
    repeat case_bool_decide; simpl; split; try (by intros [? [=]]); try (intros []; lia);
      intros _; try (split; lia); eauto.
  - (* double *)
    destruct (strtod (c_str str)) as [consumed bits]. simpl.
    repeat case_bool_decide; simpl; split; try (by intros [? [=]]); try (intros []; lia);
      intros _; try (split; lia); eauto.
Qed.
(** The three bits of a scalar cell filled from a binary blob. *)
Lemma export_scalar_column_binary t bytes doc_idx column m :
  validities column ≠ collisions column →
  conversions column ≠ validities column →
  conversions column ≠ collisions column →
  let m' := exec (export_scalar_column t (JBinary bytes) doc_idx column) m in
  bit_at m' (validities column) doc_idx = bool_decide (length bytes = sizeof t) ∧
  bit_at m' (conversions column) doc_idx = bool_decide (length bytes = sizeof t) ∧
  bit_at m' (collisions column) doc_idx = negb (bool_decide (length bytes = sizeof t)) ∧
  scalars m' !! doc_idx
  = if bool_decide (length bytes = sizeof t) then Some bytes else scalars m !! doc_idx.
Proof.
  intros Hvc Hcv Hcc. unfold export_scalar_column. cbn zeta.
  destruct (bool_decide (length bytes = sizeof t)).
  - repeat split; try (bits; reflexivity). simpl. apply lookup_insert_eq.
  - repeat split; bits; reflexivity.
Qed.

(** C8.  A cell whose source is a string and whose target is a scalar is
    valid exactly when the whole string spells a value of the target: the
    literal "true" or "false" for a boolean, decimal digits (after a minus
    sign for a signed target only) of a representable number for an
    integer, a text [strtof] / [strtod] consumes to its end for a
    floating-point target.  Every other string sets the collision bit and
    clears the validity bit. *)
Theorem string_cell_is_valid_iff_parsed_in_full (t : scalar_at) (str : string)
    (doc_idx : nat) (column : column_begin_t) (m : column_memory) :
  validities column ≠ collisions column →
  let m' := exec (export_scalar_column t (JString str) doc_idx column) m in
  (bit_at m' (validities column) doc_idx = true ↔ lexically_parses t str) ∧
  (¬ lexically_parses t str →
   bit_at m' (collisions column) doc_idx = true ∧
   bit_at m' (validities column) doc_idx = false).
Proof.
  intros Hne m'. subst m'.
  rewrite export_scalar_column_valid, export_scalar_column_collided by done.
  rewrite <- coerced_scalar_string.
  split.
  - apply bool_decide_eq_true.
  - intros Hnot. by rewrite bool_decide_eq_false_2.
Qed.

(** C9, as amended.  A binary blob whose length is the width of the scalar
    target is copied into the cell, the validity bit is set, the conversion
    bit is set and the collision bit is clear; a blob of any other length
    sets the collision bit, clears the validity and conversion bits and
    leaves the cell's scalar alone. *)
Theorem binary_cell_of_the_target_width_is_copied (t : scalar_at) (bytes : list byte_t)
    (doc_idx : nat) (column : column_begin_t) (m : column_memory) :
  validities column ≠ collisions column →
  conversions column ≠ validities column →
  conversions column ≠ collisions column →
  let m' := exec (export_scalar_column t (JBinary bytes) doc_idx column) m in
  (length bytes = sizeof t →
   scalars m' !! doc_idx = Some bytes ∧
   bit_at m' (validities column) doc_idx = true ∧
   bit_at m' (conversions column) doc_idx = true ∧
   bit_at m' (collisions column) doc_idx = false) ∧
  (length bytes ≠ sizeof t →
   scalars m' !! doc_idx = scalars m !! doc_idx ∧
   bit_at m' (collisions column) doc_idx = true ∧
   bit_at m' (validities column) doc_idx = false ∧
   bit_at m' (conversions column) doc_idx = false).
Proof.
  intros Hvc Hcv Hcc m'.
  destruct (export_scalar_column_binary t bytes doc_idx column m Hvc Hcv Hcc)
    as (Hvalid & Hconv & Hcoll & Hscalar).
  fold m' in Hvalid, Hconv, Hcoll, Hscalar.
  split; intros Hlen.
  - rewrite bool_decide_eq_true_2 in Hvalid, Hconv, Hcoll, Hscalar by done. done.
  - rewrite bool_decide_eq_false_2 in Hvalid, Hconv, Hcoll, Hscalar by done. done.
Qed.
End GatherFacts.

(** * Cells next to the exported one *)

Section CellFrames.
Context `{LibC}.
Import Gather.

Lemma cells_separate slots b b' d d' :
  b = b' ∨ slots ≤ Z.abs (b - b') →
  d ≠ d' →
  Z.of_nat d < 8 * slots → Z.of_nat d' < 8 * slots →
  octet_ref b' d' ≠ octet_ref b d ∨ Z.of_nat d' mod 8 ≠ Z.of_nat d mod 8.
Proof.
  intros Hb Hd Hlt Hlt'. unfold octet_ref.
  pose proof (Z.div_mod (Z.of_nat d) 8 ltac:(lia)) as Hdm.
  pose proof (Z.div_mod (Z.of_nat d') 8 ltac:(lia)) as Hdm'.
  pose proof (Z.mod_pos_bound (Z.of_nat d) 8 ltac:(lia)).
  pose proof (Z.mod_pos_bound (Z.of_nat d') 8 ltac:(lia)).
  destruct (decide (Z.of_nat d' mod 8 = Z.of_nat d mod 8)) as [Hmod|]; [left|by right].
  destruct Hb as [->|Hfar]; lia.
Qed.

Lemma mask_bitmap_bit d' k :
  0 ≤ k < 8 → Z.of_nat d' mod 8 ≠ k → Z.testbit (mask_bitmap d') k = false.
Proof.
  intros Hk Hne. rewrite mask_bitmap_pow2.
  pose proof (Z.mod_pos_bound (Z.of_nat d') 8 ltac:(lia)).
  apply Z.pow2_bits_false. lia.
Qed.

Lemma bit_at_or_elsewhere m b b' d d' :
  octet_ref b' d' ≠ octet_ref b d ∨ Z.of_nat d' mod 8 ≠ Z.of_nat d mod 8 →
  bit_at (exec_op m (op_or (octet_ref b' d') (mask_bitmap d'))) b d = bit_at m b d.
Proof.
  intros Hsep. unfold bit_at. simpl.
  pose proof (Z.mod_pos_bound (Z.of_nat d) 8 ltac:(lia)) as Hk.
  destruct (decide (octet_ref b' d' = octet_ref b d)) as [Heq|Hne].
  - destruct Hsep as [?|Hbit]; [done|].
    rewrite Heq, octet_at_set_same, testbit_octet, Z.lor_spec by done.
    by rewrite mask_bitmap_bit, orb_false_r.
  - by rewrite octet_at_set_other.
Qed.

Lemma bit_at_and_not_elsewhere m b b' d d' :
  octet_ref b' d' ≠ octet_ref b d ∨ Z.of_nat d' mod 8 ≠ Z.of_nat d mod 8 →
  bit_at (exec_op m (op_and_not (octet_ref b' d') (mask_bitmap d'))) b d = bit_at m b d.
Proof.
  intros Hsep. unfold bit_at. simpl.
  pose proof (Z.mod_pos_bound (Z.of_nat d) 8 ltac:(lia)) as Hk.
  destruct (decide (octet_ref b' d' = octet_ref b d)) as [Heq|Hne].
  - destruct Hsep as [?|Hbit]; [done|].
    rewrite Heq, octet_at_set_same, testbit_octet, Z.land_spec, Z.lnot_spec by lia.
    by rewrite mask_bitmap_bit, andb_true_r.
  - by rewrite octet_at_set_other.
Qed.

Lemma export_scalar_column_writes_cell t value doc_idx column :
  Forall (writes_cell column doc_idx) (export_scalar_column t value doc_idx column).
Proof.
  assert (∀ b, b ∈ bitmaps_of column →
               writes_cell column doc_idx (op_or (octet_ref b doc_idx) (mask_bitmap doc_idx)) ∧
               writes_cell column doc_idx
                 (op_and_not (octet_ref b doc_idx) (mask_bitmap doc_idx))) as Hbit.
  { intros b Hb. split; by exists b. }
  assert (validities column ∈ bitmaps_of column ∧ conversions column ∈ bitmaps_of column
          ∧ collisions column ∈ bitmaps_of column) as (Hv & Hc & Hx).
  { unfold bitmaps_of. repeat split; repeat constructor. }
  unfold export_scalar_column. cbn zeta.
  destruct value; repeat case_match;
    repeat first [apply Forall_cons; split | apply Forall_nil | apply Forall_app; split];
    try done; try (apply Hbit; assumption).
Qed.

Lemma export_string_column_writes_cell value doc_idx column output_size :
  Forall (writes_cell column doc_idx)
    (export_string_column value doc_idx column output_size).
Proof.
  assert (∀ b, b ∈ bitmaps_of column →
               writes_cell column doc_idx (op_or (octet_ref b doc_idx) (mask_bitmap doc_idx)) ∧
               writes_cell column doc_idx
                 (op_and_not (octet_ref b doc_idx) (mask_bitmap doc_idx))) as Hbit.
  { intros b Hb. split; by exists b. }
  assert (validities column ∈ bitmaps_of column ∧ conversions column ∈ bitmaps_of column
          ∧ collisions column ∈ bitmaps_of column) as (Hv & Hc & Hx).
  { unfold bitmaps_of. repeat split; repeat constructor. }
  unfold export_string_column. cbn zeta.
  destruct value; repeat case_match;
    repeat first [apply Forall_cons; split | apply Forall_nil | apply Forall_app; split];
    try done; try (apply Hbit; assumption).
Qed.

(** Writes of one cell leave the bits, the scalar, the offset and the length
    of every other cell alone, and only append to the joined tape. *)
Lemma writes_cell_frame slots column d' d ops :
  bitmaps_apart slots column →
  d ≠ d' → Z.of_nat d < 8 * slots → Z.of_nat d' < 8 * slots →
  Forall (writes_cell column d') ops →
  ∀ m,
    (∀ b, b ∈ bitmaps_of column → bit_at (exec ops m) b d = bit_at m b d) ∧
    scalars (exec ops m) !! d = scalars m !! d ∧
    str_offsets (exec ops m) !! d = str_offsets m !! d ∧
    str_lengths (exec ops m) !! d = str_lengths m !! d ∧
    ∃ appended, output (exec ops m) = output m ++ appended.
Proof.
  intros Hapart Hd Hlt Hlt' Hops.
  induction Hops as [|op ops Hop Hops IH]; intros m.
  { repeat split; try done. exists []. by rewrite app_nil_r. }
  rewrite exec_cons.
  destruct (IH (exec_op m op)) as (Hbits & Hscalar & Hoff & Hlen & appended & Hout).
  rewrite Hscalar, Hoff, Hlen, Hout.
  assert (∀ b b', b ∈ bitmaps_of column → b' ∈ bitmaps_of column →
                  octet_ref b' d' ≠ octet_ref b d ∨ Z.of_nat d' mod 8 ≠ Z.of_nat d mod 8)
    as Hsep.
  { intros b b' Hb Hb'. apply (cells_separate slots); auto. }
  split.
  { intros b Hb. rewrite Hbits by done.
    destruct op as [ref mask|ref mask| | | |]; simpl in Hop;
      try (destruct Hop as (b' & Hb' & -> & ->));
      [by apply bit_at_and_not_elsewhere, Hsep|by apply bit_at_or_elsewhere, Hsep
      |apply bit_at_scalar|apply bit_at_off|apply bit_at_len|apply bit_at_output]. }
  destruct op as [ref mask|ref mask|idx repr|idx v|idx v|bytes]; simpl in Hop; simpl;
    try subst idx; rewrite ?lookup_insert_ne by done;
    repeat split; try done; try (by exists appended).
  exists (bytes ++ appended). by rewrite app_assoc.
Qed.

(** X1.  The export of one cell does not disturb its neighbours: for a
    column whose bitmaps coincide or lie [slots] octets apart and two
    documents below [8 * slots], exporting cell [doc_idx] into a scalar
    column or into a string column leaves every bit of cell [doc_idx'] in
    the three bitmaps, its scalar, its string offset and its string length
    as they were; the scalar export leaves the joined tape alone and the
    string export only appends to it, so a string that cell [doc_idx']
    pointed at is still there. *)
Theorem cell_export_leaves_other_cells (t : scalar_at) (value : json_t)
    (doc_idx doc_idx' : nat) (column : column_begin_t) (slots : Z) (m : column_memory) :
  bitmaps_apart slots column →
  doc_idx' ≠ doc_idx →
  Z.of_nat doc_idx < 8 * slots →
  Z.of_nat doc_idx' < 8 * slots →
  let m1 := exec (export_scalar_column t value doc_idx column) m in
  let m2 := exec (export_string_column value doc_idx column (length (output m))) m in
  (∀ b, b ∈ bitmaps_of column →
        bit_at m1 b doc_idx' = bit_at m b doc_idx' ∧
        bit_at m2 b doc_idx' = bit_at m b doc_idx') ∧
  scalars m1 !! doc_idx' = scalars m !! doc_idx' ∧
  scalars m2 !! doc_idx' = scalars m !! doc_idx' ∧
  str_offsets m2 !! doc_idx' = str_offsets m !! doc_idx' ∧
  str_lengths m2 !! doc_idx' = str_lengths m !! doc_idx' ∧
  output m1 = output m ∧
  (∀ off len,
     str_offsets m !! doc_idx' = Some off → str_lengths m !! doc_idx' = Some len →
     (Z.to_nat off + Z.to_nat len ≤ length (output m))%nat →
     string_cell m2 doc_idx' = string_cell m doc_idx').
Proof.
  intros Hapart Hd Hlt Hlt' m1 m2.
  destruct (writes_cell_frame slots column doc_idx doc_idx' _ Hapart Hd Hlt' Hlt
              (export_scalar_column_writes_cell t value doc_idx column) m)
    as (Hbits1 & Hscalar1 & _ & _ & _).
  destruct (writes_cell_frame slots column doc_idx doc_idx' _ Hapart Hd Hlt' Hlt
              (export_string_column_writes_cell value doc_idx column (length (output m))) m)
    as (Hbits2 & Hscalar2 & Hoff2 & Hlen2 & appended & Hout2).
  fold m1 in Hbits1, Hscalar1. fold m2 in Hbits2, Hscalar2, Hoff2, Hlen2, Hout2.
  split; [intros b Hb; split; auto|].
  repeat split; try done.
  - unfold m1, export_scalar_column. cbn zeta.
    destruct value; repeat case_match; reflexivity.
  - intros off len Hoff Hlen Hinside.
    unfold string_cell. rewrite Hoff2, Hlen2, Hoff, Hlen, Hout2. simpl. f_equal.
    rewrite drop_app_le by lia.
    rewrite take_app_le; [done|]. rewrite length_drop. lia.
Qed.
End CellFrames.

(** * The bits, the tape and the offsets of an exported cell *)

Section CellOutcomesFacts.
Context `{LibC}.
Import Gather.

Lemma bit_at_and_not_dec m b b' d :
  bit_at (exec_op m (op_and_not (octet_ref b' d) (mask_bitmap d))) b d
  = if decide (b' = b) then false else bit_at m b d.
Proof.
  case_decide as Hb; [subst; apply bit_at_and_not_same|by apply bit_at_and_not_other].
Qed.

Lemma bit_at_or_dec m b b' d :
  bit_at (exec_op m (op_or (octet_ref b' d) (mask_bitmap d))) b d
  = if decide (b' = b) then true else bit_at m b d.
Proof.
  case_decide as Hb; [subst; apply bit_at_or_same|by apply bit_at_or_other].
Qed.

Ltac cell_bits :=
  unfold exec; cbn [foldl app];
  repeat first
    [ rewrite bit_at_or_dec | rewrite bit_at_and_not_dec
    | rewrite bit_at_scalar | rewrite bit_at_off | rewrite bit_at_len | rewrite bit_at_output ];
  repeat case_decide; try congruence; try done.

(** What the code prints of a number is what [appended_bytes] expects of
    it. *)
Lemma print_scalar_double bits :
  print_scalar (to_chars_double bits)
  = if bool_decide (Z.of_nat (String.length (snprintf_f bits)) < print_buf_len_k)
    then Some (take (String.length (snprintf_f bits) - 1) (bytes_of_string (snprintf_f bits)) ++ [0])
    else None.
Proof.
  unfold print_scalar, to_chars_double, print_buf_len_k. cbn [ptr ec].
  rewrite bool_decide_eq_true_2 by done. cbn [andb].
  replace (Z.to_nat (0 + Z.of_nat (String.length (snprintf_f bits)) - 1))
    with (String.length (snprintf_f bits) - 1)%nat by lia.
  repeat case_bool_decide; try lia; done.
Qed.

Lemma appended_integer n :
  appended_bytes (JNumberInteger n) = print_scalar (to_chars_integer n).
Proof. by rewrite print_scalar_integer. Qed.

Lemma appended_unsigned n :
  appended_bytes (JNumberUnsigned n) = print_scalar (to_chars_integer n).
Proof. by rewrite print_scalar_integer. Qed.

Lemma appended_float bits :
  appended_bytes (JNumberFloat bits) = print_scalar (to_chars_double bits).
Proof. by rewrite print_scalar_double. Qed.

Lemma as_ukv_length_small (size : nat) :
  Z.of_nat size < 2 ^ 32 → as_ukv_length size = Z.of_nat size.
Proof. intros Hsize. unfold as_ukv_length. apply Z.mod_small. lia. Qed.

(** The tape after the export of a string cell, whatever its size. *)
Lemma export_string_column_output value doc_idx column output_size m :
  output (exec (export_string_column value doc_idx column output_size) m)
  = output m ++ default [] (appended_bytes value).
Proof.
  destruct value as [| |b|n|n|bits|str|str|items|members];
    rewrite ?appended_integer, ?appended_unsigned, ?appended_float;
    unfold export_string_column; cbn zeta; cbn [appended_bytes];
    try destruct b;
    try destruct (print_scalar (to_chars_integer n));
    try destruct (print_scalar (to_chars_double bits));
    unfold exec; simpl; by rewrite ?app_nil_r.
Qed.

(** The offset and the length of an exported string cell, on a tape within
    the range of [ukv_length_t]. *)
Lemma export_string_column_records value doc_idx column m :
  Z.of_nat (length (output m ++ default [] (appended_bytes value))) < 2 ^ 32 →
  let m' := exec (export_string_column value doc_idx column (length (output m))) m in
  str_offsets m' !! doc_idx
  = Some (match value with
          | JNull | JDiscarded | JObject _ | JArray _ => ukv_length_missing_k
          | _ => Z.of_nat (length (output m))
          end) ∧
  str_lengths m' !! doc_idx = Some (default ukv_length_missing_k (recorded_length value)).
Proof.
  intros Hfit. rewrite length_app in Hfit.
  assert (as_ukv_length (length (output m)) = Z.of_nat (length (output m))) as Hoff
    by (apply as_ukv_length_small; lia).
  destruct value as [| |b|n|n|bits|str|str|items|members];
    cbn [recorded_length];
    rewrite ?appended_integer, ?appended_unsigned, ?appended_float in *;
    unfold export_string_column; cbn zeta; cbn [appended_bytes] in *; rewrite Hoff;
    try destruct b;
    try destruct (print_scalar (to_chars_integer n)) as [view|];
    try destruct (print_scalar (to_chars_double bits)) as [view|];
    simpl in Hfit; rewrite ?length_app, ?length_bytes_of_string in Hfit; simpl in Hfit;
    unfold exec; simpl; rewrite ?length_app, ?length_bytes_of_string;
    rewrite ?as_ukv_length_small by lia;
    repeat split; try done;
    rewrite ?lookup_insert_eq; try done.
Qed.

(** X2.  The validity bit is right whatever bitmaps the column shares:
    [ukv_docs_gather] points the conversion and the collision bitmap of a
    column at its validity bitmap when the caller did not ask for them, and
    both exports write the validity bit last, so after the export the
    validity bit of the cell says whether the value was coerced (scalar
    column) or appended to the joined tape (string column), for any three
    bitmap addresses. *)
Theorem validity_bit_survives_shared_bitmaps (t : scalar_at) (value : json_t)
    (doc_idx : nat) (column : column_begin_t) (m : column_memory) :
  bit_at (exec (export_scalar_column t value doc_idx column) m) (validities column) doc_idx
  = bool_decide (is_Some (coerced_scalar t value)) ∧
  bit_at (exec (export_string_column value doc_idx column (length (output m))) m)
    (validities column) doc_idx
  = bool_decide (is_Some (appended_bytes value)).
Proof.
  split; [apply export_scalar_column_valid|].
  destruct value as [| |b|n|n|bits|str|str|items|members];
    rewrite ?appended_integer, ?appended_unsigned, ?appended_float;
    unfold export_string_column; cbn zeta; cbn [appended_bytes];
    try destruct b;
    try destruct (print_scalar (to_chars_integer n));
    try destruct (print_scalar (to_chars_double bits));
    cell_bits.
Qed.

(** X3.  In a scalar column with a conversion bitmap of its own, the
    conversion bit of an exported cell is set exactly when the cell is valid
    and its value was converted, that is when the source does not already
    have the type of the target (a boolean for [bool], a signed integer for
    a signed target, an unsigned integer for an unsigned target or [bool],
    a float for [float] or [double]); in particular it is never set on a
    cell that is not valid. *)
Theorem conversion_bit_marks_a_converted_value (t : scalar_at) (value : json_t)
    (doc_idx : nat) (column : column_begin_t) (m : column_memory) :
  conversions column ≠ validities column →
  conversions column ≠ collisions column →
  bit_at (exec (export_scalar_column t value doc_idx column) m) (conversions column) doc_idx
  = bool_decide (is_Some (coerced_scalar t value)) && negb (source_matches_target t value).
Proof.
  intros Hcv Hcc.
  unfold export_scalar_column, coerced_scalar, source_matches_target. cbn zeta.
  destruct value as [| |b|n|n|bits|str|str|items|members]; try (by cell_bits).
  - case_bool_decide; by cell_bits.
  - destruct (is_signed_integral t); by cell_bits.
  - destruct (is_unsigned t); by cell_bits.
  - destruct (is_floating_point t); by cell_bits.
  - pose proof (from_chars_ok_stores t str) as Hstores.
    destruct (from_chars t str) as [result stored]. simpl in Hstores.
    destruct (bool_decide (ec result = errc_ok)) eqn:Hec; simpl.
    2:{ destruct stored; by cell_bits. }
    apply bool_decide_eq_true in Hec. destruct (Hstores Hec) as [repr ->].
    case_bool_decide; by cell_bits.
  - case_bool_decide; by cell_bits.
Qed.

(** X4.  A missing value leaves the cell empty: exporting [null] clears
    the cell's bit in each of the three bitmaps (shared or not) and writes
    no scalar and no byte of the joined tape; in a string column the
    offset and the length of the cell both become [ukv_length_missing_k]. *)
Theorem missing_value_leaves_the_cell_empty (t : scalar_at) (doc_idx : nat)
    (column : column_begin_t) (m : column_memory) :
  let m1 := exec (export_scalar_column t JNull doc_idx column) m in
  let m2 := exec (export_string_column JNull doc_idx column (length (output m))) m in
  (∀ b, b ∈ bitmaps_of column → bit_at m1 b doc_idx = false ∧ bit_at m2 b doc_idx = false) ∧
  scalars m1 = scalars m ∧ output m1 = output m ∧
  scalars m2 = scalars m ∧ output m2 = output m ∧
  str_offsets m2 !! doc_idx = Some ukv_length_missing_k ∧
  str_lengths m2 !! doc_idx = Some ukv_length_missing_k.
Proof.
  intros m1 m2. split.
  - intros b Hb. unfold bitmaps_of in Hb.
    apply elem_of_cons in Hb as [->|Hb]; [|apply elem_of_cons in Hb as [->|Hb];
      [|apply list_elem_of_singleton in Hb as ->]];
      unfold m1, m2, export_scalar_column, export_string_column; cbn zeta;
      split; by cell_bits.
  - unfold m1, m2, export_scalar_column, export_string_column, exec. simpl.
    repeat split; try done; apply lookup_insert_eq.
Qed.

(** X5.  What a string column records, on a joined tape that stays below
    the range of [ukv_length_t]: the export appends to the joined tape a
    binary as it is, a string, the text of a boolean and the decimal text
    of an integer with a NUL after them, of a floating-point number the
    ["%f"] text with its last character replaced by the NUL, and nothing for
    a value it cannot export; the cell's offset is the size of the tape
    before the export, and [ukv_length_missing_k] for [null] and for a
    container; its length is that of the appended bytes, the terminator of
    a string not counted, and [ukv_length_missing_k] when nothing was
    appended. *)
Theorem string_cell_records_what_was_appended (value : json_t) (doc_idx : nat)
    (column : column_begin_t) (m : column_memory) :
  Z.of_nat (length (output m ++ default [] (appended_bytes value))) < 2 ^ 32 →
  let m' := exec (export_string_column value doc_idx column (length (output m))) m in
  output m' = output m ++ default [] (appended_bytes value) ∧
  str_offsets m' !! doc_idx
  = Some (match value with
          | JNull | JDiscarded | JObject _ | JArray _ => ukv_length_missing_k
          | _ => Z.of_nat (length (output m))
          end) ∧
  str_lengths m' !! doc_idx = Some (default ukv_length_missing_k (recorded_length value)).
Proof.
  intros Hfit m'. split; [apply export_string_column_output|].
  by apply export_string_column_records.
Qed.
End CellOutcomesFacts.

(** * Printing integers and reading them back *)

Section PrintedIntegers.
Context `{LibC}.
Import Gather.

Ltac cell_bits :=
  unfold exec; cbn [foldl app];
  repeat first
    [ rewrite bit_at_or_same | rewrite bit_at_and_not_same
    | rewrite bit_at_scalar | rewrite bit_at_off | rewrite bit_at_len | rewrite bit_at_output
    | rewrite bit_at_or_other by congruence
    | rewrite bit_at_and_not_other by congruence ];
  try done.

Lemma digit_of_pretty_N_char r :
  (r < 10)%N → digit_of (pretty_N_char r) = Some (Z.of_N r).
Proof.
  intros Hr.
  assert (r = 0 ∨ r = 1 ∨ r = 2 ∨ r = 3 ∨ r = 4 ∨ r = 5 ∨ r = 6 ∨ r = 7 ∨ r = 8 ∨ r = 9)%N
    as Hcases by lia.
  repeat (destruct Hcases as [->|Hcases]; [reflexivity|]). by subst.
Qed.

Lemma foldl_digits_shift (l : list ascii) (acc : Z) :
  foldl (λ acc c, acc * 10 + default 0 (digit_of c)) acc l
  = acc * 10 ^ Z.of_nat (length l) + foldl (λ acc c, acc * 10 + default 0 (digit_of c)) 0 l.
Proof.
  revert acc. induction l as [|c l IH]; intros acc; simpl.
  { lia. }
  rewrite IH, (IH (0 * 10 + _)).
  replace (Z.of_nat (Datatypes.S (length l))) with (Z.of_nat (length l) + 1) by lia.
  rewrite Z.pow_add_r by lia. lia.
Qed.

Lemma length_list_ascii_of_string s : length (list_ascii_of_string s) = String.length s.
Proof. induction s; simpl; congruence. Qed.

Lemma digits_value_String c d s :
  digit_of c = Some d →
  digits_value (String c s) = d * 10 ^ Z.of_nat (String.length s) + digits_value s.
Proof.
  intros Hd. unfold digits_value. simpl.
  rewrite foldl_digits_shift, Hd, length_list_ascii_of_string. simpl. lia.
Qed.

(** The digits [pretty] puts in front of [s] spell [x]. *)
Lemma pretty_N_go_digits x :
  ∀ s, all_digits s →
       all_digits (pretty_N_go x s) ∧
       digits_value (pretty_N_go x s)
       = Z.of_N x * 10 ^ Z.of_nat (String.length s) + digits_value s.
Proof.
  induction (N.lt_wf_0 x) as [x _ IH]; intros s Hs.
  assert (x = 0 ∨ 0 < x)%N as [->|Hpos] by lia.
  { rewrite pretty_N_go_0. split; [done|]. lia. }
  rewrite pretty_N_go_step by done.
  assert (x `mod` 10 < 10)%N as Hr by (apply N.mod_lt; lia).
  pose proof (digit_of_pretty_N_char _ Hr) as Hdigit.
  destruct (IH (x `div` 10)%N ltac:(by apply N.div_lt)
              (String (pretty_N_char (x `mod` 10)) s)) as [Hall Hvalue].
  { unfold all_digits. simpl. apply Forall_cons. split; [by rewrite Hdigit|done]. }
  split; [done|].
  rewrite Hvalue, (digits_value_String _ _ _ Hdigit). simpl String.length.
  replace (Z.of_nat (Datatypes.S (String.length s)))
    with (Z.of_nat (String.length s) + 1) by lia.
  rewrite Z.pow_add_r by lia.
  pose proof (N.div_mod x 10 ltac:(lia)) as Hx.
  assert (Z.of_N x = 10 * Z.of_N (x `div` 10) + Z.of_N (x `mod` 10)) as -> by lia.
  lia.
Qed.

(** A number below [10 ^ k] gets at most [k] digits. *)
Lemma pretty_N_go_length x :
  ∀ (k : nat) s, (x < 10 ^ N.of_nat k)%N →
                 (String.length (pretty_N_go x s) ≤ k + String.length s)%nat.
Proof.
  induction (N.lt_wf_0 x) as [x _ IH]; intros k s Hk.
  assert (x = 0 ∨ 0 < x)%N as [->|Hpos] by lia.
  { rewrite pretty_N_go_0. lia. }
  rewrite pretty_N_go_step by done.
  destruct k as [|k]; [simpl in Hk; lia|].
  etrans; [apply (IH (x `div` 10)%N ltac:(by apply N.div_lt) k)|simpl; lia].
  apply N.Div0.div_lt_upper_bound.
  replace (N.of_nat (Datatypes.S k)) with (N.succ (N.of_nat k)) in Hk by lia.
  by rewrite N.pow_succ_r' in Hk.
Qed.

Lemma pretty_N_go_length_ge x :
  ∀ s, (String.length s ≤ String.length (pretty_N_go x s))%nat.
Proof.
  induction (N.lt_wf_0 x) as [x _ IH]; intros s.
  assert (x = 0 ∨ 0 < x)%N as [->|Hpos] by lia.
  { by rewrite pretty_N_go_0. }
  rewrite pretty_N_go_step by done.
  etrans; [|apply IH; by apply N.div_lt]. simpl. lia.
Qed.

Lemma pretty_Zpos (p : positive) : pretty (Z.pos p) = pretty_N_go (N.pos p) EmptyString.
Proof.
  unfold pretty at 1, pretty_Z, pretty, pretty_positive, pretty, pretty_N.
  by rewrite decide_False.
Qed.

Lemma pretty_Zneg (p : positive) : pretty (Z.neg p) = String "-" (pretty (Z.pos p)).
Proof. reflexivity. Qed.

Lemma pretty_pos_digits (p : positive) :
  all_digits (pretty (Z.pos p)) ∧ digits_value (pretty (Z.pos p)) = Z.pos p ∧
  pretty (Z.pos p) ≠ EmptyString.
Proof.
  rewrite pretty_Zpos.
  destruct (pretty_N_go_digits (N.pos p) EmptyString) as [Hall Hvalue]; [by constructor|].
  split; [done|]. split.
  { rewrite Hvalue. unfold digits_value. simpl. lia. }
  rewrite pretty_N_go_step by lia. intros Hempty.
  pose proof (pretty_N_go_length_ge (N.pos p `div` 10)
                (String (pretty_N_char (N.pos p `mod` 10)) EmptyString)) as Hlen.
  rewrite Hempty in Hlen. simpl in Hlen. lia.
Qed.

(** The decimal text of a 64-bit integer, signed or unsigned, has at most
    twenty characters. *)
Lemma pretty_length_64 (n : Z) :
  - 2 ^ 63 ≤ n < 2 ^ 64 → (String.length (pretty n) ≤ 20)%nat.
Proof.
  intros Hn. destruct n as [|p|p].
  - simpl. lia.
  - rewrite pretty_Zpos.
    etrans; [apply (pretty_N_go_length _ 20)|simpl; lia].
    change (10 ^ N.of_nat 20)%N with 100000000000000000000%N. lia.
  - rewrite pretty_Zneg, pretty_Zpos. simpl.
    apply le_n_S.
    etrans; [apply (pretty_N_go_length _ 19)|simpl; lia].
    change (10 ^ N.of_nat 19)%N with 10000000000000000000%N. lia.
Qed.

(** [std::from_chars] on the text [pretty] gives a number of the target's
    range: the whole text is consumed and the number comes back. *)
Lemma std_from_chars_pretty t n :
  numeric_min t ≤ n ≤ numeric_max t →
  (n < 0 → is_signed_integral t = true) →
  std_from_chars t (pretty n)
  = ({| ptr := Z.of_nat (String.length (pretty n)); ec := errc_ok |}, Some n).
Proof.
  intros Hrange Hsigned.
  destruct (std_from_chars_unfold t (pretty n)) as (negative & digits & Hstr & Hneg & Hpos & ->).
  assert (∃ p, (negative = false ∧ n = 0 ∧ digits = "0"%string)
               ∨ (negative = false ∧ n = Z.pos p ∧ digits = pretty (Z.pos p))
               ∨ (negative = true ∧ n = Z.neg p ∧ digits = pretty (Z.pos p))) as [p Hcases].
  { destruct n as [|p|p].
    - exists 1%positive. left. destruct negative; [done|]. by simpl in Hstr.
    - exists p. right. left. destruct (pretty_pos_digits p) as (Hall & _ & _).
      destruct negative; [|done].
      rewrite Hstr in Hall. by apply all_digits_not_minus in Hall.
    - exists p. right. right. rewrite pretty_Zneg in Hstr.
      destruct negative; [by injection Hstr as <-|].
      subst digits. by destruct (Hpos eq_refl (Hsigned ltac:(lia)) (pretty (Z.pos p))). }
  assert (all_digits digits ∧ digits ≠ EmptyString ∧
          (if negative then - digits_value digits else digits_value digits) = n)
    as (Hall & Hne & Hvalue).
  { destruct Hcases as [(-> & -> & ->)|[(-> & -> & ->)|(-> & -> & ->)]].
    - repeat split; try done. repeat constructor; by eexists.
    - destruct (pretty_pos_digits p) as (? & ? & ?). done.
    - destruct (pretty_pos_digits p) as (? & -> & ?). done. }
  destruct (scan_digits_spec digits 0) as (_ & Hfull & Hscan).
  destruct (scan_digits digits 0) as [k magnitude] eqn:Hscanned. simpl in Hfull, Hscan.
  apply Hfull in Hall as Hk. specialize (Hscan Hall). fold (digits_value digits) in Hscan.
  subst magnitude.
  destruct k as [|k].
  { destruct digits; [done|discriminate Hk]. }
  cbn zeta. rewrite Hvalue, bool_decide_eq_true_2 by done.
  do 3 f_equal. rewrite Hstr, Hk. destruct negative; simpl; lia.
Qed.

(** X6.  The print buffer of 32 bytes holds every 64-bit integer: a signed
    or unsigned integer of the document, exported into a string column
    whose joined tape is below the range of [ukv_length_t], is
    always valid; the joined tape receives its decimal text and a
    terminator, the cell points at them, and with a collision bitmap of
    its own the collision bit is clear. *)
Theorem integers_always_fit_the_print_buffer (value : json_t) (n : Z) (doc_idx : nat)
    (column : column_begin_t) (m : column_memory) :
  value = JNumberInteger n ∨ value = JNumberUnsigned n →
  - 2 ^ 63 ≤ n < 2 ^ 64 →
  Z.of_nat (length (output m)) < 2 ^ 32 →
  let m' := exec (export_string_column value doc_idx column (length (output m))) m in
  bit_at m' (validities column) doc_idx = true ∧
  output m' = output m ++ bytes_of_string (pretty n) ++ [0] ∧
  string_cell m' doc_idx = Some (bytes_of_string (pretty n) ++ [0]) ∧
  (validities column ≠ collisions column → bit_at m' (collisions column) doc_idx = false).
Proof.
  intros Hvalue Hn Htape m'.
  pose proof (pretty_length_64 n Hn) as Hlen.
  assert (print_scalar (to_chars_integer n) = Some (bytes_of_string (pretty n) ++ [0]))
    as Hprinted.
  { rewrite print_scalar_integer, bool_decide_eq_true_2; [done|].
    unfold print_buf_len_k. lia. }
  assert (m' = exec [op_off doc_idx (Z.of_nat (length (output m)));
                     op_output (bytes_of_string (pretty n) ++ [0]);
                     op_len doc_idx (Z.of_nat (length (bytes_of_string (pretty n) ++ [0])));
                     op_or (octet_ref (conversions column) doc_idx) (mask_bitmap doc_idx);
                     op_and_not (octet_ref (collisions column) doc_idx) (mask_bitmap doc_idx);
                     op_or (octet_ref (validities column) doc_idx) (mask_bitmap doc_idx)] m)
    as ->.
  { unfold m', export_string_column. cbn zeta.
    destruct Hvalue as [-> | ->]; rewrite Hprinted;
      rewrite (as_ukv_length_small (length (output m))) by done;
      rewrite as_ukv_length_small; try done;
      rewrite length_app, length_bytes_of_string; simpl; lia. }
  split; [by cell_bits|]. split; [done|]. split.
  - apply (string_cell_window _ _ (output m) _ []
             (length (bytes_of_string (pretty n) ++ [0]))).
    + unfold exec. simpl. apply lookup_insert_eq.
    + unfold exec. simpl. apply lookup_insert_eq.
    + unfold exec. simpl. by rewrite app_nil_r.
    + done.
  - intros Hne. by cell_bits.
Qed.

(** X7.  Printing and parsing are inverse on integers: the text [to_chars]
    leaves in the print buffer for an integer of the range of an integer
    target is read back by [from_chars] to the same number, to its last
    character; so the string of that text coerces to the scalar the number
    itself coerces to. *)
Theorem printed_integer_reads_back (t : scalar_at) (n : Z) :
  t ≠ t_bool → t ≠ t_float → t ≠ t_double →
  numeric_min t ≤ n ≤ numeric_max t →
  let text := (to_chars_integer n).2 in
  text = pretty n ∧
  from_chars t text
  = ({| ptr := Z.of_nat (String.length text); ec := errc_ok |}, Some (le_bytes (sizeof t) n)) ∧
  coerced_scalar t (JString text) = coerced_scalar t (JNumberInteger n).
Proof.
  intros Hbool Hfloat Hdouble Hrange text.
  assert (- 2 ^ 63 ≤ n < 2 ^ 64 ∧ (n < 0 → is_signed_integral t = true)) as [Hn Hsigned].
  { revert Hrange. unfold numeric_min, numeric_max.
    destruct t; simpl; try done; lia. }
  pose proof (pretty_length_64 n Hn) as Hlen.
  assert (text = pretty n) as ->.
  { unfold text, to_chars_integer. cbn zeta.
    rewrite bool_decide_eq_true_2; [done|]. unfold print_buf_len_k. lia. }
  split; [done|].
  assert (from_chars t (pretty n)
          = ({| ptr := Z.of_nat (String.length (pretty n)); ec := errc_ok |},
             Some (le_bytes (sizeof t) n))) as Hparsed.
  { unfold from_chars.
    destruct t; try done; by rewrite (std_from_chars_pretty _ n Hrange Hsigned). }
  split; [done|].
  unfold coerced_scalar. rewrite Hparsed. simpl.
  rewrite !bool_decide_eq_true_2 by done. simpl.
  by destruct t.
Qed.
End PrintedIntegers.

(** * The layout of a gathered table *)

Section LayoutArithmetic.
Import Tabular.

Lemma wrap_small x : 0 ≤ x < 2 ^ 64 → wrap x = x.
Proof. intros Hx. unfold wrap. by apply Z.mod_small. Qed.

Lemma min_memory_usage_bounds type : 0 ≤ min_memory_usage type ≤ 16.
Proof. destruct type; simpl; lia. Qed.

Lemma slots_needed_bounds docs_count :
  0 ≤ slots_needed docs_count ∧
  Z.of_nat docs_count ≤ 8 * slots_needed docs_count < Z.of_nat docs_count + 8.
Proof.
  unfold slots_needed.
  pose proof (Z.div_mod (Z.of_nat docs_count + 7) 8 ltac:(lia)).
  pose proof (Z.mod_pos_bound (Z.of_nat docs_count + 7) 8 ltac:(lia)).
  lia.
Qed.

Lemma slots_per_bitmap_needed docs_count :
  Z.of_nat docs_count < 2 ^ 64 → slots_per_bitmap docs_count = slots_needed docs_count.
Proof.
  intros Hfit. unfold slots_per_bitmap, slots_needed.
  pose proof (Z.div_mod (Z.of_nat docs_count) 8 ltac:(lia)).
  pose proof (Z.mod_pos_bound (Z.of_nat docs_count) 8 ltac:(lia)).
  assert (Z.of_nat docs_count / 8
          + (if bool_decide (Z.of_nat docs_count mod 8 ≠ 0) then 1 else 0)
          = (Z.of_nat docs_count + 7) / 8) as ->.
  { case_bool_decide as Hrem.
    - apply (Z.div_unique _ _ _ (Z.of_nat docs_count mod 8 - 1)); lia.
    - apply (Z.div_unique _ _ _ 7); lia. }
  apply wrap_small.
  pose proof (Z.div_mod (Z.of_nat docs_count + 7) 8 ltac:(lia)).
  pose proof (Z.mod_pos_bound (Z.of_nat docs_count + 7) 8 ltac:(lia)).
  lia.
Qed.

Lemma row_sum_bounds (types : list ukv_doc_field_type_t) :
  0 ≤ foldr (λ type sum, min_memory_usage type + sum) 0 types ≤ 16 * Z.of_nat (length types).
Proof.
  induction types as [|type l IH]; simpl; [lia|].
  pose proof (min_memory_usage_bounds type). lia.
Qed.

(** Below [2 ^ 64] nothing wraps: the sizes are the numbers they stand
    for. *)
Lemma layout_unwrapped docs_count fields_count types wants_conversions wants_collisions :
  Z.of_nat docs_count < 2 ^ 64 →
  length types = fields_count →
  bytes_needed docs_count fields_count types wants_conversions wants_collisions < 2 ^ 64 →
  let S := slots_needed docs_count in
  let C := 1 + (if wants_conversions then 1 else 0) + (if wants_collisions then 1 else 0) in
  let F := Z.of_nat fields_count in
  let R := foldr (λ type sum, min_memory_usage type + sum) 0 types in
  slots_per_bitmap docs_count = S ∧
  count_bitmaps wants_conversions wants_collisions = C ∧
  bytes_per_addresses_row fields_count = 8 * F ∧
  bytes_for_addresses fields_count = 48 * F ∧
  bytes_for_bitmaps docs_count fields_count wants_conversions wants_collisions
  = S * C * F * F ∧
  bytes_for_scalars docs_count R = R * Z.of_nat docs_count ∧
  allocated docs_count fields_count R wants_conversions wants_collisions
  = bytes_needed docs_count fields_count types wants_conversions wants_collisions ∧
  0 ≤ S * F ∧ S * F ≤ S * C * F * F ∧ S * C * F ≤ S * C * F * F ∧
  S * C * F * F < 2 ^ 64 ∧ 0 ≤ R * Z.of_nat docs_count < 2 ^ 64.
Proof.
  intros Hdocs Htypes Hfit S C F R.
  pose proof (slots_needed_bounds docs_count) as (HS & HS8 & HS8'). fold S in HS, HS8, HS8'.
  pose proof (row_sum_bounds types) as HR. fold R in HR. rewrite Htypes in HR. fold F in HR.
  assert (0 ≤ F) as HF by (unfold F; lia).
  assert (1 ≤ C ≤ 3) as HC by (unfold C; destruct wants_conversions, wants_collisions; lia).
  unfold bytes_needed, sizeof_pointer in Hfit. fold S C F R in Hfit.
  assert (0 ≤ S * F) as HSF by nia.
  assert (0 ≤ S * C * F) as HSCF by nia.
  assert (S * F ≤ S * C * F) as HSF' by nia.
  assert (S * C * F ≤ S * C * F * F ∧ 0 ≤ S * C * F * F) as [Hstep HSCFF].
  { destruct (decide (F = 0)) as [->|]; [lia|]. nia. }
  assert (0 ≤ R * Z.of_nat docs_count) as HRD by nia.
  assert (slots_per_bitmap docs_count = S) as HeqS by (by apply slots_per_bitmap_needed).
  assert (count_bitmaps wants_conversions wants_collisions = C) as HeqC.
  { unfold count_bitmaps, C.
    destruct wants_conversions, wants_collisions; by vm_compute. }
  assert (bytes_per_addresses_row fields_count = 8 * F) as Hrow.
  { unfold bytes_per_addresses_row, sizeof_pointer. fold F. apply wrap_small. lia. }
  assert (bytes_for_addresses fields_count = 48 * F) as Haddr.
  { unfold bytes_for_addresses. rewrite Hrow. rewrite wrap_small; lia. }
  assert (bytes_for_bitmaps docs_count fields_count wants_conversions wants_collisions
          = S * C * F * F) as Hbitmaps.
  { unfold bytes_for_bitmaps, bytes_per_bitmap. rewrite HeqS, HeqC. fold F.
    rewrite (wrap_small (1 * S)) by lia.
    rewrite (wrap_small (1 * S * C)) by nia.
    rewrite (wrap_small (1 * S * C * F)) by lia.
    rewrite wrap_small by lia. lia. }
  assert (bytes_for_scalars docs_count R = R * Z.of_nat docs_count) as Hscalars.
  { unfold bytes_for_scalars. apply wrap_small. lia. }
  repeat split; try done; try lia.
  unfold allocated. rewrite Haddr, Hbitmaps, Hscalars.
  rewrite (wrap_small (48 * F + _)) by lia. rewrite wrap_small by lia.
  unfold bytes_needed, sizeof_pointer. fold S C F R. lia.
Qed.

Lemma slots_far_apart base k k' S q q' :
  k ≠ k' → 0 ≤ q < S → 0 ≤ q' < S → base + k * S + q ≠ base + k' * S + q'.
Proof.
  intros Hk Hq Hq' Heq.
  destruct (Z.lt_trichotomy k k') as [Hlt|[?|Hgt]]; [|done|].
  - assert (1 * S ≤ (k' - k) * S) by (apply Z.mul_le_mono_nonneg_r; lia). lia.
  - assert (1 * S ≤ (k - k') * S) by (apply Z.mul_le_mono_nonneg_r; lia). lia.
Qed.

(** Each bitmap of the column of a field is one of the [C * F] bitmaps laid
    out one after the other behind the address tables. *)
Lemma column_bitmap_index docs_count fields_count types wants_conversions wants_collisions
    tape_ptr (field_idx : nat) b :
  Z.of_nat docs_count < 2 ^ 64 →
  length types = fields_count →
  bytes_needed docs_count fields_count types wants_conversions wants_collisions < 2 ^ 64 →
  (field_idx < fields_count)%nat →
  b ∈ bitmaps_of (column_of docs_count fields_count wants_conversions wants_collisions
                    tape_ptr field_idx) →
  ∃ j, 0 ≤ j < 1 + (if wants_conversions then 1 else 0) + (if wants_collisions then 1 else 0) ∧
       b = tape_ptr + 48 * Z.of_nat fields_count
           + (j * Z.of_nat fields_count + Z.of_nat field_idx) * slots_needed docs_count.
Proof.
  intros Hdocs Htypes Hfit Hfield Hb.
  destruct (layout_unwrapped _ _ _ _ _ Hdocs Htypes Hfit)
    as (HS & _ & _ & Haddr & _ & _ & _ & HSF & HSF' & _ & Hbits & _).
  pose proof (slots_needed_bounds docs_count) as (HS0 & _ & _).
  assert (wrap (Z.of_nat field_idx * slots_needed docs_count)
          = Z.of_nat field_idx * slots_needed docs_count) as Hidx.
  { apply wrap_small. nia. }
  assert (wrap (slots_needed docs_count * Z.of_nat fields_count)
          = slots_needed docs_count * Z.of_nat fields_count) as Hall.
  { apply wrap_small. lia. }
  unfold bitmaps_of, column_of in Hb. simpl in Hb.
  unfold result_bitmap_valid, result_bitmap_converted, result_bitmap_collision,
    first_collection_collisions, first_collection_conversions, first_collection_validities
    in Hb.
  rewrite HS, Haddr, Hidx, Hall in Hb.
  apply elem_of_cons in Hb as [->|Hb]; [exists 0; destruct wants_conversions, wants_collisions; lia|].
  apply elem_of_cons in Hb as [->|Hb].
  { destruct wants_conversions; [exists 1|exists 0]; destruct wants_collisions; lia. }
  apply list_elem_of_singleton in Hb as ->.
  destruct wants_collisions; [|exists 0; destruct wants_conversions; lia].
  destruct wants_conversions; [exists 2|exists 1]; lia.
Qed.

(** Two different cells of a table never share a bit, in any of their
    bitmaps. *)
Lemma column_cells_separate docs_count fields_count types wants_conversions wants_collisions
    tape_ptr (field_idx field_idx' doc_idx doc_idx' : nat) b b' :
  Z.of_nat docs_count < 2 ^ 64 →
  length types = fields_count →
  bytes_needed docs_count fields_count types wants_conversions wants_collisions < 2 ^ 64 →
  (field_idx < fields_count)%nat → (field_idx' < fields_count)%nat →
  (doc_idx < docs_count)%nat → (doc_idx' < docs_count)%nat →
  b ∈ bitmaps_of (column_of docs_count fields_count wants_conversions wants_collisions
                    tape_ptr field_idx) →
  b' ∈ bitmaps_of (column_of docs_count fields_count wants_conversions wants_collisions
                     tape_ptr field_idx') →
  (field_idx, doc_idx) ≠ (field_idx', doc_idx') →
  octet_ref b doc_idx ≠ octet_ref b' doc_idx'
  ∨ Z.of_nat doc_idx mod 8 ≠ Z.of_nat doc_idx' mod 8.
Proof.
  intros Hdocs Htypes Hfit Hf Hf' Hd Hd' Hb Hb' Hcells.
  destruct (layout_unwrapped _ _ _ _ _ Hdocs Htypes Hfit)
    as (HS & _ & _ & Haddr & Hbitmaps & _ & _ & HSF & HSF' & Hstep & Hbits & _).
  pose proof (slots_needed_bounds docs_count) as (HS0 & HS8 & _).
  destruct (column_bitmap_index _ _ _ _ _ _ _ _ Hdocs Htypes Hfit Hf Hb) as (j & Hj & ->).
  destruct (column_bitmap_index _ _ _ _ _ _ _ _ Hdocs Htypes Hfit Hf' Hb') as (j' & Hj' & ->).
  set (S := slots_needed docs_count) in *.
  set (F := Z.of_nat fields_count) in *.
  pose proof (Z.div_mod (Z.of_nat doc_idx) 8 ltac:(lia)) as Hdm.
  pose proof (Z.mod_pos_bound (Z.of_nat doc_idx) 8 ltac:(lia)) as Hdm8.
  pose proof (Z.div_mod (Z.of_nat doc_idx') 8 ltac:(lia)) as Hdm'.
  pose proof (Z.mod_pos_bound (Z.of_nat doc_idx') 8 ltac:(lia)) as Hdm8'.
  assert (Z.of_nat doc_idx / 8 < S ∧ Z.of_nat doc_idx' / 8 < S) as [Hq Hq'] by lia.
  unfold octet_ref.
  destruct (decide (Z.of_nat doc_idx mod 8 = Z.of_nat doc_idx' mod 8)) as [Hmod|];
    [left|by right].
  destruct (decide (j * F + Z.of_nat field_idx = j' * F + Z.of_nat field_idx')) as [Hsame|Hne].
  - assert (j = j') as Hjj.
    { destruct (Z.lt_trichotomy j j') as [Hlt|[?|Hgt]]; [|done|].
      - assert (1 * F ≤ (j' - j) * F) by (apply Z.mul_le_mono_nonneg_r; lia).
        unfold F in *. lia.
      - assert (1 * F ≤ (j - j') * F) by (apply Z.mul_le_mono_nonneg_r; lia).
        unfold F in *. lia. }
    assert (field_idx = field_idx') as <- by (subst j'; lia).
    assert (doc_idx ≠ doc_idx') as Hdoc by congruence.
    rewrite Hsame. lia.
  - apply slots_far_apart; lia.
Qed.

(** X8.  The bitmaps of a gathered table: when the sizes do not overflow
    [std::size_t], a bitmap has one octet for every eight documents, rounded
    up; the bit of every cell, in each bitmap of its column, lies in the
    part of the tape set aside for bitmaps; the bitmaps of a column are
    one bitmap or lie a whole bitmap apart; and two different cells never
    share a bit, in any of their bitmaps. *)
Theorem gather_bitmaps_do_not_overlap (docs_count fields_count : nat)
    (types : list ukv_doc_field_type_t) (wants_conversions wants_collisions : bool)
    (tape_ptr : Z) (field_idx field_idx' doc_idx doc_idx' : nat) (b b' : Z) :
  Z.of_nat docs_count < 2 ^ 64 →
  length types = fields_count →
  bytes_needed docs_count fields_count types wants_conversions wants_collisions < 2 ^ 64 →
  (field_idx < fields_count)%nat → (field_idx' < fields_count)%nat →
  (doc_idx < docs_count)%nat → (doc_idx' < docs_count)%nat →
  let column := column_of docs_count fields_count wants_conversions wants_collisions tape_ptr in
  b ∈ bitmaps_of (column field_idx) →
  b' ∈ bitmaps_of (column field_idx') →
  slots_per_bitmap docs_count = slots_needed docs_count ∧
  Z.of_nat doc_idx < 8 * slots_per_bitmap docs_count ∧
  tape_ptr + bytes_for_addresses fields_count ≤ octet_ref b doc_idx
  < tape_ptr + bytes_for_addresses fields_count
    + bytes_for_bitmaps docs_count fields_count wants_conversions wants_collisions ∧
  bitmaps_apart (slots_per_bitmap docs_count) (column field_idx) ∧
  ((field_idx, doc_idx) ≠ (field_idx', doc_idx') →
   octet_ref b doc_idx ≠ octet_ref b' doc_idx'
   ∨ Z.of_nat doc_idx mod 8 ≠ Z.of_nat doc_idx' mod 8).
Proof.
  intros Hdocs Htypes Hfit Hf Hf' Hd Hd' column Hb Hb'.
  assert ((field_idx, doc_idx) ≠ (field_idx', doc_idx') →
          octet_ref b doc_idx ≠ octet_ref b' doc_idx'
          ∨ Z.of_nat doc_idx mod 8 ≠ Z.of_nat doc_idx' mod 8) as Hsep.
  { intros Hcells.
    apply (column_cells_separate docs_count fields_count types wants_conversions
             wants_collisions tape_ptr field_idx field_idx'); assumption. }
  destruct (layout_unwrapped _ _ _ _ _ Hdocs Htypes Hfit)
    as (HS & _ & _ & Haddr & Hbitmaps & _ & _ & HSF & HSF' & Hstep & Hbits & _).
  pose proof (slots_needed_bounds docs_count) as (HS0 & HS8 & _).
  set (S := slots_needed docs_count) in *.
  set (F := Z.of_nat fields_count) in *.
  set (C := 1 + (if wants_conversions then 1 else 0) + (if wants_collisions then 1 else 0))
    in *.
  assert (∀ f x, (f < fields_count)%nat → x ∈ bitmaps_of (column f) →
                 ∃ j, 0 ≤ j < C ∧ x = tape_ptr + 48 * F + (j * F + Z.of_nat f) * S) as Hindex.
  { intros f x Hlt Hx. by eapply column_bitmap_index. }
  pose proof (Z.div_mod (Z.of_nat doc_idx) 8 ltac:(lia)) as Hdm.
  pose proof (Z.mod_pos_bound (Z.of_nat doc_idx) 8 ltac:(lia)) as Hdm8.
  pose proof (Z.div_mod (Z.of_nat doc_idx') 8 ltac:(lia)) as Hdm'.
  pose proof (Z.mod_pos_bound (Z.of_nat doc_idx') 8 ltac:(lia)) as Hdm8'.
  rewrite HS, Haddr, Hbitmaps.
  split; [done|]. split; [lia|].
  destruct (Hindex _ _ Hf Hb) as (j & Hj & ->).
  destruct (Hindex _ _ Hf' Hb') as (j' & Hj' & ->).
  assert (Z.of_nat doc_idx / 8 < S ∧ Z.of_nat doc_idx' / 8 < S) as [Hq Hq'] by lia.
  split; [|split].
  - unfold octet_ref.
    assert (j * F + Z.of_nat field_idx + 1 ≤ C * F) as Hlast by (unfold F; nia).
    assert ((j * F + Z.of_nat field_idx + 1) * S ≤ C * F * S) as Hlast'
      by (by apply Z.mul_le_mono_nonneg_r).
    assert (0 ≤ (j * F + Z.of_nat field_idx) * S) by (unfold F; nia).
    lia.
  - intros x y Hx Hy.
    destruct (Hindex _ _ Hf Hx) as (jx & Hjx & ->).
    destruct (Hindex _ _ Hf Hy) as (jy & Hjy & ->).
    destruct (decide (jx = jy)) as [->|Hne]; [by left|right]. nia.
  - exact Hsep.
Qed.



End LayoutArithmetic.

(** * The table a gather fills *)

Section GatherTable.
Context `{Nlohmann} `{KvEngine} `{LibC}.
Import Gather Tabular.

Lemma bit_at_octets m m' b d : octets m' = octets m → bit_at m' b d = bit_at m b d.
Proof. unfold bit_at, octet_at. by intros ->. Qed.

(** The writes of a cell leave the bits of every cell they are separate
    from. *)
Lemma writes_cell_bits column' d' ops b d :
  Forall (writes_cell column' d') ops →
  (∀ b', b' ∈ bitmaps_of column' →
         octet_ref b' d' ≠ octet_ref b d ∨ Z.of_nat d' mod 8 ≠ Z.of_nat d mod 8) →
  ∀ m, bit_at (exec ops m) b d = bit_at m b d.
Proof.
  intros Hops Hsep. induction Hops as [|op ops Hop Hops IH]; intros m; [done|].
  rewrite exec_cons, IH.
  destruct op as [ref mask|ref mask| | | |]; simpl in Hop;
    try (destruct Hop as (b' & Hb' & -> & ->));
    [by apply bit_at_and_not_elsewhere, Hsep|by apply bit_at_or_elsewhere, Hsep
    |apply bit_at_scalar|apply bit_at_off|apply bit_at_len|apply bit_at_output].
Qed.

Lemma writes_cell_arrays column' d' ops d :
  d ≠ d' →
  Forall (writes_cell column' d') ops →
  ∀ m,
    scalars (exec ops m) !! d = scalars m !! d ∧
    str_offsets (exec ops m) !! d = str_offsets m !! d ∧
    str_lengths (exec ops m) !! d = str_lengths m !! d.
Proof.
  intros Hd Hops. induction Hops as [|op ops Hop Hops IH]; intros m; [done|].
  rewrite exec_cons. destruct (IH (exec_op m op)) as (-> & -> & ->).
  destruct op as [ref mask|ref mask|idx repr|idx v|idx v|bytes]; simpl in Hop; simpl;
    try subst idx; rewrite ?lookup_insert_ne by done; done.
Qed.

Lemma exec_output_grows ops :
  ∀ m, ∃ appended, output (exec ops m) = output m ++ appended.
Proof.
  induction ops as [|op ops IH]; intros m; [exists []; by rewrite app_nil_r|].
  rewrite exec_cons. destruct (IH (exec_op m op)) as (appended & ->).
  destruct op; simpl; try by exists appended.
  exists (bytes ++ appended). by rewrite app_assoc.
Qed.

Lemma export_cell_writes_cell type value d column size :
  Forall (writes_cell column d) (export_cell type value d column size).
Proof.
  destruct type; unfold export_cell;
    first [apply export_scalar_column_writes_cell|apply export_string_column_writes_cell
          |apply List.Forall_nil].
Qed.

Lemma column_view_store_same tm f m : column_view (store_column tm f m) f = m.
Proof.
  unfold column_view, store_column. simpl. rewrite lookup_insert_eq. by destruct m.
Qed.

Lemma column_view_store_other tm f' m f :
  f ≠ f' →
  scalars (column_view (store_column tm f' m) f) = scalars (column_view tm f) ∧
  str_offsets (column_view (store_column tm f' m) f) = str_offsets (column_view tm f) ∧
  str_lengths (column_view (store_column tm f' m) f) = str_lengths (column_view tm f).
Proof.
  intros Hf. unfold column_view, store_column. simpl. by rewrite lookup_insert_ne.
Qed.

(** Bytes that are on the tape stay where they are when the tape grows. *)
Lemma take_drop_app_stable (tape appended bytes : list byte_t) off :
  take (length bytes) (drop off tape) = bytes →
  take (length bytes) (drop off (tape ++ appended)) = bytes.
Proof.
  intros Htake.
  assert (length bytes ≤ length tape - off)%nat as Hinside.
  { rewrite <- Htake at 1. rewrite length_take, length_drop. lia. }
  destruct (decide (off ≤ length tape)%nat) as [Hoff|Hoff].
  - rewrite drop_app_le by done. rewrite take_app_le; [done|]. by rewrite length_drop.
  - assert (length bytes = 0)%nat as Hnil by lia.
    rewrite Hnil. apply nil_length_inv in Hnil. by subst.
Qed.

Lemma export_string_column_valid value doc_idx column m :
  bit_at (exec (export_string_column value doc_idx column (length (output m))) m)
    (validities column) doc_idx
  = bool_decide (is_Some (appended_bytes value)).
Proof.
  destruct value as [| |b|n|n|bits|str|str|items|members];
    rewrite ?appended_integer, ?appended_unsigned, ?appended_float;
    unfold export_string_column; cbn zeta; cbn [appended_bytes];
    try destruct b;
    try destruct (print_scalar (to_chars_integer n));
    try destruct (print_scalar (to_chars_double bits));
    unfold exec; cbn [foldl app];
    repeat first
      [ rewrite bit_at_or_dec | rewrite bit_at_and_not_dec
      | rewrite bit_at_scalar | rewrite bit_at_off | rewrite bit_at_len
      | rewrite bit_at_output ];
    repeat case_decide; try congruence; try done.
Qed.

Lemma appended_bytes_recorded value bytes :
  appended_bytes value = Some bytes →
  ∃ len, recorded_length value = Some len ∧
         match value with
         | JNull | JDiscarded | JObject _ | JArray _ => False
         | _ => True
         end.
Proof.
  intros Happ. destruct value; cbn [recorded_length]; try done;
    rewrite ?Happ; simpl; eauto.
Qed.

Lemma cell_untouched_refl tm column f d : cell_untouched tm tm column f d.
Proof. by repeat split. Qed.

Lemma cell_untouched_trans tm1 tm2 tm3 column f d :
  cell_untouched tm1 tm2 column f d → cell_untouched tm2 tm3 column f d →
  cell_untouched tm1 tm3 column f d.
Proof.
  intros (Hbits & Hscalar & Hoff & Hlen) (Hbits' & Hscalar' & Hoff' & Hlen').
  cbn zeta in *. repeat split; [|congruence..].
  intros b Hb. rewrite Hbits' by done. by apply Hbits.
Qed.

(** What a cell holds depends on the table before the gather through the
    cell itself only. *)
Lemma cell_holds_rebase before before' tm column f d type value :
  cell_untouched before before' column f d →
  cell_holds before' tm column f d type value →
  cell_holds before tm column f d type value.
Proof.
  intros Hsame. unfold cell_holds.
  destruct (scalar_type_of type); [done|]. destruct (is_string_type type); [done|].
  by apply cell_untouched_trans.
Qed.

(** The types the [switch (type)] has no case for. *)
Lemma export_cell_into_nothing column tm f d type value :
  scalar_type_of type = None → is_string_type type = false →
  cell_untouched tm (export_cell_into column tm f d type value) (column f) f d.
Proof.
  intros Hscalar Hstring. unfold export_cell_into.
  destruct type; try done; cbn [export_cell]; unfold exec; cbn [foldl];
    unfold cell_untouched; rewrite column_view_store_same; by repeat split.
Qed.

(** The cell just exported holds its value. *)
Lemma export_cell_into_holds column tm f d type value :
  Z.of_nat (length (string_tape (export_cell_into column tm f d type value))) < 2 ^ 32 →
  cell_holds tm (export_cell_into column tm f d type value) (column f) f d type value.
Proof.
  intros Hfit.
  destruct (scalar_type_of type) as [t|] eqn:Hscalar.
  { unfold cell_holds, export_cell_into. rewrite column_view_store_same, Hscalar.
    destruct type; try done; injection Hscalar as <-; cbn [export_cell];
      (split; [apply export_scalar_column_valid|];
       intros repr Hrepr; by apply export_scalar_column_payload). }
  destruct (is_string_type type) eqn:Hstring.
  2:{ unfold cell_holds. rewrite Hscalar, Hstring. by apply export_cell_into_nothing. }
  revert Hfit. unfold cell_holds, export_cell_into.
  rewrite column_view_store_same, Hscalar, Hstring.
  assert (length (string_tape tm) = length (output (column_view tm f))) as Hsize by done.
  destruct type; try done; cbn [export_cell string_tape store_column]; rewrite Hsize.
  all: rewrite export_string_column_output; intros Hfit.
  all: pose proof (export_string_column_records value d (column f) (column_view tm f) Hfit)
         as (Hoff & Hlen).
  all: split; [apply export_string_column_valid|].
  all: intros bytes Hbytes.
  all: destruct (appended_bytes_recorded _ _ Hbytes) as (len & Hrec & Hkind).
  all: exists (length (output (column_view tm f))).
  all: split; [rewrite Hoff; by destruct value|].
  all: split; [by rewrite Hlen, Hrec|].
  all: rewrite Hbytes; cbn [default].
  all: rewrite drop_app_length; apply firstn_all.
Qed.

(** The export of a cell leaves every cell it is separate from. *)
Lemma export_cell_into_untouched column tm f' d' type' value' f d :
  (f, d) ≠ (f', d') →
  (∀ b b', b ∈ bitmaps_of (column f) → b' ∈ bitmaps_of (column f') →
           octet_ref b' d' ≠ octet_ref b d ∨ Z.of_nat d' mod 8 ≠ Z.of_nat d mod 8) →
  cell_untouched tm (export_cell_into column tm f' d' type' value') (column f) f d.
Proof.
  intros Hcells Hsep.
  unfold export_cell_into.
  set (ops := export_cell type' value' d' (column f') (length (string_tape tm))).
  set (m' := exec ops (column_view tm f')).
  assert (Forall (writes_cell (column f') d') ops) as Hops
    by apply export_cell_writes_cell.
  split; [|destruct (decide (f = f')) as [->|Hf]].
  - intros b Hb. cbn zeta. rewrite (bit_at_octets m') by done.
    unfold m'. rewrite (writes_cell_bits (column f') d'); [by apply bit_at_octets|done|].
    intros b' Hb'. by apply Hsep.
  - cbn zeta. rewrite column_view_store_same.
    apply (writes_cell_arrays (column f') d'); [|done]. congruence.
  - cbn zeta. destruct (column_view_store_other tm f' m' f Hf) as (-> & -> & ->). done.
Qed.

(** The export of a cell leaves what the other cells hold. *)
Lemma export_cell_into_frame column before tm f' d' type' value' f d type value :
  (f, d) ≠ (f', d') →
  (∀ b b', b ∈ bitmaps_of (column f) → b' ∈ bitmaps_of (column f') →
           octet_ref b' d' ≠ octet_ref b d ∨ Z.of_nat d' mod 8 ≠ Z.of_nat d mod 8) →
  cell_holds before tm (column f) f d type value →
  cell_holds before (export_cell_into column tm f' d' type' value') (column f) f d type value.
Proof.
  intros Hcells Hsep Hheld.
  pose proof (export_cell_into_untouched column tm f' d' type' value' f d Hcells Hsep)
    as Hsame.
  destruct (exec_output_grows (export_cell type' value' d' (column f') (length (string_tape tm)))
              (column_view tm f')) as (appended & Hout).
  unfold cell_holds in *. cbn zeta in *.
  destruct (scalar_type_of type).
  { destruct Hsame as (Hbits & Hscalar & _). cbn zeta in *.
    rewrite Hbits, Hscalar; [done|]. unfold bitmaps_of. constructor. }
  destruct (is_string_type type); [|by eapply cell_untouched_trans].
  destruct Hsame as (Hbits & _ & Hoff & Hlen). cbn zeta in *.
  rewrite Hbits, Hoff, Hlen by (unfold bitmaps_of; constructor).
  destruct Hheld as (Hvalid & Hbytes).
  split; [done|]. intros bytes Happ.
  destruct (Hbytes bytes Happ) as (off & ? & ? & Htake).
  exists off. split; [done|]. split; [done|].
  unfold export_cell_into. cbn [string_tape store_column]. rewrite Hout.
  by apply take_drop_app_stable.
Qed.

Lemma export_cell_into_grows column tm f d type value :
  ∃ appended,
    string_tape (export_cell_into column tm f d type value) = string_tape tm ++ appended.
Proof.
  unfold export_cell_into. cbn [string_tape store_column].
  apply (exec_output_grows _ (column_view tm f)).
Qed.

Lemma found_value_heapy_of parsed field w :
  found_value parsed (heapy_of field) w = Done (gathered_value parsed field) w.
Proof. unfold heapy_of, gathered_value. by case_decide. Qed.

Lemma strided_take_spec {A} (it : strided_iterator_gt A) :
  ∀ n i l, strided_take it i n = Some l →
           length l = n ∧ ∀ j x, l !! j = Some x → strided_at it (i + j) = Some x.
Proof.
  induction n as [|n IH]; intros i l Htake; simpl in Htake.
  { injection Htake as <-. split; [done|]. by intros j x. }
  destruct (strided_at it i) as [x|] eqn:Hat; [|done]. simpl in Htake.
  destruct (strided_take it (Datatypes.S i) n) as [rest|] eqn:Hrest; [|done].
  injection Htake as <-.
  destruct (IH _ _ Hrest) as [Hlen Hlookup].
  split; [simpl; by rewrite Hlen|].
  intros [|j] y Hy; simpl in Hy.
  - injection Hy as <-. by rewrite Nat.add_0_r.
  - rewrite <- (Hlookup j y Hy). f_equal. lia.
Qed.

(** [parse_fields] without an error has parsed [n] fields that are all
    there, each pointer well formed. *)
Lemma parse_fields_loop_spec seen :
  ∀ n idx fields_parsed w out w',
    (idx + n ≤ length fields_parsed)%nat →
    parse_fields_loop seen idx n fields_parsed w = Done out w' →
    c_error w' = None →
    w' = w ∧
    ∃ names,
      length names = n ∧
      take n (drop idx seen) = Some <$> names ∧
      Forall (λ field, first_char field = "/"%char → json_pointer_ok field = true) names ∧
      out = take idx fields_parsed ++ (heapy_of <$> names)
            ++ drop (idx + n) fields_parsed.
Proof.
  induction n as [|n IH]; intros idx fields_parsed w out w' Hlen Hrun Hok; simpl in Hrun.
  { injection Hrun as <- <-. split; [done|]. exists []. simpl.
    rewrite Nat.add_0_r, take_drop. by repeat split. }
  apply bind_Done in Hrun as (field & w1 & Hfield & Hrun).
  apply checked_Done in Hfield as [Hfield ->].
  destruct field as [field|].
  2:{ unfold bind, log_error, ret in Hrun. simpl in Hrun. injection Hrun as <- <-. done. }
  assert (drop idx seen = Some field :: drop (Datatypes.S idx) seen) as Hdrop
    by (by apply drop_S).
  assert (take (Datatypes.S idx) (<[idx := heapy_of field]> fields_parsed)
          = take idx fields_parsed ++ [heapy_of field]) as Htake.
  { rewrite (take_S_r _ _ (heapy_of field)) by (apply list_lookup_insert_eq; lia).
    by rewrite take_insert_ge. }
  assert (parse_fields_loop seen (idx + 1) n (<[idx := heapy_of field]> fields_parsed) w
          = Done out w' ∧ (first_char field = "/"%char → json_pointer_ok field = true))
    as [Hrest Hpointer].
  { unfold heapy_of. destruct (decide (first_char field = "/"%char)) as [Hslash|Hname].
    - destruct (json_pointer_ok field) eqn:Hwell; [done|].
      unfold bind, log_error, ret in Hrun. simpl in Hrun. injection Hrun as <- <-. done.
    - done. }
  apply IH in Hrest as (-> & names & Hnames & Hseen & Hwell & ->); [|rewrite length_insert; lia|done].
  split; [done|]. exists (field :: names). simpl.
  replace (idx + 1)%nat with (Datatypes.S idx) in * by lia.
  rewrite Hdrop. simpl. rewrite Hseen, Htake, <- app_assoc. simpl.
  rewrite drop_insert_lt by lia.
  replace (Datatypes.S idx + n)%nat with (idx + Datatypes.S n)%nat by lia.
  split; [by rewrite Hnames|]. split; [done|]. split; [by constructor|].
  by replace (idx + Datatypes.S n)%nat with (Datatypes.S (idx + n)) by lia.
Qed.

Lemma parse_fields_spec fields n w out w' :
  parse_fields fields n w = Done out w' →
  c_error w' = None →
  w' = w ∧
  ∃ seen names,
    fields_seen fields = Some seen ∧
    length names = n ∧
    take n seen = Some <$> names ∧
    Forall (λ field, first_char field = "/"%char → json_pointer_ok field = true) names ∧
    out = heapy_of <$> names.
Proof.
  unfold parse_fields. intros Hrun Hok.
  apply bind_Done in Hrun as (seen & w1 & Hseen & Hrun).
  apply checked_Done in Hseen as [Hseen ->].
  apply parse_fields_loop_spec in Hrun as (-> & names & Hlen & Htake & Hwell & ->);
    [|by rewrite length_replicate|done].
  split; [done|]. exists seen, names. repeat split; try done.
  simpl. rewrite drop_ge by (rewrite length_replicate; lia). by rewrite app_nil_r.
Qed.

Section Loops.
Context (column : nat → column_begin_t) (docs_count fields_count : nat).
Context (types : strided_iterator_gt ukv_doc_field_type_t) (names : list string).

Hypothesis cells_apart :
  ∀ f f' d d' b b',
    (f < fields_count)%nat → (f' < fields_count)%nat →
    (d < docs_count)%nat → (d' < docs_count)%nat →
    b ∈ bitmaps_of (column f) → b' ∈ bitmaps_of (column f') →
    (f, d) ≠ (f', d') →
    octet_ref b d ≠ octet_ref b' d' ∨ Z.of_nat d mod 8 ≠ Z.of_nat d' mod 8.

Hypothesis names_count : length names = fields_count.

(** The string tape only grows. *)
Lemma gather_fields_grows parsed d :
  ∀ n f tm w tm' w',
    gather_fields column types (heapy_of <$> names) parsed d f n tm w = Done tm' w' →
    w' = w ∧ ∃ appended, string_tape tm' = string_tape tm ++ appended.
Proof.
  induction n as [|n IH]; intros f tm w tm' w' Hrun; simpl in Hrun.
  { injection Hrun as <- <-. split; [done|]. exists []. by rewrite app_nil_r. }
  apply bind_Done in Hrun as (type & w1 & Htype & Hrun).
  apply checked_Done in Htype as [Htype ->].
  apply bind_Done in Hrun as (name_or_path & w1 & Hname & Hrun).
  apply checked_Done in Hname as [Hname ->].
  apply list_lookup_fmap_Some in Hname as (field & -> & Hfield).
  apply bind_Done in Hrun as (value & w1 & Hvalue & Hrun).
  rewrite found_value_heapy_of in Hvalue. injection Hvalue as <- <-.
  apply IH in Hrun as (-> & rest & ->). split; [done|].
  destruct (export_cell_into_grows column tm f d type (gathered_value parsed field))
    as (first & ->).
  exists (first ++ rest). by rewrite app_assoc.
Qed.

Lemma gather_docs_grows :
  ∀ found d tm w tm' w',
    gather_docs column types (heapy_of <$> names) fields_count d found tm w
    = Done (Some tm') w' →
    ∃ appended, string_tape tm' = string_tape tm ++ appended.
Proof.
  induction found as [|binary_doc rest IH]; intros d tm w tm' w' Hrun; simpl in Hrun.
  { injection Hrun as <- <-. exists []. by rewrite app_nil_r. }
  apply bind_Done in Hrun as (parsed & w1 & Hparse & Hrun).
  apply return_if_error_m_Done in Hrun as [(_ & [=] & _)|[Hok1 Hrun]].
  apply bind_Done in Hrun as (tm1 & w2 & Hfields & Hrun).
  apply gather_fields_grows in Hfields as (-> & first & Hfirst).
  apply IH in Hrun as (later & ->).
  exists (first ++ later). by rewrite Hfirst, app_assoc.
Qed.

Lemma gather_fields_spec parsed d :
  (d < docs_count)%nat →
  ∀ n f tm w tm' w',
    (f + n ≤ fields_count)%nat →
    gather_fields column types (heapy_of <$> names) parsed d f n tm w = Done tm' w' →
    Z.of_nat (length (string_tape tm')) < 2 ^ 32 →
    w' = w ∧
    (∀ f0 d0,
       (f0 < fields_count)%nat → (d0 < docs_count)%nat →
       (d0 ≠ d ∨ (f0 < f)%nat ∨ (f + n ≤ f0)%nat ∨
        ∃ type0, strided_at types f0 = Some type0 ∧
                 scalar_type_of type0 = None ∧ is_string_type type0 = false) →
       cell_untouched tm tm' (column f0) f0 d0) ∧
    (∀ before f0 d0 type0 value0,
       (f0 < fields_count)%nat → (d0 < docs_count)%nat → d0 ≠ d ∨ (f0 < f)%nat →
       cell_holds before tm (column f0) f0 d0 type0 value0 →
       cell_holds before tm' (column f0) f0 d0 type0 value0) ∧
    (∀ i field,
       (f ≤ i < f + n)%nat → names !! i = Some field →
       ∃ type, strided_at types i = Some type ∧
               cell_holds tm tm' (column i) i d type (gathered_value parsed field)).
Proof.
  intros Hd. induction n as [|n IH]; intros f tm w tm' w' Hf Hrun Hfit; simpl in Hrun.
  { injection Hrun as <- <-. split; [done|].
    split; [intros; apply cell_untouched_refl|]. split; [done|]. intros; lia. }
  apply bind_Done in Hrun as (type & w1 & Htype & Hrun).
  apply checked_Done in Htype as [Htype ->].
  apply bind_Done in Hrun as (name_or_path & w1 & Hname & Hrun).
  apply checked_Done in Hname as [Hname ->].
  apply list_lookup_fmap_Some in Hname as (field & -> & Hfield).
  apply bind_Done in Hrun as (value & w1 & Hvalue & Hrun).
  rewrite found_value_heapy_of in Hvalue. injection Hvalue as <- <-.
  destruct (gather_fields_grows _ _ _ _ _ _ _ _ Hrun) as (_ & rest & Hrest).
  assert (Z.of_nat (length (string_tape
            (export_cell_into column tm f d type (gathered_value parsed field)))) < 2 ^ 32)
    as Hfit1.
  { rewrite Hrest, length_app in Hfit. lia. }
  apply IH in Hrun as (-> & Hsame & Hframe & Hnew); [|lia|done].
  assert (∀ f0 d0,
            (f0 < fields_count)%nat → (d0 < docs_count)%nat → (f0, d0) ≠ (f, d) →
            cell_untouched tm
              (export_cell_into column tm f d type (gathered_value parsed field))
              (column f0) f0 d0) as Hstep.
  { intros f0 d0 Hf0 Hd0 Hne.
    apply export_cell_into_untouched; [done|].
    intros b b' Hb Hb'.
    apply (cells_apart f f0 d d0 b' b); [lia|done|done|done|done|done|congruence]. }
  split; [done|].
  split; [|split].
  - intros f0 d0 Hf0 Hd0 Hwhere.
    apply (cell_untouched_trans _
             (export_cell_into column tm f d type (gathered_value parsed field))).
    + destruct (decide ((f0, d0) = (f, d))) as [[= -> ->]|Hne]; [|by apply Hstep].
      destruct Hwhere as [?|[?|[?|(type0 & Htype0 & Hscalar & Hstring)]]]; try lia.
      rewrite Htype in Htype0. injection Htype0 as <-.
      by apply export_cell_into_nothing.
    + apply Hsame; [done|done|].
      destruct Hwhere as [?|[?|[?|?]]]; [by left|right; left; lia|right; right; left; lia|].
      by right; right; right.
  - intros before f0 d0 type0 value0 Hf0 Hd0 Hbefore Hheld.
    apply Hframe; [done|done|lia|].
    apply export_cell_into_frame; [intros [= -> ->]; lia| |done].
    intros b b' Hb Hb'.
    apply (cells_apart f f0 d d0 b' b); [lia|done|done|done|done|done|].
    intros [= -> ->]. lia.
  - intros i field' Hi Hfield'.
    destruct (decide (i = f)) as [->|Hne].
    + rewrite Hfield in Hfield'. injection Hfield' as <-.
      exists type. split; [done|].
      apply Hframe; [lia|done|right; lia|]. by apply export_cell_into_holds.
    + destruct (Hnew i field' ltac:(lia) Hfield') as (type' & Htype' & Hheld).
      exists type'. split; [done|].
      apply (cell_holds_rebase _
               (export_cell_into column tm f d type (gathered_value parsed field)));
        [|done].
      apply Hstep; [lia|done|congruence].
Qed.

Lemma gather_docs_spec :
  ∀ found d tm w tm' w',
    (d + length found ≤ docs_count)%nat →
    c_error w = None →
    gather_docs column types (heapy_of <$> names) fields_count d found tm w
    = Done (Some tm') w' →
    Z.of_nat (length (string_tape tm')) < 2 ^ 32 →
    c_error w' = None ∧
    store w' = store w ∧
    reads_of (trace w') = reads_of (trace w) ∧
    writes_of (trace w') = writes_of (trace w) ∧
    (∀ f0 d0,
       (f0 < fields_count)%nat → (d0 < docs_count)%nat →
       ((d0 < d)%nat ∨ (d + length found ≤ d0)%nat ∨
        ∃ type0, strided_at types f0 = Some type0 ∧
                 scalar_type_of type0 = None ∧ is_string_type type0 = false) →
       cell_untouched tm tm' (column f0) f0 d0) ∧
    (∀ before f0 d0 type0 value0,
       (f0 < fields_count)%nat → (d0 < d)%nat →
       cell_holds before tm (column f0) f0 d0 type0 value0 →
       cell_holds before tm' (column f0) f0 d0 type0 value0) ∧
    (∀ j blob i field,
       found !! j = Some blob → names !! i = Some field →
       ∃ parsed type,
         Deprecated.parse_result blob internal_format_k = Some parsed ∧
         strided_at types i = Some type ∧
         cell_holds tm tm' (column i) i (d + j) type (gathered_value parsed field)).
Proof.
  induction found as [|binary_doc rest IH]; intros d tm w tm' w' Hd Hok Hrun Hfit;
    simpl in Hrun.
  { injection Hrun as <- <-. repeat split; done. }
  simpl in Hd.
  apply bind_Done in Hrun as (parsed & w1 & Hparse & Hrun).
  destruct (parse_any_spec binary_doc internal_format_k w)
    as (parsed' & w1' & Hparse' & Hstore1 & Htrace1 & Hparsed).
  rewrite Hparse in Hparse'. injection Hparse' as <- <-.
  apply return_if_error_m_Done in Hrun as [(_ & [=] & _)|[Hok1 Hrun]].
  destruct (Deprecated.parse_result binary_doc internal_format_k) as [doc|] eqn:Hdoc;
    [|by destruct Hparsed].
  destruct Hparsed as [-> _].
  apply bind_Done in Hrun as (tm1 & w2 & Hfields & Hrun).
  destruct (gather_docs_grows _ _ _ _ _ _ Hrun) as (later & Hlater).
  apply gather_fields_spec in Hfields as (-> & Hsame1 & Hframe1 & Hnew1);
    [|lia|lia|rewrite Hlater, length_app in Hfit; lia].
  apply IH in Hrun as (Hok' & Hstore & Hreads & Hwrites & Hsame & Hframe & Hnew);
    [|lia|done|done].
  split; [done|].
  split; [congruence|].
  split; [by rewrite Hreads, Htrace1, reads_of_app, app_nil_r|].
  split; [by rewrite Hwrites, Htrace1, writes_of_app, app_nil_r|].
  split; [|split].
  - intros f0 d0 Hf0 Hd0 Hwhere. cbn [length] in Hwhere.
    apply (cell_untouched_trans _ tm1).
    + apply Hsame1; [done|done|].
      destruct Hwhere as [?|[?|?]]; [left; lia|left; lia|by right; right; right].
    + apply Hsame; [done|done|].
      destruct Hwhere as [?|[?|?]]; [left; lia|right; left; lia|by right; right].
  - intros before f0 d0 type0 value0 Hf0 Hd0 Hheld.
    apply Hframe; [done|lia|]. apply Hframe1; [done|lia|left; lia|done].
  - intros j blob i field Hblob Hfield.
    assert (i < fields_count)%nat as Hi.
    { rewrite <- names_count. by eapply lookup_lt_Some. }
    destruct j as [|j]; simpl in Hblob.
    + injection Hblob as <-.
      destruct (Hnew1 i field ltac:(lia) Hfield) as (type & Htype & Hheld).
      exists doc, type. rewrite Nat.add_0_r. repeat split; try done.
      apply Hframe; [done|lia|done].
    + destruct (Hnew j blob i field Hblob Hfield) as (parsed & type & ? & ? & Hheld).
      apply lookup_lt_Some in Hblob as Hj.
      exists parsed, type. repeat split; try done.
      replace (d + Datatypes.S j)%nat with (d + 1 + j)%nat by lia.
      apply (cell_holds_rebase _ tm1); [|done].
      apply Hsame1; [done|lia|left; lia].
Qed.
End Loops.

(** X10.  What [ukv_docs_gather] leaves in the table: a call that runs to
    its end (sizes below the range of [std::size_t], string tape below that
    of [ukv_length_t]) has stored no error, has read the documents with one
    [ukv_read] and written nothing to the database; every field argument was
    there; and for every document and every field the cell is settled by the
    type of the field's column and the part of that document the field
    names: a scalar cell is valid exactly when the part coerces and then
    holds the coerced scalar; a string or binary cell is valid exactly when
    the part was appended and then points at its bytes on the string tape;
    a cell of a column of type [f16], [uuid] or [null], for which the
    [switch] has no case, is left as the allocated memory was: its three
    bits, its scalar, its offset and its length are not written. *)
Theorem gather_fills_every_cell (c : ukv_docs_gather_t) (tape_ptr : Z) (tape : table_memory)
    (types : list ukv_doc_field_type_t) (w w' : world) (tm : table_memory) :
  strided_take (dg_types c) 0 (dg_fields_count c) = Some types →
  Z.of_nat (length (dg_keys c)) < 2 ^ 64 →
  bytes_needed (length (dg_keys c)) (dg_fields_count c) types
    (dg_wants_conversions c) (dg_wants_collisions c) < 2 ^ 64 →
  ukv_docs_gather c tape_ptr tape w = Done (Some tm) w' →
  Z.of_nat (length (string_tape tm)) < 2 ^ 32 →
  c_error w' = None ∧
  store w' = store w ∧
  reads_of (trace w')
  = reads_of (trace w) ++ [{| read_db := dg_db c; read_transaction := dg_transaction c;
                              read_options := dg_options c; read_tasks := dg_keys c |}] ∧
  writes_of (trace w') = writes_of (trace w) ∧
  ∃ seen names,
    fields_seen (dg_fields c) = Some seen ∧
    take (dg_fields_count c) seen = Some <$> names ∧
    length names = dg_fields_count c ∧
    ∀ doc_idx key field_idx field type,
      dg_keys c !! doc_idx = Some key →
      names !! field_idx = Some field →
      types !! field_idx = Some type →
      ∃ parsed,
        Deprecated.parse_result (kv_get (store w) key) internal_format_k = Some parsed ∧
        cell_holds tape tm
          (column_of (length (dg_keys c)) (dg_fields_count c) (dg_wants_conversions c)
             (dg_wants_collisions c) tape_ptr field_idx)
          field_idx doc_idx type (gathered_value parsed field).
Proof.
  intros Htypes Hdocs Hfit Hrun Htape.
  destruct (strided_take_spec _ _ _ _ Htypes) as [Hcount Htype_at].
  unfold ukv_docs_gather in Hrun.
  apply return_if_error_m_Done in Hrun as [(_ & [=] & _)|[Hok Hrun]].
  apply bind_Done in Hrun as (found & w1 & Hread & Hrun).
  destruct (ukv_read_spec {| read_db := dg_db c; read_transaction := dg_transaction c;
                             read_options := dg_options c; read_tasks := dg_keys c |} w)
    as (found' & w1' & Hread' & Hstore1 & Htrace1 & Hfound).
  rewrite Hread in Hread'. injection Hread' as <- <-.
  apply return_if_error_m_Done in Hrun as [(_ & [=] & _)|[Hok1 Hrun]].
  destruct (kv_read_error _ _); [destruct Hfound; congruence|].
  destruct Hfound as [-> _]. simpl in Hrun.
  apply bind_Done in Hrun as (found_binaries & w2 & Hfound & Hrun).
  injection Hfound as <- <-.
  apply bind_Done in Hrun as (heapy_fields & w2 & Hfields & Hrun).
  apply return_if_error_m_Done in Hrun as [(_ & [=] & _)|[Hok2 Hrun]].
  apply parse_fields_spec in Hfields
    as (-> & seen & names & Hseen & Hnames & Htake & _ & ->); [|done].
  apply bind_Done in Hrun as (types' & w2 & Htypes' & Hrun).
  apply checked_Done in Htypes' as [_ ->].
  apply (gather_docs_spec _ (length (dg_keys c)) (dg_fields_count c)) in Hrun
    as (Hok' & Hstore & Hreads & Hwrites & _ & _ & Hcells);
    [| |done|rewrite length_fmap; simpl; lia|done|done].
  2:{ intros f f' d d' b b' Hf Hf' Hd Hd' Hb Hb' Hne.
      by apply (column_cells_separate (length (dg_keys c)) (dg_fields_count c) types
                  (dg_wants_conversions c) (dg_wants_collisions c) tape_ptr f f'). }
  split; [done|]. split; [congruence|].
  split; [by rewrite Hreads, Htrace1, reads_of_app|].
  split; [by rewrite Hwrites, Htrace1, writes_of_app, app_nil_r|].
  exists seen, names. repeat split; try done.
  intros doc_idx key field_idx field type Hkey Hfield Htype.
  destruct (Hcells doc_idx (kv_get (store w) key) field_idx field) as
    (parsed & type' & Hparsed & Htype' & Hheld); [by rewrite list_lookup_fmap, Hkey|done|].
  pose proof (Htype_at _ _ Htype) as Hat. simpl in Hat.
  rewrite Hat in Htype'. injection Htype' as <-.
  exists parsed. split; [done|].
  revert Hheld. apply cell_holds_rebase. by repeat split.
Qed.
End GatherTable.

(** * The field arguments of a gather *)

Section FieldArguments.
Context `{Nlohmann} `{KvEngine}.
Import Tabular.

Lemma parse_fields_loop_total seen :
  ∀ n idx fields_parsed w,
    (idx + n ≤ length seen)%nat →
    (idx + n ≤ length fields_parsed)%nat →
    ∃ out w' k,
      parse_fields_loop seen idx n fields_parsed w = Done out w' ∧
      store w' = store w ∧ trace w' = trace w ∧
      length out = length fields_parsed ∧
      (idx ≤ k ≤ idx + n)%nat ∧
      (∀ j, (j < idx ∨ k ≤ j)%nat → out !! j = fields_parsed !! j) ∧
      (∀ j field, (idx ≤ j < k)%nat → seen !! j = Some field →
         field_error field = None ∧
         ∃ name, field = Some name ∧ out !! j = Some (heapy_of name)) ∧
      (if decide (k = idx + n)%nat then c_error w' = c_error w
       else ∃ field e, seen !! k = Some field ∧ field_error field = Some e ∧
                       c_error w' = Some e).
Proof.
  induction n as [|n IH]; intros idx fields_parsed w Hseen Hlen.
  { exists fields_parsed, w, idx. simpl. rewrite decide_True by lia.
    split_and!; try done; try lia; intros j field Hj; lia. }
  destruct (lookup_lt_is_Some_2 seen idx ltac:(lia)) as [field Hfield].
  unfold ukv_str_view_t in *.
  assert (∀ e, field_error field = Some e →
               parse_fields_loop seen idx (Datatypes.S n) fields_parsed w
               = Done fields_parsed {| store := store w; c_error := Some e;
                                       trace := trace w |}) as Hbad.
  { intros e He. cbn [parse_fields_loop]. unfold ukv_str_view_t. rewrite Hfield. unfold bind at 1. simpl.
    destruct field as [name|]; simpl in He.
    - destruct (decide (first_char name = "/"%char)); [|done].
      destruct (json_pointer_ok name); [done|]. by injection He as <-.
    - by injection He as <-. }
  destruct (field_error field) as [e|] eqn:Herror.
  { eexists _, _, idx. split; [by apply Hbad|]. simpl.
    rewrite decide_False by lia.
    split_and!; try done; try lia. by exists field, e. }
  destruct field as [name|]; [|done].
  assert (parse_fields_loop seen idx (Datatypes.S n) fields_parsed w
          = parse_fields_loop seen (idx + 1) n (<[idx := heapy_of name]> fields_parsed) w)
    as Hstep.
  { cbn [parse_fields_loop]. unfold ukv_str_view_t. rewrite Hfield. unfold bind at 1. simpl.
    simpl in Herror. unfold heapy_of.
    destruct (decide (first_char name = "/"%char)); [|done].
    by destruct (json_pointer_ok name). }
  destruct (IH (idx + 1)%nat (<[idx := heapy_of name]> fields_parsed) w)
    as (out & w' & k & Hrun & Hstore & Htrace & Hout & Hk & Hkept & Hparsed & Hend);
    [lia|rewrite length_insert; lia|].
  exists out, w', k. rewrite Hstep.
  split; [done|]. split; [done|]. split; [done|].
  split; [by rewrite Hout, length_insert|]. split; [lia|].
  split; [|split].
  - intros j Hj. rewrite Hkept by lia. apply list_lookup_insert_ne. lia.
  - intros j field Hj Hfield'.
    destruct (decide (j = idx)) as [->|Hne].
    + rewrite Hfield in Hfield'. injection Hfield' as <-.
      split; [done|]. exists name. split; [done|].
      rewrite Hkept by lia. apply list_lookup_insert_eq. lia.
    + apply Hparsed; [lia|done].
  - replace (idx + Datatypes.S n)%nat with (idx + 1 + n)%nat by lia. done.
Qed.

(** X11.  [parse_fields] takes the fields up to the first one it cannot
    take and stops there: given [n] field pointers it never aborts and
    changes nothing but the error; it returns [n] entries, of which the
    first [k] are the fields parsed (a JSON pointer for a field that starts
    with a slash, a member name otherwise) and the others are left empty;
    when [k] is [n] the error is untouched, otherwise field [k] is a
    null pointer or a malformed path and the error says which. *)
Theorem parse_fields_stops_at_the_first_bad_field (fields : fields_arg_t) (n : nat)
    (seen : list ukv_str_view_t) (w : world) :
  fields_seen fields = Some seen →
  (n ≤ length seen)%nat →
  ∃ out w' k,
    parse_fields fields n w = Done out w' ∧
    store w' = store w ∧ trace w' = trace w ∧
    length out = n ∧ (k ≤ n)%nat ∧
    (∀ j field, (j < k)%nat → seen !! j = Some field →
       field_error field = None ∧
       ∃ name, field = Some name ∧ out !! j = Some (heapy_of name)) ∧
    (∀ j, (k ≤ j < n)%nat → out !! j = Some heapy_monostate) ∧
    (if decide (k = n) then c_error w' = c_error w
     else ∃ field e, seen !! k = Some field ∧ field_error field = Some e ∧
                     c_error w' = Some e).
Proof.
  intros Hseen Hn. unfold parse_fields. rewrite Hseen. simpl.
  destruct (parse_fields_loop_total seen n 0%nat (replicate n heapy_monostate) w)
    as (out & w' & k & Hrun & Hstore & Htrace & Hout & Hk & Hkept & Hparsed & Hend);
    [lia|rewrite length_replicate; lia|].
  exists out, w', k. unfold bind at 1. simpl.
  split; [done|]. split; [done|]. split; [done|].
  split; [by rewrite Hout, length_replicate|]. split; [lia|].
  split; [|split].
  - intros j field Hj. apply Hparsed. lia.
  - intros j Hj. rewrite Hkept by lia. apply lookup_replicate_2. lia.
  - done.
Qed.
End FieldArguments.

(** * The paths a gist exports *)

Section Gist.
Import Tabular.
Context `{Nlohmann} `{KvEngine} `{UnorderedSet}.

Lemma path_tape_cons path paths :
  path_tape (path :: paths) = (bytes_of_string path ++ [0]) ++ path_tape paths.
Proof. done. Qed.

Lemma path_tape_app paths paths' :
  path_tape (paths ++ paths') = path_tape paths ++ path_tape paths'.
Proof. unfold path_tape. by rewrite fmap_app, join_app. Qed.

Lemma length_path_tape_cons path paths :
  Z.of_nat (length (path_tape (path :: paths)))
  = Z.of_nat (String.length path) + 1 + Z.of_nat (length (path_tape paths)).
Proof.
  rewrite path_tape_cons, !length_app, length_bytes_of_string. simpl. lia.
Qed.

Lemma path_offsets_spec paths :
  ∀ total_length,
    0 ≤ total_length →
    total_length + Z.of_nat (length (path_tape paths)) < 2 ^ 32 →
    length (path_offsets total_length paths) = Datatypes.S (length paths) ∧
    ∀ i, (i ≤ length paths)%nat →
         path_offsets total_length paths !! i
         = Some (total_length + Z.of_nat (length (path_tape (take i paths)))).
Proof.
  induction paths as [|path paths IH]; intros total_length Hpos Hfit.
  { split; [done|]. intros [|i] Hi; simpl in *; [|lia]. f_equal. lia. }
  rewrite length_path_tape_cons in Hfit.
  assert (wrap_length (total_length + (Z.of_nat (String.length path) + 1))
          = total_length + (Z.of_nat (String.length path) + 1)) as Hwrap.
  { unfold wrap_length. apply Z.mod_small. lia. }
  simpl. rewrite Hwrap.
  destruct (IH (total_length + (Z.of_nat (String.length path) + 1))) as [Hlen Hlookup];
    [lia|lia|].
  split; [by rewrite Hlen|].
  intros [|i] Hi; simpl.
  - f_equal. change (path_tape []) with (@nil byte_t). simpl. lia.
  - rewrite Hlookup by (simpl in Hi; lia). f_equal.
    rewrite length_path_tape_cons. lia.
Qed.

(** X12.  The offsets [ukv_docs_gist] exports delimit the paths on its
    tape: for paths that fit a tape below the range of [ukv_length_t]
    there is one offset per path and one more, the last of them the length
    of the tape; a path lies at its offset, with its terminator, and the
    next offset is the one behind that terminator. *)
Theorem gist_offsets_delimit_the_paths (paths : list string) :
  Z.of_nat (length (path_tape paths)) < 2 ^ 32 →
  length (path_offsets 0 paths) = Datatypes.S (length paths) ∧
  path_offsets 0 paths !! length paths = Some (Z.of_nat (length (path_tape paths))) ∧
  ∀ i path,
    paths !! i = Some path →
    ∃ off : nat,
      path_offsets 0 paths !! i = Some (Z.of_nat off) ∧
      path_offsets 0 paths !! Datatypes.S i
      = Some (Z.of_nat off + Z.of_nat (String.length path) + 1) ∧
      take (String.length path + 1) (drop off (path_tape paths))
      = bytes_of_string path ++ [0].
Proof.
  intros Hfit.
  destruct (path_offsets_spec paths 0 ltac:(lia) ltac:(lia)) as [Hlen Hlookup].
  split; [done|]. split.
  { rewrite Hlookup by lia. by rewrite firstn_all. }
  intros i path Hpath.
  pose proof (lookup_lt_Some _ _ _ Hpath) as Hi.
  exists (length (path_tape (take i paths))).
  split; [by rewrite Hlookup by lia|]. split.
  - rewrite Hlookup by lia. f_equal.
    rewrite (take_S_r _ _ path) by done.
    rewrite path_tape_app, length_app.
    change (path_tape [path]) with ((bytes_of_string path ++ [0]) ++ []).
    rewrite app_nil_r, length_app, length_bytes_of_string. simpl. lia.
  - rewrite <- (take_drop_middle paths i path Hpath) at 2.
    rewrite path_tape_app, path_tape_cons, drop_app_length.
    rewrite take_app_le by (rewrite length_app, length_bytes_of_string; simpl; lia).
    rewrite take_ge; [done|].
    rewrite length_app, length_bytes_of_string. simpl. lia.
Qed.


End Gist.

(** * Batches that are written *)

Section WrittenBatches.
Context `{Nlohmann} `{KvEngine}.

Lemma replace_docs_loop_spec contents c_format :
  ∀ places doc_idx growing_tape w out w',
    Deprecated.replace_docs_loop contents c_format doc_idx places growing_tape w
    = Done out w' →
    c_error w' = None →
    ∃ entries,
      out = Some (growing_tape ++ entries) ∧
      length entries = length places ∧
      store w' = store w ∧
      writes_of (trace w') = writes_of (trace w) ∧
      ∀ i entry,
        entries !! i = Some entry →
        ∃ content doc,
          contents !! (doc_idx + i)%nat = Some content ∧
          Deprecated.parse_result (content_view content) c_format = Some doc ∧
          is_discarded doc = false ∧
          Deprecated.serialized doc internal_format_k = Some entry.
Proof.
  induction places as [|place rest IH]; intros doc_idx growing_tape w out w' Hrun Hok;
    cbn [Deprecated.replace_docs_loop] in Hrun.
  { injection Hrun as <- <-. exists []. rewrite app_nil_r. by repeat split. }
  apply bind_Done in Hrun as (content & w0 & Hcontent & Hrun).
  apply checked_Done in Hcontent as [Hcontent ->].
  apply bind_Done in Hrun as (parsed & w1 & Hparse & Hrun).
  destruct (parse_any_spec (content_view content) c_format w)
    as (parsed' & w1' & Hparse' & Hstore1 & Htrace1 & Hparsed).
  rewrite Hparse in Hparse'. injection Hparse' as <- <-.
  apply return_if_error_m_Done in Hrun as [(Herr & _ & ->)|[Hok1 Hrun]]; [done|].
  destruct (Deprecated.parse_result (content_view content) c_format) as [doc|] eqn:Hdoc;
    [|by destruct Hparsed].
  destruct Hparsed as [-> _].
  destruct (is_discarded doc) eqn:Hdiscarded.
  { unfold bind, log_error, ret in Hrun. simpl in Hrun. by injection Hrun as <- <-. }
  apply bind_Done in Hrun as (tape1 & w2 & Hpush & Hrun).
  destruct (push_back_spec growing_tape doc internal_format_k w1)
    as (tape1' & w2' & Hpush' & Hstore2 & Htrace2 & _ & Hpushed).
  rewrite Hpush in Hpush'. injection Hpush' as <- <-.
  apply return_if_error_m_Done in Hrun as [(Herr & _ & ->)|[Hok2 Hrun]]; [done|].
  specialize (Hpushed Hok1).
  destruct (Deprecated.serialized doc internal_format_k) as [entry|] eqn:Hentry;
    [|by destruct Hpushed].
  destruct Hpushed as [_ ->].
  apply IH in Hrun as (entries & -> & Hlen & Hstore & Hwrites & Hentries); [|done].
  exists (entry :: entries). rewrite <- app_assoc. simpl.
  split; [done|]. split; [by rewrite Hlen|]. split; [congruence|].
  split.
  { rewrite Hwrites, Htrace2, Htrace1, !writes_of_app. simpl. by rewrite !app_nil_r. }
  intros [|i] entry' Hentry'; simpl in Hentry'.
  - injection Hentry' as <-. exists content, doc. by rewrite Nat.add_0_r.
  - destruct (Hentries i entry' Hentry') as (content' & doc' & Hcontent' & Hrest).
    exists content', doc'. split; [|done].
    by replace (doc_idx + Datatypes.S i)%nat with (doc_idx + 1 + i)%nat by lia.
Qed.

(** X16.  A batch [replace_docs] accepts is written at once: when the call
    returns without an error, every entry of the batch parsed in the
    caller's format to a document the parser did not discard, and the call
    has issued one [ukv_write], after which the database is what the
    engine made of it: the caller's keys, in the caller's order, each with
    its document serialised in the internal format. *)
Theorem replace_docs_writes_every_document_once
    (c_db : ukv_database_t) (c_txn : ukv_transaction_t) (places : places_arg_t)
    (contents : contents_arg_t) (c_options : ukv_options_t) (c_format : ukv_format_t)
    (w w' : world) :
  Deprecated.replace_docs c_db c_txn places contents c_options c_format w = Done tt w' →
  c_error w' = None →
  ∃ entries,
    length entries = count places ∧
    (∀ i entry,
       entries !! i = Some entry →
       ∃ content doc,
         contents !! i = Some content ∧
         Deprecated.parse_result (content_view content) c_format = Some doc ∧
         is_discarded doc = false ∧
         Deprecated.serialized doc internal_format_k = Some entry) ∧
    writes_of (trace w')
    = writes_of (trace w)
      ++ [{| write_db := c_db; write_transaction := c_txn; write_options := c_options;
             write_tasks := keys_begin places; write_contents := Some <$> entries |}] ∧
    kv_write (store w)
      {| write_db := c_db; write_transaction := c_txn; write_options := c_options;
         write_tasks := keys_begin places; write_contents := Some <$> entries |}
    = inr (store w').
Proof.
  unfold Deprecated.replace_docs. intros Hrun Hok.
  apply return_if_error_m_Done in Hrun as [(Herr & _ & ->)|[Hok0 Hrun]]; [done|].
  apply bind_Done in Hrun as (growing_tape & w1 & Hloop & Hrun).
  destruct growing_tape as [growing_tape|].
  2:{ injection Hrun as <-.
      by apply replace_docs_loop_spec in Hloop as (? & [=] & _). }
  destruct (ukv_write_spec {| write_db := c_db; write_transaction := c_txn;
                              write_options := c_options;
                              write_tasks := keys_begin places;
                              write_contents := Some <$> growing_tape |} w1)
    as (w2 & Hwrite & Htrace2 & Hwritten).
  rewrite Hrun in Hwrite. injection Hwrite as <-.
  destruct (kv_write _ _) as [e|db'] eqn:Hengine; [destruct Hwritten; congruence|].
  destruct Hwritten as [Hstore2 Hok1].
  apply replace_docs_loop_spec in Hloop
    as (entries & [= ->] & Hlen & Hstore & Hwrites & Hentries); [|congruence].
  simpl in *. exists entries. split; [done|]. split; [done|].
  split; [by rewrite Htrace2, writes_of_app, Hwrites|].
  by rewrite <- Hstore, Hengine, Hstore2.
Qed.

Lemma update_docs_loop_spec contents c_format :
  ∀ tasks idx updated_vals w out w',
    LogicDocs.update_docs_loop contents c_format idx tasks updated_vals w = Done out w' →
    c_error w' = None →
    ∃ vals,
      out = Some (updated_vals ++ vals) ∧
      length vals = length tasks ∧
      store w' = store w ∧
      writes_of (trace w') = writes_of (trace w) ∧
      ∀ i val,
        vals !! i = Some val →
        ∃ task,
          contents !! (idx + i)%nat = Some task ∧
          match task with
          | None => val = None
          | Some view =>
              ∃ doc bytes,
                LogicDocs.parse_result view c_format = Some doc ∧
                is_discarded doc = false ∧
                LogicDocs.dump_result doc ukv_format_msgpack_k = Some bytes ∧
                val = Some bytes
          end.
Proof.
  induction tasks as [|task0 rest IH]; intros idx updated_vals w out w' Hrun Hok;
    cbn [LogicDocs.update_docs_loop] in Hrun.
  { injection Hrun as <- <-. exists []. rewrite app_nil_r. by repeat split. }
  apply bind_Done in Hrun as (task & w0 & Htask & Hrun).
  apply checked_Done in Htask as [Htask ->].
  assert (∀ val w1,
            store w1 = store w → writes_of (trace w1) = writes_of (trace w) →
            match task with
            | None => val = None
            | Some view =>
                ∃ doc bytes,
                  LogicDocs.parse_result view c_format = Some doc ∧
                  is_discarded doc = false ∧
                  LogicDocs.dump_result doc ukv_format_msgpack_k = Some bytes ∧
                  val = Some bytes
            end →
            LogicDocs.update_docs_loop contents c_format (idx + 1) rest
              (updated_vals ++ [val]) w1 = Done out w' →
            ∃ vals,
              out = Some (updated_vals ++ vals) ∧
              length vals = length (task0 :: rest) ∧
              store w' = store w ∧
              writes_of (trace w') = writes_of (trace w) ∧
              ∀ i val,
                vals !! i = Some val →
                ∃ task,
                  contents !! (idx + i)%nat = Some task ∧
                  match task with
                  | None => val = None
                  | Some view =>
                      ∃ doc bytes,
                        LogicDocs.parse_result view c_format = Some doc ∧
                        is_discarded doc = false ∧
                        LogicDocs.dump_result doc ukv_format_msgpack_k = Some bytes ∧
                        val = Some bytes
                  end) as Hrest.
  { intros val w1 Hstore1 Hwrites1 Hval Hloop.
    apply IH in Hloop as (vals & -> & Hlen & Hstore & Hwrites & Hvals); [|done].
    exists (val :: vals). rewrite <- app_assoc. simpl.
    split; [done|]. split; [by rewrite Hlen|]. split; [congruence|]. split; [congruence|].
    intros [|i] val' Hval'; simpl in Hval'.
    - injection Hval' as <-. exists task. by rewrite Nat.add_0_r.
    - destruct (Hvals i val' Hval') as (task' & Htask' & Hrest).
      exists task'. split; [|done].
      by replace (idx + Datatypes.S i)%nat with (idx + 1 + i)%nat by lia. }
  destruct task as [view|]; [|by apply (Hrest None w)].
  apply bind_Done in Hrun as (parsed & w1 & Hparse & Hrun).
  apply logic_parse_any_Done in Hparse as (Hstore1 & Htrace1 & Hparsed).
  apply return_if_error_m_Done in Hrun as [(Herr & _ & ->)|[Hok1 Hrun]]; [done|].
  destruct (Hparsed Hok1) as [_ Hdoc].
  destruct (is_discarded parsed) eqn:Hdiscarded.
  { unfold bind, log_error, ret in Hrun. simpl in Hrun. by injection Hrun as <- <-. }
  apply bind_Done in Hrun as (bytes & w2 & Hdump & Hrun).
  apply logic_dump_any_Done in Hdump as (Hstore2 & Htrace2 & Hdumped).
  apply return_if_error_m_Done in Hrun as [(Herr & _ & ->)|[Hok2 Hrun]]; [done|].
  destruct (Hdumped Hok2) as [_ Hbytes].
  apply (Hrest (Some bytes) w2); [congruence| |by exists parsed, bytes|done].
  rewrite Htrace2, Htrace1, !writes_of_app. simpl. by rewrite !app_nil_r.
Qed.

(** X17.  A batch [update_docs] of logic_docs.cpp accepts is written at
    once: when the call returns without an error the batch was not empty,
    and the call has issued one [ukv_write] of the first [n] keys, after
    which the database is what the engine made of it; a deleted entry is
    passed on as deleted, every other entry parsed in the caller's format
    and is written as the MessagePack of its document. *)
Theorem update_docs_writes_every_document_once
    (c_db : ukv_database_t) (c_txn : ukv_transaction_t) (tasks : list collection_key_t)
    (contents : contents_arg_t) (fields : strided_iterator_gt ukv_str_view_t) (n : nat)
    (c_options : ukv_options_t) (c_format : ukv_format_t) (w w' : world) :
  LogicDocs.update_docs c_db c_txn tasks contents fields n c_options c_format w
  = Done tt w' →
  c_error w' = None →
  ∃ updated_vals,
    updated_vals ≠ [] ∧
    length updated_vals = length (take n tasks) ∧
    (∀ i val,
       updated_vals !! i = Some val →
       ∃ task,
         contents !! i = Some task ∧
         match task with
         | None => val = None
         | Some view =>
             ∃ doc bytes,
               LogicDocs.parse_result view c_format = Some doc ∧
               is_discarded doc = false ∧
               LogicDocs.dump_result doc ukv_format_msgpack_k = Some bytes ∧
               val = Some bytes
         end) ∧
    writes_of (trace w')
    = writes_of (trace w)
      ++ [{| write_db := c_db; write_transaction := c_txn; write_options := c_options;
             write_tasks := take n tasks; write_contents := updated_vals |}] ∧
    kv_write (store w)
      {| write_db := c_db; write_transaction := c_txn; write_options := c_options;
         write_tasks := take n tasks; write_contents := updated_vals |}
    = inr (store w').
Proof.
  unfold LogicDocs.update_docs. intros Hrun Hok.
  apply return_if_error_m_Done in Hrun as [(Herr & _ & ->)|[Hok0 Hrun]]; [done|].
  apply bind_Done in Hrun as (updated_vals & w1 & Hloop & Hrun).
  destruct updated_vals as [updated_vals|].
  2:{ injection Hrun as <-.
      by apply update_docs_loop_spec in Hloop as (? & [=] & _). }
  apply bind_Done in Hrun as (first & w1' & Hfirst & Hrun).
  apply checked_Done in Hfirst as [Hfirst ->].
  destruct (ukv_write_spec {| write_db := c_db; write_transaction := c_txn;
                              write_options := c_options;
                              write_tasks := take n tasks;
                              write_contents := updated_vals |} w1)
    as (w2 & Hwrite & Htrace2 & Hwritten).
  rewrite Hrun in Hwrite. injection Hwrite as <-.
  destruct (kv_write _ _) as [e|db'] eqn:Hengine; [destruct Hwritten; congruence|].
  destruct Hwritten as [Hstore2 Hok1].
  apply update_docs_loop_spec in Hloop
    as (vals & [= ->] & Hlen & Hstore & Hwrites & Hvals); [|congruence].
  simpl in *. exists vals. split; [by destruct vals|]. split; [done|]. split; [done|].
  split; [by rewrite Htrace2, writes_of_app, Hwrites|].
  by rewrite <- Hstore, Hengine, Hstore2.
Qed.
End WrittenBatches.

(** * The gist of logic_docs.cpp *)

Section LogicGistFacts.
Import Tabular.
Context `{Nlohmann} `{KvEngine} `{UnorderedSet}.

Lemma logic_gist_docs_spec :
  ∀ found paths w paths' w',
    LogicGist.gist_docs found paths w = Done (Some paths') w' →
    c_error w' = None →
    store w' = store w ∧
    reads_of (trace w') = reads_of (trace w) ∧
    writes_of (trace w') = writes_of (trace w) ∧
    ∃ flats,
      Forall2 (λ blob flat,
                 ∃ parsed, LogicDocs.parse_result blob internal_format_k = Some parsed ∧
                           flatten parsed = Some flat) found flats ∧
      ∀ path, path ∈ paths' ↔ path ∈ paths ∨ ∃ flat, flat ∈ flats ∧ path ∈ item_keys flat.
Proof.
  induction found as [|binary_doc rest IH]; intros paths w paths' w' Hrun Hok; simpl in Hrun.
  { injection Hrun as <- <-. repeat split; try done. exists []. split; [constructor|].
    intros path. split; [by left|]. intros [?|(flat & Hflat & _)]; [done|].
    by apply elem_of_nil in Hflat. }
  apply bind_Done in Hrun as (parsed & w1 & Hparse & Hrun).
  apply logic_parse_any_Done in Hparse as (Hstore1 & Htrace1 & Hparsed).
  apply return_if_error_m_Done in Hrun as [(_ & [=] & _)|[Hok1 Hrun]].
  destruct (Hparsed Hok1) as [_ Hdoc].
  apply bind_Done in Hrun as (parsed_flat & w2 & Hflat & Hrun).
  apply unguarded_Done in Hflat as [Hflat ->].
  apply IH in Hrun as (Hstore & Hreads & Hwrites & flats & Hflats & Hpaths); [|done].
  split; [congruence|].
  split; [by rewrite Hreads, Htrace1, reads_of_app, app_nil_r|].
  split; [by rewrite Hwrites, Htrace1, writes_of_app, app_nil_r|].
  exists (parsed_flat :: flats). split; [constructor; eauto|].
  intros path. rewrite Hpaths, elem_of_union, elem_of_list_to_set. split.
  - intros [[?|Hnew]|(flat & Hflat' & Hin)]; [by left| |].
    + right. exists parsed_flat. split; [constructor|done].
    + right. exists flat. split; [by constructor|done].
  - intros [?|(flat & Hflat' & Hin)]; [by left; left|].
    apply elem_of_cons in Hflat' as [->|Hflat']; [by left; right|].
    right. by exists flat.
Qed.

(** X18.  What [ukv_docs_gist] of logic_docs.cpp exports: a call that
    returns the paths without an error has read the documents with one
    [ukv_read] of the caller's keys and written nothing; it exports each
    path once, with its terminator, and the paths are exactly the keys of
    the flattened documents, every document parsed from the internal
    format. *)
Theorem logic_gist_exports_every_path_once (c_db : ukv_database_t)
    (c_txn : ukv_transaction_t) (keys : list collection_key_t) (c_options : ukv_options_t)
    (w w' : world) (count : nat) (tape : list byte_t) :
  LogicGist.ukv_docs_gist c_db c_txn keys c_options w = Done (Some (count, tape)) w' →
  c_error w' = None →
  store w' = store w ∧
  reads_of (trace w')
  = reads_of (trace w) ++ [{| read_db := c_db; read_transaction := c_txn;
                              read_options := c_options; read_tasks := keys |}] ∧
  writes_of (trace w') = writes_of (trace w) ∧
  ∃ order flats,
    count = length order ∧ tape = path_tape order ∧
    NoDup order ∧
    Forall2 (λ key flat,
               ∃ parsed,
                 LogicDocs.parse_result (kv_get (store w) key) internal_format_k
                 = Some parsed ∧
                 flatten parsed = Some flat) keys flats ∧
    ∀ path, path ∈ order ↔ ∃ flat, flat ∈ flats ∧ path ∈ item_keys flat.
Proof.
  intros Hrun Hok. unfold LogicGist.ukv_docs_gist in Hrun.
  apply bind_Done in Hrun as (found & w1 & Hread & Hrun).
  destruct (ukv_read_spec {| read_db := c_db; read_transaction := c_txn;
                             read_options := c_options; read_tasks := keys |} w)
    as (found' & w1' & Hread' & Hstore1 & Htrace1 & Hfound).
  rewrite Hread in Hread'. injection Hread' as <- <-.
  apply return_if_error_m_Done in Hrun as [(_ & [=] & _)|[Hok1 Hrun]].
  destruct (kv_read_error _ _); [destruct Hfound; congruence|].
  destruct Hfound as [-> _]. simpl in Hrun.
  apply bind_Done in Hrun as (binary_docs & w2 & Hfound & Hrun).
  injection Hfound as <- <-.
  apply bind_Done in Hrun as (paths & w2 & Hdocs & Hrun).
  destruct paths as [paths|]; [|done].
  injection Hrun as <- <- <-.
  apply logic_gist_docs_spec in Hdocs as (Hstore & Hreads & Hwrites & flats & Hflats & Hpaths);
    [|done].
  split; [congruence|].
  split; [by rewrite Hreads, Htrace1, reads_of_app|].
  split; [by rewrite Hwrites, Htrace1, writes_of_app, app_nil_r|].
  exists (iterate paths), flats. repeat split; try done.
  - rewrite iterate_elements. apply NoDup_elements.
  - by apply Forall2_fmap_l in Hflats.
  - rewrite iterate_elements, elem_of_elements, Hpaths. intros [Hempty|?]; [|done].
    by apply elem_of_empty in Hempty.
  - intros Hpath. rewrite iterate_elements, elem_of_elements, Hpaths. by right.
Qed.
End LogicGistFacts.

(** * The claims on concrete inputs

    The calls below run on the stand-ins of [Fixtures]: the cut-down JSON
    library, the map-backed engine and the platform without floats. *)

Import Fixtures.

(** C1.  [read_modify_write] does not dump the modified document.  On a
    store that holds [{"a":1,"b":2}] under key 42, writing the JSON text
    [5] to the field "a" makes [ukv_docs_write] issue one [ukv_write] whose
    value for key 42 is [5], the dump of the patched part, and that is what
    the store holds afterwards; the MessagePack dump of the whole modified
    document [{"a":5,"b":2}] is a blob of seven bytes. *)
Theorem read_modify_write_pushes_the_patched_part :
  ∃ w',
    Deprecated.ukv_docs_write field_write (world_of one_doc) = Done tt w' ∧
    c_error w' = None ∧
    writes_of (trace w') =
      [{| write_db := Some 1; write_transaction := None; write_options := 0;
          write_tasks := [(0, 42)]; write_contents := [Some [5]] |}] ∧
    kv_get (store w') (0, 42) = [5] ∧
    Deprecated.parse_result (kv_get (store (world_of one_doc)) (0, 42)) internal_format_k
      = Some (JObject [("a"%string, JNumberUnsigned 1); ("b"%string, JNumberUnsigned 2)]) ∧
    Deprecated.serialized
      (find_assign (JObject [("a"%string, JNumberUnsigned 1); ("b"%string, JNumberUnsigned 2)])
         "a" (JNumberUnsigned 5)) internal_format_k
      = Some [130; 161; 97; 5; 161; 98; 2].
Proof.
  eexists. split; [vm_compute; reflexivity|].
  repeat split; vm_compute; reflexivity.
Qed.

(** The read of [repeated_read] answers its four tuples in the caller's
    order, with one callback per tuple. *)
Lemma docs_read_serves_caller_order_witness :
  Deprecated.ukv_docs_read repeated_read (world_of two_docs)
    = Done (Some repeated_tape) repeated_world ∧
  c_error repeated_world = None ∧
  length repeated_tape = length (dr_tasks repeated_read) ∧
  (∀ i place, dr_tasks repeated_read !! i = Some place →
     if forwards_read repeated_read
     then repeated_tape !! i = Some (kv_get (store (world_of two_docs)) place)
     else ∃ field,
       field_view (dr_fields repeated_read) i = Some field ∧
       repeated_tape !! i
       = Deprecated.expected_entry (dr_format repeated_read)
           (kv_get (store (world_of two_docs)) place) field) ∧
  (forwards_read repeated_read = false →
     ∃ fields,
       length fields = length (dr_tasks repeated_read) ∧
       (∀ i f, fields !! i = Some f → field_view (dr_fields repeated_read) i = Some f) ∧
       callbacks_of (trace repeated_world)
       = callbacks_of (trace (world_of two_docs)) ++ imap (λ i f, (i, f)) fields).
Proof.
  assert (Deprecated.ukv_docs_read repeated_read (world_of two_docs)
          = Done (Some repeated_tape) repeated_world) as Hrun
    by (vm_compute; reflexivity).
  split; [exact Hrun|]. split; [reflexivity|].
  exact (docs_read_serves_caller_order repeated_read (world_of two_docs)
           repeated_tape repeated_world Hrun eq_refl).
Defined.

(** A read of whole documents in the internal format is handed to the
    engine with its duplicates: two entries are requested for one unique
    pair, so the claim C4 as stated does not hold of every batched read. *)
Lemma forwarded_read_requests_duplicates :
  ¬ (∀ (c : ukv_docs_read_t) (w : world),
       c_error w = None →
       dr_db c ≠ None →
       ∃ requested,
         reads_of (trace (final (Deprecated.ukv_docs_read c w))) =
           reads_of (trace w) ++ [{| read_db := dr_db c; read_transaction := dr_transaction c;
                                     read_options := dr_options c; read_tasks := requested |}] ∧
         length requested = size (list_to_set (dr_tasks c) : gset collection_key_t)).
Proof.
  intros Hclaim.
  destruct (Hclaim duplicated_read (world_of two_docs) eq_refl ltac:(vm_compute; discriminate))
    as (requested & Hreads & Hlen).
  vm_compute in Hreads. injection Hreads as <-.
  vm_compute in Hlen. discriminate Hlen.
Qed.

(** The read of [repeated_read] goes through the planner: one [ukv_read]
    of the two unique pairs, one parse of each. *)
Lemma planned_read_fetches_unique_documents_once_witness :
  (c_error (world_of two_docs) = None ∧ dr_db repeated_read ≠ None ∧
   forwards_read repeated_read = false) ∧
  ∃ requested n,
    reads_of (trace (final (Deprecated.ukv_docs_read repeated_read (world_of two_docs)))) =
      reads_of (trace (world_of two_docs))
      ++ [{| read_db := dr_db repeated_read; read_transaction := dr_transaction repeated_read;
             read_options := dr_options repeated_read; read_tasks := requested |}] ∧
    length requested = size (list_to_set (dr_tasks repeated_read) : gset collection_key_t) ∧
    NoDup requested ∧
    (∀ k, k ∈ requested ↔ k ∈ dr_tasks repeated_read) ∧
    parses_of (trace (final (Deprecated.ukv_docs_read repeated_read (world_of two_docs)))) =
      parses_of (trace (world_of two_docs))
      ++ ((λ k, (kv_get (store (world_of two_docs)) k, internal_format_k))
            <$> take n requested) ∧
    (∀ out w',
       Deprecated.ukv_docs_read repeated_read (world_of two_docs) = Done out w' →
       c_error w' = None → take n requested = requested).
Proof.
  assert (dr_db repeated_read ≠ None) as Hdb by (vm_compute; discriminate).
  split; [by repeat split|].
  exact (planned_read_fetches_unique_documents_once repeated_read (world_of two_docs)
           eq_refl Hdb eq_refl).
Defined.

(** The batch [broken_write]: its first entry parses and dumps, its second
    is no JSON; nothing is written and the error is the parse error. *)
Lemma replace_docs_parse_failure_writes_nothing_witness :
  c_error (world_of one_doc) = None ∧
  (1 < count broken_places)%nat ∧
  dw_contents broken_write !! 1%nat = Some (Some [120; 33]) ∧
  Deprecated.parse_result (content_view (Some [120; 33])) ukv_format_json_k = Some JDiscarded ∧
  parse_until (dw_contents broken_write) ukv_format_json_k 1 ∧
  ∃ w',
    Deprecated.replace_docs (Some 1) None broken_places (dw_contents broken_write) 0
      ukv_format_json_k (world_of one_doc) = Done tt w' ∧
    store w' = store (world_of one_doc) ∧
    writes_of (trace w') = writes_of (trace (world_of one_doc)) ∧
    c_error w' ≠ None ∧
    (parse_until (dw_contents broken_write) ukv_format_json_k 1 →
     Deprecated.parse_result (content_view (Some [120; 33])) ukv_format_json_k
       = Some JDiscarded →
     c_error w' = Some (error_msg "Couldn't parse inputs")).
Proof.
  split; [reflexivity|]. split; [vm_compute; lia|]. split; [reflexivity|].
  split; [vm_compute; reflexivity|]. split.
  - intros j content Hj Hcontent.
    destruct j as [|j]; [|lia]. injection Hcontent as <-.
    exists (JNumberUnsigned 5), [5]. repeat split; vm_compute; reflexivity.
  - apply (replace_docs_parse_failure_writes_nothing (Some 1) None broken_places
             (dw_contents broken_write) 0 ukv_format_json_k (world_of one_doc) 1
             (Some [120; 33])).
    + reflexivity.
    + vm_compute. lia.
    + reflexivity.
    + intros doc Hdoc. vm_compute in Hdoc. by injection Hdoc as <-.
Defined.

(** A whole document written and read in the internal format. *)
Lemma internal_format_without_fields_is_forwarded_witness :
  (dw_fields plain_write = strided_null ∧ dw_format plain_write = internal_format_k ∧
   dr_fields plain_read = strided_null ∧ dr_format plain_read = internal_format_k ∧
   c_error (world_of one_doc) = None) ∧
  Deprecated.ukv_docs_write plain_write (world_of one_doc)
    = ukv_write plain_write_call (world_of one_doc) ∧
  LogicDocs.ukv_docs_write plain_write (world_of one_doc)
    = ukv_write plain_write_call (world_of one_doc) ∧
  Deprecated.ukv_docs_read plain_read (world_of one_doc)
    = ukv_read plain_read_call (world_of one_doc) ∧
  LogicDocs.ukv_docs_read plain_read (world_of one_doc)
    = ukv_read plain_read_call (world_of one_doc) ∧
  (∃ w', ukv_write plain_write_call (world_of one_doc) = Done tt w' ∧
         trace w' = trace (world_of one_doc) ++ [ev_ukv_write plain_write_call]) ∧
  (∃ found w', ukv_read plain_read_call (world_of one_doc) = Done found w' ∧
               trace w' = trace (world_of one_doc) ++ [ev_ukv_read plain_read_call]).
Proof.
  split; [repeat split; reflexivity|].
  exact (internal_format_without_fields_is_forwarded plain_write plain_read
           (world_of one_doc) eq_refl eq_refl eq_refl eq_refl eq_refl).
Defined.

(** [field_write] in logic_docs.cpp: selectors, a task and a database. *)
Lemma update_fields_is_a_silent_no_op_witness :
  (LogicDocs.non_null (dw_fields field_write) = true ∧ dw_tasks field_write ≠ [] ∧
   dw_db field_write ≠ None ∧ c_error (world_of one_doc) = None) ∧
  LogicDocs.update_fields (dw_db field_write) (dw_transaction field_write)
    (dw_tasks field_write) (dw_contents field_write) (dw_fields field_write)
    (length (dw_tasks field_write)) (dw_options field_write) (dw_format field_write)
    (world_of one_doc) = Done tt (world_of one_doc) ∧
  LogicDocs.ukv_docs_write field_write (world_of one_doc) = Done tt (world_of one_doc).
Proof.
  assert (dw_tasks field_write ≠ []) as Htasks by (vm_compute; discriminate).
  assert (dw_db field_write ≠ None) as Hdb by (vm_compute; discriminate).
  split; [by repeat split|].
  exact (update_fields_is_a_silent_no_op field_write (world_of one_doc)
           eq_refl Htasks Hdb eq_refl).
Defined.

(** C7.  Three cells on which the export departs from the claim.  A
    one-byte blob for a [uint8_t] cell: the blob is copied into the scalar
    column after the validity bit is set, so the validity bit is not the
    last write of the update sequence; the branch of an unsigned number
    beside it stores the scalar first and sets the validity bit last.  The
    floating-point number whose text is [0.000000], in a string column: the
    cell is valid and not collided, and the string tape holds [0.00000] and
    a terminator, the text without its last character.  A cell of a column
    of type [f16]: the [switch (type)] has no case for it, the cell gets no
    write at all. *)
Theorem gather_cell_is_valid_before_or_without_its_payload :
  (Gather.export_scalar_column t_uint8 (JBinary [42]) 0 three_bitmaps
   = [op_or 100 1; op_and_not 200 1; op_or 0 1; op_scalar 0 [42]] ∧
   octet_ref (validities three_bitmaps) 0 = 0 ∧
   Gather.export_scalar_column t_uint8 (JNumberUnsigned 42) 0 three_bitmaps
   = [op_scalar 0 [42]; op_and_not 100 1; op_and_not 200 1; op_or 0 1]) ∧
  (snprintf_f 0 = "0.000000"%string ∧
   bit_at (exec (Gather.export_string_column (JNumberFloat 0) 0 three_bitmaps
                   (length (output zeroed))) zeroed) (validities three_bitmaps) 0 = true ∧
   bit_at (exec (Gather.export_string_column (JNumberFloat 0) 0 three_bitmaps
                   (length (output zeroed))) zeroed) (collisions three_bitmaps) 0 = false ∧
   Gather.string_cell (exec (Gather.export_string_column (JNumberFloat 0) 0 three_bitmaps
                               (length (output zeroed))) zeroed) 0
   = Some (bytes_of_string "0.00000" ++ [0]) ∧
   output (exec (Gather.export_string_column (JNumberFloat 0) 0 three_bitmaps
                   (length (output zeroed))) zeroed)
   = bytes_of_string "0.00000" ++ [0]) ∧
  Gather.export_cell ukv_doc_field_f16_k (JNumberUnsigned 42) 0 three_bitmaps 0 = [].
Proof. repeat split; vm_compute; reflexivity. Qed.

(** The string [-12] for an [int8_t] cell. *)
Lemma string_cell_is_valid_iff_parsed_in_full_witness :
  validities three_bitmaps ≠ collisions three_bitmaps ∧
  (bit_at (exec (Gather.export_scalar_column t_int8 (JString "-12") 0 three_bitmaps) zeroed)
     (validities three_bitmaps) 0 = true
   ↔ Gather.lexically_parses t_int8 "-12") ∧
  (¬ Gather.lexically_parses t_int8 "-12" →
   bit_at (exec (Gather.export_scalar_column t_int8 (JString "-12") 0 three_bitmaps) zeroed)
     (collisions three_bitmaps) 0 = true ∧
   bit_at (exec (Gather.export_scalar_column t_int8 (JString "-12") 0 three_bitmaps) zeroed)
     (validities three_bitmaps) 0 = false).
Proof.
  assert (validities three_bitmaps ≠ collisions three_bitmaps) as Hapart
    by (vm_compute; discriminate).
  split; [exact Hapart|].
  exact (string_cell_is_valid_iff_parsed_in_full t_int8 "-12" 0 three_bitmaps zeroed Hapart).
Defined.

Example string_cell_minus_twelve :
  bit_at (exec (Gather.export_scalar_column t_int8 (JString "-12") 0 three_bitmaps) zeroed)
    (validities three_bitmaps) 0 = true ∧
  scalars (exec (Gather.export_scalar_column t_int8 (JString "-12") 0 three_bitmaps) zeroed)
    !! 0%nat = Some [244].
Proof. split; vm_compute; reflexivity. Qed.

Example string_cell_with_a_tail :
  bit_at (exec (Gather.export_scalar_column t_int8 (JString "12abc") 0 three_bitmaps) zeroed)
    (validities three_bitmaps) 0 = false ∧
  bit_at (exec (Gather.export_scalar_column t_int8 (JString "12abc") 0 three_bitmaps) zeroed)
    (collisions three_bitmaps) 0 = true.
Proof. split; vm_compute; reflexivity. Qed.

Example string_cell_out_of_range :
  bit_at (exec (Gather.export_scalar_column t_int8 (JString "128") 0 three_bitmaps) zeroed)
    (validities three_bitmaps) 0 = false ∧
  bit_at (exec (Gather.export_scalar_column t_uint8 (JString "-1") 0 three_bitmaps) zeroed)
    (collisions three_bitmaps) 0 = true ∧
  bit_at (exec (Gather.export_scalar_column t_bool (JString "true") 0 three_bitmaps) zeroed)
    (validities three_bitmaps) 0 = true ∧
  bit_at (exec (Gather.export_scalar_column t_bool (JString "True") 0 three_bitmaps) zeroed)
    (validities three_bitmaps) 0 = false.
Proof. repeat split; vm_compute; reflexivity. Qed.

(** A one-byte blob for a [uint8_t] cell sets the conversion bit, contrary
    to C9 as stated; the blob has the width of the target and the cell is
    valid. *)
Lemma binary_cell_sets_the_conversion_bit :
  length [42] = sizeof t_uint8 ∧
  bit_at (exec (Gather.export_scalar_column t_uint8 (JBinary [42]) 0 three_bitmaps) zeroed)
    (validities three_bitmaps) 0 = true ∧
  bit_at (exec (Gather.export_scalar_column t_uint8 (JBinary [42]) 0 three_bitmaps) zeroed)
    (conversions three_bitmaps) 0 ≠ false.
Proof. repeat split; vm_compute; discriminate. Qed.

(** A one-byte blob for a [uint8_t] cell, and for the other branch a blob
    that is too long. *)
Lemma binary_cell_of_the_target_width_is_copied_witness :
  (validities three_bitmaps ≠ collisions three_bitmaps ∧
   conversions three_bitmaps ≠ validities three_bitmaps ∧
   conversions three_bitmaps ≠ collisions three_bitmaps) ∧
  (length [42] = sizeof t_uint8 →
   scalars (exec (Gather.export_scalar_column t_uint8 (JBinary [42]) 0 three_bitmaps) zeroed)
     !! 0%nat = Some [42] ∧
   bit_at (exec (Gather.export_scalar_column t_uint8 (JBinary [42]) 0 three_bitmaps) zeroed)
     (validities three_bitmaps) 0 = true ∧
   bit_at (exec (Gather.export_scalar_column t_uint8 (JBinary [42]) 0 three_bitmaps) zeroed)
     (conversions three_bitmaps) 0 = true ∧
   bit_at (exec (Gather.export_scalar_column t_uint8 (JBinary [42]) 0 three_bitmaps) zeroed)
     (collisions three_bitmaps) 0 = false) ∧
  (length [42] ≠ sizeof t_uint8 →
   scalars (exec (Gather.export_scalar_column t_uint8 (JBinary [42]) 0 three_bitmaps) zeroed)
     !! 0%nat = scalars zeroed !! 0%nat ∧
   bit_at (exec (Gather.export_scalar_column t_uint8 (JBinary [42]) 0 three_bitmaps) zeroed)
     (collisions three_bitmaps) 0 = true ∧
   bit_at (exec (Gather.export_scalar_column t_uint8 (JBinary [42]) 0 three_bitmaps) zeroed)
     (validities three_bitmaps) 0 = false ∧
   bit_at (exec (Gather.export_scalar_column t_uint8 (JBinary [42]) 0 three_bitmaps) zeroed)
     (conversions three_bitmaps) 0 = false).
Proof.
  assert (validities three_bitmaps ≠ collisions three_bitmaps) as Hvc
    by (vm_compute; discriminate).
  assert (conversions three_bitmaps ≠ validities three_bitmaps) as Hcv
    by (vm_compute; discriminate).
  assert (conversions three_bitmaps ≠ collisions three_bitmaps) as Hcc
    by (vm_compute; discriminate).
  split; [by repeat split|].
  exact (binary_cell_of_the_target_width_is_copied t_uint8 [42] 0 three_bitmaps zeroed
           Hvc Hcv Hcc).
Defined.

(** The read of logic_docs.cpp on [shuffled_read]: one [ukv_read] of keys
    10 and 11, and the three entries in the caller's order. *)
Example logic_docs_read_in_caller_order :
  ∃ w',
    LogicDocs.ukv_docs_read shuffled_read (world_of two_docs) = Done (Some [[8]; [7]; [8]]) w' ∧
    c_error w' = None ∧
    reads_of (trace w') =
      [{| read_db := Some 1; read_transaction := None; read_options := 0;
          read_tasks := [(0, 10); (0, 11)] |}].
Proof. eexists. split; [vm_compute; reflexivity|]. split; reflexivity. Qed.

(** [update_docs] of logic_docs.cpp on [broken_write]: the parser is
    called with [allow_exceptions], its exception leaves [ukv_docs_write]
    and nothing is written. *)
Example logic_docs_update_docs_stops :
  ∃ w',
    LogicDocs.ukv_docs_write broken_write (world_of one_doc) = Aborted uncaught_exception w' ∧
    c_error w' = None ∧
    writes_of (trace w') = [] ∧
    store w' = one_doc.
Proof. eexists. split; [vm_compute; reflexivity|]. repeat split; reflexivity. Qed.

(** * The further properties on concrete inputs *)

Import TabularFixtures.

(** Cell 3 of a column keeps its content while cell 0 is exported. *)
Lemma cell_export_leaves_other_cells_witness :
  (bitmaps_apart 1 three_bitmaps ∧ 3%nat ≠ 0%nat ∧ Z.of_nat 0 < 8 * 1 ∧ Z.of_nat 3 < 8 * 1) ∧
  scalars (exec (Gather.export_scalar_column t_int8 (JNumberInteger 5) 0 three_bitmaps) zeroed)
    !! 3%nat = scalars zeroed !! 3%nat ∧
  str_offsets (exec (Gather.export_string_column (JNumberInteger 5) 0 three_bitmaps
                       (length (output zeroed))) zeroed) !! 3%nat
  = str_offsets zeroed !! 3%nat.
Proof.
  assert (bitmaps_apart 1 three_bitmaps) as Hapart.
  { intros b b' Hb Hb'. unfold bitmaps_of in Hb, Hb'. simpl in Hb, Hb'.
    set_unfold. lia. }
  assert (3%nat ≠ 0%nat) as Hne by lia.
  assert (Z.of_nat 0 < 8 * 1) as Hlt by lia.
  assert (Z.of_nat 3 < 8 * 1) as Hlt' by lia.
  split; [done|].
  destruct (cell_export_leaves_other_cells t_int8 (JNumberInteger 5) 0 3 three_bitmaps 1
              zeroed Hapart Hne Hlt Hlt') as (_ & Hscalar & _ & Hoff & _).
  split; [exact Hscalar|exact Hoff].
Defined.

(** A signed integer for an unsigned byte is converted. *)
Lemma conversion_bit_marks_a_converted_value_witness :
  (conversions three_bitmaps ≠ validities three_bitmaps ∧
   conversions three_bitmaps ≠ collisions three_bitmaps) ∧
  bit_at (exec (Gather.export_scalar_column t_uint8 (JNumberInteger 5) 0 three_bitmaps) zeroed)
    (conversions three_bitmaps) 0
  = bool_decide (is_Some (Gather.coerced_scalar t_uint8 (JNumberInteger 5)))
    && negb (source_matches_target t_uint8 (JNumberInteger 5)).
Proof.
  assert (conversions three_bitmaps ≠ validities three_bitmaps) as Hcv
    by (vm_compute; discriminate).
  assert (conversions three_bitmaps ≠ collisions three_bitmaps) as Hcc
    by (vm_compute; discriminate).
  split; [done|].
  exact (conversion_bit_marks_a_converted_value t_uint8 (JNumberInteger 5) 0 three_bitmaps
           zeroed Hcv Hcc).
Defined.

(** The string [ab] on an empty tape. *)
Lemma string_cell_records_what_was_appended_witness :
  Z.of_nat (length (output zeroed ++ default [] (appended_bytes (JString "ab")))) < 2 ^ 32 ∧
  output (exec (Gather.export_string_column (JString "ab") 0 three_bitmaps
                  (length (output zeroed))) zeroed)
  = output zeroed ++ default [] (appended_bytes (JString "ab")) ∧
  str_offsets (exec (Gather.export_string_column (JString "ab") 0 three_bitmaps
                       (length (output zeroed))) zeroed) !! 0%nat
  = Some (Z.of_nat (length (output zeroed))) ∧
  str_lengths (exec (Gather.export_string_column (JString "ab") 0 three_bitmaps
                       (length (output zeroed))) zeroed) !! 0%nat
  = Some (default ukv_length_missing_k (recorded_length (JString "ab"))).
Proof.
  assert (Z.of_nat (length (output zeroed ++ default [] (appended_bytes (JString "ab"))))
          < 2 ^ 32) as Hfit by (vm_compute; reflexivity).
  split; [done|].
  exact (string_cell_records_what_was_appended (JString "ab") 0 three_bitmaps zeroed Hfit).
Defined.

(** The integer -12 in a string column. *)
Lemma integers_always_fit_the_print_buffer_witness :
  ((JNumberInteger (-12) = JNumberInteger (-12) ∨ JNumberInteger (-12) = JNumberUnsigned (-12)) ∧
   - 2 ^ 63 ≤ -12 < 2 ^ 64 ∧
   Z.of_nat (length (output zeroed)) < 2 ^ 32) ∧
  bit_at (exec (Gather.export_string_column (JNumberInteger (-12)) 0 three_bitmaps
                  (length (output zeroed))) zeroed) (validities three_bitmaps) 0 = true ∧
  output (exec (Gather.export_string_column (JNumberInteger (-12)) 0 three_bitmaps
                  (length (output zeroed))) zeroed)
  = output zeroed ++ bytes_of_string (pretty (-12)) ++ [0].
Proof.
  assert (JNumberInteger (-12) = JNumberInteger (-12) ∨ JNumberInteger (-12) = JNumberUnsigned (-12))
    as Hvalue by (left; reflexivity).
  assert (- 2 ^ 63 ≤ -12 < 2 ^ 64) as Hrange by lia.
  assert (Z.of_nat (length (output zeroed)) < 2 ^ 32) as Hfit by (vm_compute; reflexivity).
  split; [done|].
  destruct (integers_always_fit_the_print_buffer (JNumberInteger (-12)) (-12) 0 three_bitmaps
              zeroed Hvalue Hrange Hfit) as (Hvalid & Hout & _).
  split; [exact Hvalid|exact Hout].
Defined.

(** The integer -12 printed and read back as an [int32_t]. *)
Lemma printed_integer_reads_back_witness :
  (t_int32 ≠ t_bool ∧ t_int32 ≠ t_float ∧ t_int32 ≠ t_double ∧
   numeric_min t_int32 ≤ -12 ≤ numeric_max t_int32) ∧
  (Gather.to_chars_integer (-12)).2 = pretty (-12) ∧
  Gather.from_chars t_int32 (Gather.to_chars_integer (-12)).2
  = ({| ptr := Z.of_nat (String.length (Gather.to_chars_integer (-12)).2); ec := errc_ok |},
     Some (le_bytes (sizeof t_int32) (-12))) ∧
  Gather.coerced_scalar t_int32 (JString (Gather.to_chars_integer (-12)).2)
  = Gather.coerced_scalar t_int32 (JNumberInteger (-12)).
Proof.
  assert (t_int32 ≠ t_bool) as Hbool by discriminate.
  assert (t_int32 ≠ t_float) as Hfloat by discriminate.
  assert (t_int32 ≠ t_double) as Hdouble by discriminate.
  assert (numeric_min t_int32 ≤ -12 ≤ numeric_max t_int32) as Hrange by (vm_compute; split; discriminate).
  split; [done|].
  exact (printed_integer_reads_back t_int32 (-12) Hbool Hfloat Hdouble Hrange).
Defined.

(** Ten documents and two fields, with conversion bitmaps: cell 3 of
    field 0 and cell 9 of field 1. *)
Lemma gather_bitmaps_do_not_overlap_witness :
  (Z.of_nat 10 < 2 ^ 64 ∧
   length [ukv_doc_field_u8_k; ukv_doc_field_str_k] = 2%nat ∧
   Tabular.bytes_needed 10 2 [ukv_doc_field_u8_k; ukv_doc_field_str_k] true false < 2 ^ 64 ∧
   (0 < 2)%nat ∧ (1 < 2)%nat ∧ (3 < 10)%nat ∧ (9 < 10)%nat ∧
   validities (Tabular.column_of 10 2 true false 1000 0)
     ∈ bitmaps_of (Tabular.column_of 10 2 true false 1000 0) ∧
   conversions (Tabular.column_of 10 2 true false 1000 1)
     ∈ bitmaps_of (Tabular.column_of 10 2 true false 1000 1)) ∧
  Tabular.slots_per_bitmap 10 = Tabular.slots_needed 10 ∧
  bitmaps_apart (Tabular.slots_per_bitmap 10) (Tabular.column_of 10 2 true false 1000 0) ∧
  ((0%nat, 3%nat) ≠ (1%nat, 9%nat) →
   octet_ref (validities (Tabular.column_of 10 2 true false 1000 0)) 3
   ≠ octet_ref (conversions (Tabular.column_of 10 2 true false 1000 1)) 9
   ∨ Z.of_nat 3 mod 8 ≠ Z.of_nat 9 mod 8).
Proof.
  assert (Z.of_nat 10 < 2 ^ 64) as Hdocs by (vm_compute; reflexivity).
  assert (length [ukv_doc_field_u8_k; ukv_doc_field_str_k] = 2%nat) as Htypes by reflexivity.
  assert (Tabular.bytes_needed 10 2 [ukv_doc_field_u8_k; ukv_doc_field_str_k] true false
          < 2 ^ 64) as Hfit by (vm_compute; reflexivity).
  assert (0 < 2)%nat as Hf by lia.
  assert (1 < 2)%nat as Hf' by lia.
  assert (3 < 10)%nat as Hd by lia.
  assert (9 < 10)%nat as Hd' by lia.
  assert (validities (Tabular.column_of 10 2 true false 1000 0)
            ∈ bitmaps_of (Tabular.column_of 10 2 true false 1000 0)) as Hb
    by (unfold bitmaps_of; apply list_elem_of_here).
  assert (conversions (Tabular.column_of 10 2 true false 1000 1)
            ∈ bitmaps_of (Tabular.column_of 10 2 true false 1000 1)) as Hb'
    by (unfold bitmaps_of; apply list_elem_of_further, list_elem_of_here).
  split; [by repeat split|].
  destruct (gather_bitmaps_do_not_overlap 10 2 [ukv_doc_field_u8_k; ukv_doc_field_str_k]
              true false 1000 0 1 3 9 _ _ Hdocs Htypes Hfit Hf Hf' Hd Hd' Hb Hb')
    as (Hslots & _ & _ & Hapart & Hsep).
  split; [exact Hslots|]. split; [exact Hapart|exact Hsep].
Defined.


(** The field "x" of [two_docs] gathered as an unsigned byte and as a
    string. *)
Lemma gather_fills_every_cell_witness :
  (Tabular.strided_take (Tabular.dg_types gather_x) 0 (Tabular.dg_fields_count gather_x)
   = Some [ukv_doc_field_u8_k; ukv_doc_field_str_k] ∧
   Z.of_nat (length (Tabular.dg_keys gather_x)) < 2 ^ 64 ∧
   Tabular.bytes_needed (length (Tabular.dg_keys gather_x))
     (Tabular.dg_fields_count gather_x) [ukv_doc_field_u8_k; ukv_doc_field_str_k]
     (Tabular.dg_wants_conversions gather_x) (Tabular.dg_wants_collisions gather_x)
   < 2 ^ 64 ∧
   Tabular.ukv_docs_gather gather_x 1000 blank_table (world_of two_docs)
   = Done (Some gathered_x_table)
       (final (Tabular.ukv_docs_gather gather_x 1000 blank_table (world_of two_docs))) ∧
   Z.of_nat (length (Tabular.string_tape gathered_x_table)) < 2 ^ 32) ∧
  c_error (final (Tabular.ukv_docs_gather gather_x 1000 blank_table (world_of two_docs)))
  = None ∧
  store (final (Tabular.ukv_docs_gather gather_x 1000 blank_table (world_of two_docs)))
  = store (world_of two_docs) ∧
  writes_of (trace (final (Tabular.ukv_docs_gather gather_x 1000 blank_table
                             (world_of two_docs))))
  = writes_of (trace (world_of two_docs)).
Proof.
  assert (Tabular.strided_take (Tabular.dg_types gather_x) 0
            (Tabular.dg_fields_count gather_x)
          = Some [ukv_doc_field_u8_k; ukv_doc_field_str_k]) as Htypes by reflexivity.
  assert (Z.of_nat (length (Tabular.dg_keys gather_x)) < 2 ^ 64) as Hdocs
    by (vm_compute; reflexivity).
  assert (Tabular.bytes_needed (length (Tabular.dg_keys gather_x))
            (Tabular.dg_fields_count gather_x) [ukv_doc_field_u8_k; ukv_doc_field_str_k]
            (Tabular.dg_wants_conversions gather_x) (Tabular.dg_wants_collisions gather_x)
          < 2 ^ 64) as Hfit by (vm_compute; reflexivity).
  assert (Tabular.ukv_docs_gather gather_x 1000 blank_table (world_of two_docs)
          = Done (Some gathered_x_table)
              (final (Tabular.ukv_docs_gather gather_x 1000 blank_table
                        (world_of two_docs)))) as Hrun by (vm_compute; reflexivity).
  assert (Z.of_nat (length (Tabular.string_tape gathered_x_table)) < 2 ^ 32) as Htape
    by (vm_compute; reflexivity).
  split; [by repeat split|].
  destruct (gather_fills_every_cell gather_x 1000 blank_table
              [ukv_doc_field_u8_k; ukv_doc_field_str_k] (world_of two_docs) _ _
              Htypes Hdocs Hfit Hrun Htape)
    as (Hok & Hstore & _ & Hwrites & _).
  split; [exact Hok|]. split; [exact Hstore|exact Hwrites].
Defined.

(** A name, a JSON pointer and a null pointer: two fields are parsed. *)
Lemma parse_fields_stops_at_the_first_bad_field_witness :
  (Tabular.fields_seen three_fields = Some [Some "x"%string; Some "/a/b"%string; None] ∧
   (3 ≤ length [Some "x"%string; Some "/a/b"%string; @None string])%nat) ∧
  ∃ out w' k,
    Tabular.parse_fields three_fields 3 (world_of two_docs) = Done out w' ∧
    store w' = store (world_of two_docs) ∧ trace w' = trace (world_of two_docs) ∧
    length out = 3%nat ∧ (k ≤ 3)%nat ∧
    (∀ j field, (j < k)%nat →
       [Some "x"%string; Some "/a/b"%string; None] !! j = Some field →
       Tabular.field_error field = None ∧
       ∃ name, field = Some name ∧ out !! j = Some (Tabular.heapy_of name)) ∧
    (∀ j, (k ≤ j < 3)%nat → out !! j = Some Tabular.heapy_monostate) ∧
    (if decide (k = 3%nat) then c_error w' = c_error (world_of two_docs)
     else ∃ field e,
       [Some "x"%string; Some "/a/b"%string; None] !! k = Some field ∧
       Tabular.field_error field = Some e ∧ c_error w' = Some e).
Proof.
  assert (Tabular.fields_seen three_fields
          = Some [Some "x"%string; Some "/a/b"%string; None]) as Hseen by reflexivity.
  assert (3 ≤ length [Some "x"%string; Some "/a/b"%string; @None string])%nat as Hn
    by (simpl; lia).
  split; [done|].
  exact (parse_fields_stops_at_the_first_bad_field three_fields 3 _ (world_of two_docs)
           Hseen Hn).
Defined.

(** The paths [a] and [bc]. *)
Lemma gist_offsets_delimit_the_paths_witness :
  Z.of_nat (length (Tabular.path_tape ["a"; "bc"]%string)) < 2 ^ 32 ∧
  Tabular.path_offsets 0 ["a"; "bc"]%string !! 2%nat
  = Some (Z.of_nat (length (Tabular.path_tape ["a"; "bc"]%string))).
Proof.
  assert (Z.of_nat (length (Tabular.path_tape ["a"; "bc"]%string)) < 2 ^ 32) as Hfit
    by (vm_compute; reflexivity).
  split; [done|].
  destruct (gist_offsets_delimit_the_paths ["a"; "bc"]%string Hfit) as (_ & Hlast & _).
  exact Hlast.
Defined.


(** [shuffled_read] in logic_docs.cpp. *)
Lemma logic_docs_read_planned_witness :
  (LogicDocs.ukv_docs_read shuffled_read (world_of two_docs)
   = Done (Some [[8]; [7]; [8]])
       (final (LogicDocs.ukv_docs_read shuffled_read (world_of two_docs))) ∧
   c_error (final (LogicDocs.ukv_docs_read shuffled_read (world_of two_docs))) = None ∧
   negb (LogicDocs.non_null (dr_fields shuffled_read))
   && bool_decide (dr_format shuffled_read = internal_format_k) = false) ∧
  ∃ tape,
    Some [[8]; [7]; [8]] = Some tape ∧ length tape = length (dr_tasks shuffled_read) ∧
    store (final (LogicDocs.ukv_docs_read shuffled_read (world_of two_docs)))
    = store (world_of two_docs) ∧
    writes_of (trace (final (LogicDocs.ukv_docs_read shuffled_read (world_of two_docs))))
    = writes_of (trace (world_of two_docs)).
Proof.
  assert (LogicDocs.ukv_docs_read shuffled_read (world_of two_docs)
          = Done (Some [[8]; [7]; [8]])
              (final (LogicDocs.ukv_docs_read shuffled_read (world_of two_docs)))) as Hrun
    by (vm_compute; reflexivity).
  assert (c_error (final (LogicDocs.ukv_docs_read shuffled_read (world_of two_docs))) = None)
    as Hok by (vm_compute; reflexivity).
  split; [split; [exact Hrun|split; [exact Hok|reflexivity]]|].
  destruct (logic_docs_read_planned shuffled_read (world_of two_docs) _ _ Hrun Hok eq_refl)
    as (tape & Hout & Hlen & Hstore & _ & Hwrites & _).
  exists tape. split; [exact Hout|]. split; [exact Hlen|]. split; [exact Hstore|exact Hwrites].
Defined.

(** [broken_write] in logic_docs.cpp: its second entry is no JSON. *)
Lemma update_docs_parse_failure_writes_nothing_witness :
  ((1 < length (dw_tasks broken_write))%nat ∧
   dw_contents broken_write !! 1%nat = Some (Some [120; 33]) ∧
   (∀ doc, LogicDocs.parse_result [120; 33] ukv_format_json_k = Some doc →
           is_discarded doc = true)) ∧
  store (final (LogicDocs.update_docs (Some 1) None (dw_tasks broken_write)
                  (dw_contents broken_write) strided_null
                  (length (dw_tasks broken_write)) 0 ukv_format_json_k (world_of one_doc)))
  = store (world_of one_doc).
Proof.
  assert (1 < length (dw_tasks broken_write))%nat as Hi by (simpl; lia).
  assert (dw_contents broken_write !! 1%nat = Some (Some [120; 33])) as Hcontent
    by reflexivity.
  assert (∀ doc, LogicDocs.parse_result [120; 33] ukv_format_json_k = Some doc →
                 is_discarded doc = true) as Hfails.
  { intros doc Hdoc. vm_compute in Hdoc. discriminate Hdoc. }
  split; [done|].
  destruct (update_docs_parse_failure_writes_nothing (Some 1) None (dw_tasks broken_write)
              (dw_contents broken_write) strided_null 0 ukv_format_json_k
              (world_of one_doc) 1 [120; 33] Hi Hcontent Hfails) as (_ & Hstore & _).
  exact Hstore.
Defined.

(** [5] and [7] as JSON text replace the documents under keys 42 and 43. *)
Lemma replace_docs_writes_every_document_once_witness :
  (Deprecated.replace_docs (Some 1) None json_places json_contents 0 ukv_format_json_k
     (world_of one_doc)
   = Done tt (final (Deprecated.replace_docs (Some 1) None json_places json_contents 0
                       ukv_format_json_k (world_of one_doc))) ∧
   c_error (final (Deprecated.replace_docs (Some 1) None json_places json_contents 0
                     ukv_format_json_k (world_of one_doc))) = None) ∧
  ∃ entries,
    length entries = count json_places ∧
    writes_of (trace (final (Deprecated.replace_docs (Some 1) None json_places json_contents
                               0 ukv_format_json_k (world_of one_doc))))
    = writes_of (trace (world_of one_doc))
      ++ [{| write_db := Some 1; write_transaction := None; write_options := 0;
             write_tasks := keys_begin json_places;
             write_contents := Some <$> entries |}].
Proof.
  assert (Deprecated.replace_docs (Some 1) None json_places json_contents 0
            ukv_format_json_k (world_of one_doc)
          = Done tt (final (Deprecated.replace_docs (Some 1) None json_places json_contents 0
                              ukv_format_json_k (world_of one_doc)))) as Hrun
    by (vm_compute; reflexivity).
  assert (c_error (final (Deprecated.replace_docs (Some 1) None json_places json_contents 0
                            ukv_format_json_k (world_of one_doc))) = None) as Hok
    by (vm_compute; reflexivity).
  split; [split; [exact Hrun|exact Hok]|].
  destruct (replace_docs_writes_every_document_once (Some 1) None json_places json_contents
              0 ukv_format_json_k (world_of one_doc) _ Hrun Hok)
    as (entries & Hlen & _ & Hwrites & _).
  exists entries. split; [exact Hlen|exact Hwrites].
Defined.

(** A document and a deletion in logic_docs.cpp. *)
Lemma update_docs_writes_every_document_once_witness :
  (LogicDocs.update_docs (Some 1) None (keys_begin json_places) mixed_contents
     strided_null 2 0 ukv_format_json_k (world_of one_doc)
   = Done tt (final (LogicDocs.update_docs (Some 1) None (keys_begin json_places)
                       mixed_contents strided_null 2 0 ukv_format_json_k
                       (world_of one_doc))) ∧
   c_error (final (LogicDocs.update_docs (Some 1) None (keys_begin json_places)
                     mixed_contents strided_null 2 0 ukv_format_json_k
                     (world_of one_doc))) = None) ∧
  ∃ updated_vals,
    updated_vals ≠ [] ∧
    length updated_vals = length (take 2 (keys_begin json_places)) ∧
    writes_of (trace (final (LogicDocs.update_docs (Some 1) None (keys_begin json_places)
                               mixed_contents strided_null 2 0 ukv_format_json_k
                               (world_of one_doc))))
    = writes_of (trace (world_of one_doc))
      ++ [{| write_db := Some 1; write_transaction := None; write_options := 0;
             write_tasks := take 2 (keys_begin json_places);
             write_contents := updated_vals |}].
Proof.
  assert (LogicDocs.update_docs (Some 1) None (keys_begin json_places) mixed_contents
            strided_null 2 0 ukv_format_json_k (world_of one_doc)
          = Done tt (final (LogicDocs.update_docs (Some 1) None (keys_begin json_places)
                              mixed_contents strided_null 2 0 ukv_format_json_k
                              (world_of one_doc)))) as Hrun
    by (vm_compute; reflexivity).
  assert (c_error (final (LogicDocs.update_docs (Some 1) None (keys_begin json_places)
                            mixed_contents strided_null 2 0 ukv_format_json_k
                            (world_of one_doc))) = None) as Hok
    by (vm_compute; reflexivity).
  split; [split; [exact Hrun|exact Hok]|].
  destruct (update_docs_writes_every_document_once (Some 1) None (keys_begin json_places)
              mixed_contents strided_null 2 0 ukv_format_json_k (world_of one_doc) _
              Hrun Hok)
    as (updated_vals & Hne & Hlen & _ & Hwrites & _).
  exists updated_vals. split; [exact Hne|]. split; [exact Hlen|exact Hwrites].
Defined.

(** The gist of [three_docs] in logic_docs.cpp. *)
Lemma logic_gist_exports_every_path_once_witness :
  (@LogicGist.ukv_docs_gist flat_json map_engine listed_set (Some 1) None
     [(0, 10); (0, 11); (0, 42)] 0 (world_of three_docs)
   = Done (Some (3%nat, [47; 97; 0; 47; 98; 0; 47; 120; 0]))
       (final (@LogicGist.ukv_docs_gist flat_json map_engine listed_set (Some 1) None
                 [(0, 10); (0, 11); (0, 42)] 0 (world_of three_docs))) ∧
   c_error (final (@LogicGist.ukv_docs_gist flat_json map_engine listed_set (Some 1) None
                     [(0, 10); (0, 11); (0, 42)] 0 (world_of three_docs))) = None) ∧
  store (final (@LogicGist.ukv_docs_gist flat_json map_engine listed_set (Some 1) None
                  [(0, 10); (0, 11); (0, 42)] 0 (world_of three_docs)))
  = store (world_of three_docs) ∧
  writes_of (trace (final (@LogicGist.ukv_docs_gist flat_json map_engine listed_set (Some 1)
                             None [(0, 10); (0, 11); (0, 42)] 0 (world_of three_docs))))
  = writes_of (trace (world_of three_docs)).
Proof.
  assert (@LogicGist.ukv_docs_gist flat_json map_engine listed_set (Some 1) None
            [(0, 10); (0, 11); (0, 42)] 0 (world_of three_docs)
          = Done (Some (3%nat, [47; 97; 0; 47; 98; 0; 47; 120; 0]))
              (final (@LogicGist.ukv_docs_gist flat_json map_engine listed_set (Some 1) None
                        [(0, 10); (0, 11); (0, 42)] 0 (world_of three_docs)))) as Hrun
    by (vm_compute; reflexivity).
  assert (c_error (final (@LogicGist.ukv_docs_gist flat_json map_engine listed_set (Some 1)
                            None [(0, 10); (0, 11); (0, 42)] 0 (world_of three_docs)))
          = None) as Hok by (vm_compute; reflexivity).
  split; [split; [exact Hrun|exact Hok]|].
  destruct (@logic_gist_exports_every_path_once flat_json map_engine listed_set (Some 1) None
              [(0, 10); (0, 11); (0, 42)] 0 (world_of three_docs) _ _ _ Hrun Hok)
    as (Hstore & _ & Hwrites & _).
  split; [exact Hstore|exact Hwrites].
Defined.
